(** * Verification of the log tools: the rotating file sink and the line formatter

    The repository holds two implementations of [createFileLogger]:
    - the Node one (module [fs], [fs.createWriteStream]) of [mod.ts] and of
      the object-argument variant, whose maintenance loop runs a fresh
      regular expression on the shrinking [chunk];
    - the Deno one ([Deno.openSync], [ensureFileSync]) whose loop keeps one
      global regular expression and its [lastIndex] over the whole content.
    Both are embedded below, with [createStringifyLogger], which is the same
    in every variant.

    Conventions of the embedding.
    - A JavaScript string is a [list ascii], a sequence of characters; the
      pattern and the markers are ASCII and every other character is opaque
      to the loops.  [s.substring(i)] is [skipn i s].
    - Where the bytes of the file matter, a byte and a UTF-16 code unit are
      numbers of [N]; the decoder and the encoder of the platform are
      [utf8_decode] and [utf8_encode], and the two loops are given again on
      strings of code units (module [Units]), where they agree with the
      loops of the sinks on every string of characters.
    - A JavaScript number holding a time or a duration is an integer of [Z];
      this is exact below 2^53, where [Date.now()] lives.
    - [while] loops take fuel; each is proved to return with the fuel it is
      run with. *)

From Stdlib Require Import Ascii String.
From Stdlib Require Import List ZArith NArith Lia Bool Arith DecimalPos DecimalN Sorted.
Import ListNotations.

Local Open Scope list_scope.

(** ** Strings *)

Definition str := list ascii.

Definition lit (s : string) : str := list_ascii_of_string s.

(** [s.substring(start)]: the code units from [start] to the end, [start]
    clamped to the length. *)
Definition substring (s : str) (start : nat) : str := skipn start s.

(** [s] occurs in [t] as a contiguous piece. *)
Definition occurs_in (s t : str) : Prop := exists a b, t = a ++ s ++ b.

(** [t] is what remains of [s] after a prefix was dropped. *)
Definition suffix_of (t s : str) : Prop := exists dropped, s = dropped ++ t.

(** ** Numbers and their decimal text *)

Definition digit_char (d : N) : ascii := ascii_of_N (48 + d).

Definition is_digit (c : ascii) : bool :=
  ((48 <=? N_of_ascii c) && (N_of_ascii c <=? 57))%N.

Definition digit_value (c : ascii) : N := (N_of_ascii c - 48)%N.

Fixpoint uint_chars (d : Decimal.uint) : str :=
  match d with
  | Decimal.Nil => []
  | Decimal.D0 d => digit_char 0 :: uint_chars d
  | Decimal.D1 d => digit_char 1 :: uint_chars d
  | Decimal.D2 d => digit_char 2 :: uint_chars d
  | Decimal.D3 d => digit_char 3 :: uint_chars d
  | Decimal.D4 d => digit_char 4 :: uint_chars d
  | Decimal.D5 d => digit_char 5 :: uint_chars d
  | Decimal.D6 d => digit_char 6 :: uint_chars d
  | Decimal.D7 d => digit_char 7 :: uint_chars d
  | Decimal.D8 d => digit_char 8 :: uint_chars d
  | Decimal.D9 d => digit_char 9 :: uint_chars d
  end.

(** The text of a non-negative integer, as a template literal prints it:
    decimal digits, no leading zero, ["0"] for zero. *)
Definition N_toString (n : N) : str := uint_chars (N.to_uint n).

(** [`${x}`] for an integer [x]. *)
Definition Number_toString (x : Z) : str :=
  match x with
  | Zneg p => lit "-" ++ N_toString (Npos p)
  | _ => N_toString (Z.to_N x)
  end.

(** [parseInt(s, 10)] on the text of capture group 1, which holds digits
    only: the digits are accumulated from the left. *)
Fixpoint parseInt_acc (s : str) (acc : N) : N :=
  match s with
  | [] => acc
  | c :: s' => if is_digit c then parseInt_acc s' (10 * acc + digit_value c)%N else acc
  end.

Definition parseInt (s : str) : Z := Z.of_N (parseInt_acc s 0).

(** ** The regular expression [/---------- TIMESTAMP: (\d+) ----------/g] *)

Definition marker_open : str := lit "---------- TIMESTAMP: ".
Definition marker_close : str := lit " ----------".

(** The result of a successful [exec]: [match.index], [match[0]] and
    [match[1]]. *)
Record RegExpMatch : Type := mkMatch {
  index : nat;
  matched : str;
  group1 : str
}.

(** End of a match in the input: [match.index + match[0].length]. *)
Definition match_end (m : RegExpMatch) : nat := index m + length (matched m).

Definition timestamp_of (m : RegExpMatch) : Z := parseInt (group1 m).

Fixpoint strip_prefix (p s : str) : option str :=
  match p, s with
  | [], _ => Some s
  | a :: p', b :: s' => if Ascii.eqb a b then strip_prefix p' s' else None
  | _ :: _, [] => None
  end.

(** The longest run of digits at the head of [s], and the rest. *)
Fixpoint span_digits (s : str) : str * str :=
  match s with
  | c :: s' =>
      if is_digit c then (c :: fst (span_digits s'), snd (span_digits s'))
      else ([], s)
  | [] => ([], [])
  end.

(** The pattern tried at the head of [s].  [\d+] is greedy; what follows it
    in the pattern is a space, which no digit is, so giving digits back never
    helps and the greedy run is the only candidate. *)
Definition match_here (s : str) : option str :=
  match strip_prefix marker_open s with
  | None => None
  | Some s1 =>
      match span_digits s1 with
      | ([], _) => None
      | (ds, s2) =>
          match strip_prefix marker_close s2 with
          | None => None
          | Some _ => Some ds
          end
      end
  end.

(** The leftmost position of [s] where the pattern matches; [i] is the
    position of the head of [s] in the whole input. *)
Fixpoint search (s : str) (i : nat) : option RegExpMatch :=
  match match_here s with
  | Some ds => Some (mkMatch i (marker_open ++ ds ++ marker_close) ds)
  | None =>
      match s with
      | [] => None
      | _ :: s' => search s' (S i)
      end
  end.

(** [regex.exec(input)] with [regex.lastIndex = lastIndex]. *)
Definition exec (input : str) (lastIndex : nat) : option RegExpMatch :=
  search (skipn lastIndex input) lastIndex.

(** ** Age Markers *)

(** The line the maintenance cycle appends:
    [` ---------- TIMESTAMP: ${currentTime} ---------- `]. *)
Definition marker_line (currentTime : Z) : str :=
  lit " ---------- TIMESTAMP: " ++ Number_toString currentTime ++ lit " ---------- ".

(** The part of the line the pattern recognises. *)
Definition marker_text (currentTime : Z) : str :=
  marker_open ++ Number_toString currentTime ++ marker_close.

(** The Age Marker occurrences of a content, in file order: walking the
    content from the left, a position is an occurrence when the pattern
    matches there and the position is not inside the previous occurrence.
    [pos] is the position of the head of [s]; [skip] counts the code units
    still covered by the previous occurrence. *)
Fixpoint markers_aux (s : str) (pos skip : nat) : list RegExpMatch :=
  match s with
  | [] => []
  | _ :: s' =>
      match skip with
      | S k => markers_aux s' (S pos) k
      | O =>
          match match_here s with
          | Some ds =>
              let text := marker_open ++ ds ++ marker_close in
              mkMatch pos text ds :: markers_aux s' (S pos) (length text - 1)
          | None => markers_aux s' (S pos) 0
          end
      end
  end.

Definition markers (content : str) : list RegExpMatch := markers_aux content 0 0.

(** Occurrences at or after position [from]. *)
Definition markers_from (content : str) (from : nat) : list RegExpMatch :=
  markers_aux (skipn from content) from 0.

Definition fresh (expiryTimestamp : Z) (m : RegExpMatch) : bool :=
  (timestamp_of m >? expiryTimestamp)%Z.

(** A match moved [d] positions to the right. *)
Definition shift (d : nat) (m : RegExpMatch) : RegExpMatch :=
  mkMatch (d + index m) (matched m) (group1 m).

(** End of the last occurrence of a list, [from] when the list is empty. *)
Definition last_end (ms : list RegExpMatch) (from : nat) : nat :=
  fold_left (fun _ m => match_end m) ms from.

(** ** The environment *)

(** The clock is the sequence of values the successive calls of
    [Date.now()] (and [new Date()]) return; [calls] counts the calls made so
    far. *)
Record Clock : Type := mkClock {
  readings : nat -> Z;
  calls : nat
}.

Definition Date_now (c : Clock) : Z * Clock :=
  (readings c (calls c), mkClock (readings c) (S (calls c))).

(** An optional number used as a condition, [if (ttl)]: absent and [0] are
    false. *)
Definition truthy (x : option Z) : bool :=
  match x with
  | Some v => negb (v =? 0)%Z
  | None => false
  end.

(** [(x || 0)] for an optional number. *)
Definition or_zero (x : option Z) : Z :=
  match x with Some v => v | None => 0%Z end.

(** [expiryTimestamp = Date.now() - (ttl || 0) * 1000]. *)
Definition expiry (now : Z) (ttl : option Z) : Z := (now - or_zero ttl * 1000)%Z.

(** [life > expireDuration] for [life = elapsed / 1000], [elapsed] in
    milliseconds: the division is cleared. *)
Definition exceeds (elapsed : Z) (expireDuration : option Z) : bool :=
  (elapsed >? or_zero expireDuration * 1000)%Z.

(** ** The Node implementation *)

Module NodeSink.

(** [fs.Stats]: [birthtime] is always a date. *)
Record Stats : Type := mkStats { birthtime : Z }.

Record File : Type := mkFile { content : str; stats : Stats }.

Record World : Type := mkWorld {
  clock : Clock;
  (** what is at [filepath]; [None] when nothing is *)
  file : option File;
  (** what [logWriteStream.write] was given and the file has not received yet *)
  pending : str;
  (** [logWriteStream] is open *)
  stream_open : bool;
  (** the repeating timers that are armed *)
  intervals : list positive;
  next_interval : positive
}.

Definition set_clock (c : Clock) (w : World) : World :=
  mkWorld c (file w) (pending w) (stream_open w) (intervals w) (next_interval w).

Definition set_file (f : option File) (w : World) : World :=
  mkWorld (clock w) f (pending w) (stream_open w) (intervals w) (next_interval w).

Definition set_pending (p : str) (w : World) : World :=
  mkWorld (clock w) (file w) p (stream_open w) (intervals w) (next_interval w).

Definition set_stream_open (b : bool) (w : World) : World :=
  mkWorld (clock w) (file w) (pending w) b (intervals w) (next_interval w).

Definition existsSync (w : World) : bool :=
  match file w with Some _ => true | None => false end.

(** [fs.createWriteStream(filepath, { flags: "a" })]: the stream is there at
    once, the file is opened later. *)
Definition createWriteStream (w : World) : World :=
  set_stream_open true (set_pending [] w).

(** [appendLog]: [logWriteStream.write(log + separator)].  The stream takes
    the text; a closed stream takes nothing. *)
Definition appendLog (separator log : str) (w : World) : World :=
  if stream_open w then set_pending (pending w ++ log ++ separator) w else w.

(** The stream hands what it holds to the file, at its end; opened with
    the flag [a], it makes the file when there is none. *)
Definition flush (w : World) : World :=
  match file w with
  | Some f => set_pending [] (set_file (Some (mkFile (content f ++ pending w) (stats f))) w)
  | None =>
      set_pending []
        (set_file (Some (mkFile (pending w) (mkStats (readings (clock w) (calls (clock w)))))) w)
  end.

(** [fs.writeFileSync(filepath, chunk)]; a file it has to create is born at
    the time the clock shows. *)
Definition writeFileSync (chunk : str) (w : World) : World :=
  match file w with
  | Some f => set_file (Some (mkFile chunk (stats f))) w
  | None => set_file (Some (mkFile chunk (mkStats (readings (clock w) (calls (clock w)))))) w
  end.

Definition rmSync (w : World) : World := set_file None w.

(** The loop of [onInterval]:
    [while ((match = /.../g.exec(chunk)) !== null) { ... }].  The regular
    expression literal is evaluated anew at every test, so every [exec]
    starts at [lastIndex = 0] of the current [chunk]. *)
Fixpoint scan (fuel : nat) (expiryTimestamp : Z) (chunk : str) : option str :=
  match fuel with
  | O => None
  | S fuel' =>
      match exec chunk 0 with
      | None => Some chunk
      | Some m =>
          let timestamp := parseInt (group1 m) in
          if (timestamp >? expiryTimestamp)%Z
          then Some (substring chunk (index m))
          else scan fuel' expiryTimestamp
                 (substring chunk (index m + length (matched m)))
      end
  end.

(** What [fs.writeFileSync(filepath, chunk)] receives for a content read. *)
Definition retained (expiryTimestamp : Z) (content : str) : option str :=
  scan (S (length content)) expiryTimestamp content.

(** [onInterval].  [flushed] tells whether the stream has handed the marker
    to the file by the time [fs.readFileSync] reads it: the write is
    asynchronous, the read is not. *)
Definition onInterval (ttl : option Z) (separator : str) (flushed : bool)
    (w : World) : World :=
  if negb (existsSync w) then w
  else
    let (currentTime, c1) := Date_now (clock w) in
    let w := appendLog separator (marker_line currentTime) (set_clock c1 w) in
    let w := if flushed then flush w else w in
    let (now, c2) := Date_now (clock w) in
    let w := set_clock c2 w in
    let expiryTimestamp := expiry now ttl in
    match file w with
    | None => w
    | Some f =>
        match retained expiryTimestamp (content f) with
        | Some chunk => writeFileSync chunk w
        | None => w
        end
    end.

(** [setInterval(onInterval, 60 * 1000)]; what it returns is dropped. *)
Definition setInterval (w : World) : World :=
  mkWorld (clock w) (file w) (pending w) (stream_open w)
    (next_interval w :: intervals w) (Pos.succ (next_interval w)).

(** [dispose]: [logWriteStream.close(...)], which first hands over what the
    stream holds. *)
Definition dispose (w : World) : World := set_stream_open false (flush w).

(** The check of the file's age, [if (options.expireDuration && fs.existsSync(filepath)) { ... }]. *)
Definition expire_check (expireDuration : option Z) (w : World) : World :=
  if truthy expireDuration && existsSync w then
    match file w with
    | None => w
    | Some f =>
        let (now, c) := Date_now (clock w) in
        let w := set_clock c w in
        if exceeds (now - birthtime (stats f)) expireDuration then rmSync w else w
    end
  else w.

(** [createFileLogger].  Its own call of [onInterval] runs in the turn that
    made the stream: the stream has written nothing when the file is read. *)
Definition createFileLogger (expireDuration ttl : option Z) (separator : str)
    (w : World) : World :=
  let w := createWriteStream w in
  let w := expire_check expireDuration w in
  if truthy ttl then onInterval ttl separator false (setInterval w) else w.

(** The timer [id] comes due: its callback runs when the timer is armed. *)
Definition tick (ttl : option Z) (separator : str) (flushed : bool)
    (id : positive) (w : World) : World :=
  if existsb (Pos.eqb id) (intervals w) then onInterval ttl separator flushed w else w.

End NodeSink.

(** ** The Deno implementation *)

Module DenoSink.

(** [Deno.FileInfo]: both times may be [null]. *)
Record FileInfo : Type := mkFileInfo { birthtime : option Z; mtime : option Z }.

Record File : Type := mkFile { content : str; info : FileInfo }.

Record World : Type := mkWorld {
  clock : Clock;
  (** what is at [filepath]; [None] when nothing is *)
  file : option File;
  (** [writer] is open *)
  writer_open : bool;
  (** the handle [file] of [Deno.openSync] is open *)
  handle_open : bool;
  (** the repeating timers that are armed *)
  intervals : list positive;
  next_interval : positive
}.

(** What the returned logger keeps: [intervalId]. *)
Record Sink : Type := mkSink { intervalId : option positive }.

Definition set_clock (c : Clock) (w : World) : World :=
  mkWorld c (file w) (writer_open w) (handle_open w) (intervals w) (next_interval w).

Definition set_file (f : option File) (w : World) : World :=
  mkWorld (clock w) f (writer_open w) (handle_open w) (intervals w) (next_interval w).

Definition existsSync (w : World) : bool :=
  match file w with Some _ => true | None => false end.

(** [ensureFileSync(filepath)]: an absent file is created empty; [created]
    is what the file system records for a file it has just created. *)
Definition ensureFileSync (created : FileInfo) (w : World) : World :=
  match file w with
  | Some _ => w
  | None => set_file (Some (mkFile [] created)) w
  end.

(** [Deno.openSync(filepath, ...)] and [file.writable.getWriter()]. *)
Definition openSync (w : World) : World :=
  mkWorld (clock w) (file w) true true (intervals w) (next_interval w).

(** [appendLog]: [await writer.write(encoder.encode(log + separator))].
    [None] is a rejected promise, which a closed writer gives; text written
    through the handle of a removed file reaches nothing at [filepath]. *)
Definition appendLog (separator log : str) (w : World) : option World :=
  if writer_open w then
    match file w with
    | Some f => Some (set_file (Some (mkFile (content f ++ log ++ separator) (info f))) w)
    | None => Some w
    end
  else None.

(** [Deno.writeTextFile(filepath, chunk)]; the times of a file it has to
    create are left unknown, nothing reads them after the constructor. *)
Definition writeTextFile (chunk : str) (w : World) : World :=
  match file w with
  | Some f => set_file (Some (mkFile chunk (info f))) w
  | None => set_file (Some (mkFile chunk (mkFileInfo None None))) w
  end.

Definition removeSync (w : World) : World := set_file None w.

(** The loop of [onInterval]: one [regex] object, whose [lastIndex]
    advances over [content]; [chunk] starts as [content] and changes only
    at the [break]. *)
Fixpoint scan (fuel : nat) (expiryTimestamp : Z) (content : str)
    (lastIndex : nat) : option str :=
  match fuel with
  | O => None
  | S fuel' =>
      match exec content lastIndex with
      | None => Some content
      | Some m =>
          let timestamp := parseInt (group1 m) in
          if (timestamp >? expiryTimestamp)%Z
          then Some (substring content (index m))
          else scan fuel' expiryTimestamp content
                 (index m + length (matched m))
      end
  end.

(** What [Deno.writeTextFile(filepath, chunk)] receives for a content read. *)
Definition retained (expiryTimestamp : Z) (content : str) : option str :=
  scan (S (length content)) expiryTimestamp content 0.

(** [onInterval]; a rejection ends the cycle where it happens and is given
    to [console.error]. *)
Definition onInterval (ttl : option Z) (separator : str) (w : World) : World :=
  if negb (existsSync w) then w
  else
    let (currentTime, c1) := Date_now (clock w) in
    let w := set_clock c1 w in
    match appendLog separator (marker_line currentTime) w with
    | None => w
    | Some w =>
        let (now, c2) := Date_now (clock w) in
        let w := set_clock c2 w in
        let expiryTimestamp := expiry now ttl in
        match file w with
        | None => w
        | Some f =>
            match retained expiryTimestamp (content f) with
            | Some chunk => writeTextFile chunk w
            | None => w
            end
        end
    end.

(** [setInterval(() => { onInterval().catch(console.error) }, 60 * 1000)]. *)
Definition setInterval (w : World) : positive * World :=
  (next_interval w,
   mkWorld (clock w) (file w) (writer_open w) (handle_open w)
     (next_interval w :: intervals w) (Pos.succ (next_interval w))).

Definition clearInterval (id : positive) (w : World) : World :=
  mkWorld (clock w) (file w) (writer_open w) (handle_open w)
    (filter (fun i => negb (Pos.eqb id i)) (intervals w)) (next_interval w).

(** [dispose]: [if (intervalId) clearInterval(intervalId); await writer.close(); file.close()]. *)
Definition dispose (s : Sink) (w : World) : World :=
  let w := match intervalId s with Some id => clearInterval id w | None => w end in
  mkWorld (clock w) (file w) false false (intervals w) (next_interval w).

(** The check of the file's age,
    [if (options.expireDuration && existsSync(filepath)) { ... }], with
    [birthtime = stat.birthtime?.getTime() ?? stat.mtime?.getTime() ?? Date.now()]. *)
Definition expire_check (expireDuration : option Z) (w : World) : World :=
  if truthy expireDuration && existsSync w then
    match file w with
    | None => w
    | Some f =>
        let (birth, c1) :=
          match birthtime (info f) with
          | Some b => (b, clock w)
          | None =>
              match mtime (info f) with
              | Some m => (m, clock w)
              | None => Date_now (clock w)
              end
          end in
        let (now, c2) := Date_now c1 in
        let w := set_clock c2 w in
        if exceeds (now - birth) expireDuration then removeSync w else w
    end
  else w.

Definition createFileLogger (created : FileInfo) (expireDuration ttl : option Z)
    (separator : str) (w : World) : Sink * World :=
  let w := ensureFileSync created w in
  let w := openSync w in
  let w := expire_check expireDuration w in
  if truthy ttl then
    let (id, w) := setInterval w in
    (mkSink (Some id), onInterval ttl separator w)
  else (mkSink None, w).

(** The timer [id] comes due: its callback runs when the timer is armed. *)
Definition tick (ttl : option Z) (separator : str) (id : positive) (w : World) : World :=
  if existsb (Pos.eqb id) (intervals w) then onInterval ttl separator w else w.

End DenoSink.

(** ** The formatter *)

Module Stringify.

(** A JavaScript value as [util.format] receives it. *)
Inductive value : Type :=
| VString (s : str)
| VNumber (n : Z)
| VOther (tag : nat).

Inductive TsMode : Type := epoch | iso.

Record Options : Type := mkOptions {
  addPrefix : option str;
  addTs : option TsMode
}.

(** A string used as a condition: absent, [null] and the empty string are
    false. *)
Definition truthy_str (s : option str) : bool :=
  match s with
  | Some (_ :: _) => true
  | _ => false
  end.

Definition or_empty (s : option str) : str :=
  match s with Some t => t | None => [] end.

(** [s.split("\n")]. *)
Fixpoint split_lines (s : str) : list str :=
  match s with
  | [] => [[]]
  | c :: s' =>
      if Ascii.eqb c "010"%char then [] :: split_lines s'
      else match split_lines s' with
           | l :: ls => (c :: l) :: ls
           | [] => [[c]]
           end
  end.

(** [logs.join("\n")]. *)
Fixpoint join_lines (logs : list str) : str :=
  match logs with
  | [] => []
  | [l] => l
  | l :: ls => l ++ "010"%char :: join_lines ls
  end.

Section Formatter.

(** [util.format] and [Date.prototype.toISOString] belong to the platform. *)
Variable util_format : list value -> str.
Variable toISOString : Z -> str.

Definition with_prefix (p : value) (x : str) : str := util_format [p; VString x].

(** The function [createStringifyLogger(forEachLine, options)] returns. *)
Definition createStringifyLogger (forEachLine : bool) (options : Options)
    (prefix : option str) (args : list value) (c : Clock) : str * Clock :=
  let logs := [util_format args] in
  let logs := if forEachLine then split_lines (hd [] logs) else logs in
  let logs :=
    if truthy_str (addPrefix options)
    then map (fun x => util_format [VString (or_empty (addPrefix options)); VString x]) logs
    else logs in
  let logs :=
    if truthy_str prefix
    then map (fun x => util_format [VString (or_empty prefix); VString x]) logs
    else logs in
  match addTs options with
  | Some epoch =>
      let (now, c) := Date_now c in
      let epoch := (now / 1000)%Z in
      (join_lines (map (fun x => util_format [VNumber epoch; VString x]) logs), c)
  | Some iso =>
      let (now, c) := Date_now c in
      let iso := toISOString now in
      (join_lines (map (fun x => util_format [VString iso; VString x]) logs), c)
  | None => (join_lines logs, c)
  end.

End Formatter.

End Stringify.

(** ** What a cycle keeps, in terms of the Age Marker occurrences *)

(** The Node loop: from the first occurrence newer than the cut-off; without
    one, from the end of the last occurrence. *)
Definition node_cut (expiryTimestamp : Z) (content : str) : str :=
  match find (fresh expiryTimestamp) (markers content) with
  | Some m => substring content (index m)
  | None => substring content (last_end (markers content) 0)
  end.

(** The Deno loop: from the first occurrence newer than the cut-off; without
    one, everything. *)
Definition deno_cut (expiryTimestamp : Z) (content : str) : str :=
  match find (fresh expiryTimestamp) (markers content) with
  | Some m => substring content (index m)
  | None => content
  end.

(** The two readings of the clock a cycle makes: [currentTime], written in
    the marker, and the one the cut-off is computed from. *)
Definition first_reading (c : Clock) : Z := readings c (calls c).
Definition second_reading (c : Clock) : Z := readings c (S (calls c)).

(** The clock after [n] more calls. *)
Definition advance (n : nat) (c : Clock) : Clock := mkClock (readings c) (n + calls c).

(** The occurrence that the marker line appended after [before] code units
    makes: it starts after the leading space of the line. *)
Definition own_marker (before : nat) (currentTime : Z) : RegExpMatch :=
  mkMatch (S before) (marker_text currentTime) (Number_toString currentTime).

(** ** Sample inputs *)

Definition newline : str := ["010"%char].

Definition stale_with_tail : str := lit "---------- TIMESTAMP: 5 ---------- tail".

Definition two_markers : str :=
  lit "a ---------- TIMESTAMP: 5 ---------- b---------- TIMESTAMP: 77 ---------- c".

(** Text that, followed by the first characters of a marker line, makes an
    occurrence of the pattern. *)
Definition swallowing_text : str := lit "---------- TIMESTAMP: 5".

(** A clock whose readings are one second apart. *)
Definition slow_clock : Clock := mkClock (fun k => 1700000000000 + 1000 * Z.of_nat k)%Z 0.

(** A clock that stands still. *)
Definition still_clock (now : Z) : Clock := mkClock (fun _ => now) 0.

Definition node_world (c : Clock) (text : str) : NodeSink.World :=
  NodeSink.mkWorld c (Some (NodeSink.mkFile text (NodeSink.mkStats 0))) [] true [] 1.

Definition deno_world (c : Clock) (text : str) : DenoSink.World :=
  DenoSink.mkWorld c (Some (DenoSink.mkFile text (DenoSink.mkFileInfo (Some 0%Z) (Some 0%Z))))
    true true [] 1.

(** A clock that shows [base] for the first [n] calls and is a minute
    later from then on. *)
Definition minute_later_after (n : nat) (base : Z) : Clock :=
  mkClock (fun k => if (k <? n)%nat then base else (base + 60000)%Z) 0.

(** A world of the Deno implementation with nothing at [filepath]. *)
Definition deno_empty_world (c : Clock) : DenoSink.World :=
  DenoSink.mkWorld c None false false [] 1.

(** A world of the Node implementation with nothing at [filepath]. *)
Definition node_empty_world (c : Clock) : NodeSink.World :=
  NodeSink.mkWorld c None [] false [] 1.

(** What a file system records for a file created at time [t]. *)
Definition created_at (t : Z) : DenoSink.FileInfo := DenoSink.mkFileInfo (Some t) (Some t).

(** [util.format] on strings and integers when the first argument holds no
    [%] directive: the texts, with a space between them. *)
Definition plain_text (v : Stringify.value) : str :=
  match v with
  | Stringify.VString s => s
  | Stringify.VNumber n => Number_toString n
  | Stringify.VOther _ => lit "[object Object]"
  end.

Fixpoint plain_format (args : list Stringify.value) : str :=
  match args with
  | [] => []
  | [v] => plain_text v
  | v :: rest => plain_text v ++ " "%char :: plain_format rest
  end.

(** A stand-in for [toISOString] in examples: the milliseconds, then [Z]. *)
Definition plain_iso (t : Z) : str := Number_toString t ++ lit "Z".

(** ** Using the logger *)

(** The text a sequence of calls of the logger writes: each log followed by
    the separator. *)
Definition written (separator : str) (logs : list str) : str :=
  concat (map (fun log => log ++ separator) logs).

(** The calls [fileLogger(log)] of the Node logger, one after the other. *)
Definition node_log_all (separator : str) (logs : list str)
    (w : NodeSink.World) : NodeSink.World :=
  fold_left (fun w log => NodeSink.appendLog separator log w) logs w.

(** The calls [await fileLogger(log)] of the Deno logger, one after the
    other; the first rejection ends the sequence. *)
Definition deno_log_all (separator : str) (logs : list str)
    (w : DenoSink.World) : option DenoSink.World :=
  fold_left (fun ow log =>
               match ow with
               | Some w => DenoSink.appendLog separator log w
               | None => None
               end) logs (Some w).

(** What happens to a Deno logger after its construction: a call of the
    logger, or its timer coming due. *)
Inductive deno_event : Type :=
| Log (log : str)
| Due (id : positive).

Definition deno_step (ttl : option Z) (separator : str) (w : DenoSink.World)
    (ev : deno_event) : DenoSink.World :=
  match ev with
  | Log log =>
      match DenoSink.appendLog separator log w with
      | Some w' => w'
      | None => w
      end
  | Due id => DenoSink.tick ttl separator id w
  end.

Definition deno_run (ttl : option Z) (separator : str) (evs : list deno_event)
    (w : DenoSink.World) : DenoSink.World :=
  fold_left (deno_step ttl separator) evs w.

(** The clock is good for the cycles of a logger with this [ttl] that start
    at the calls [from], [from + 2], [from + 4], ...: the time a cycle
    writes in its marker is not negative, and its second reading is less
    than [ttl * 1000] after it. *)
Definition cycles_timely (ttl : Z) (c : Clock) (from : nat) : Prop :=
  forall j,
    (0 <= readings c (from + 2 * j))%Z /\
    (readings c (S (from + 2 * j)) < readings c (from + 2 * j) + ttl * 1000)%Z.

(** The text ends in a character that is not a digit, or is empty. *)
Definition ends_clean (s : str) : bool := negb (is_digit (last s " "%char)).

(** ** The content a cycle reads *)

(** What [fs.readFileSync(filepath).toString()] returns in the cycle run in
    the world [w] on the file [f]: the file as it was, followed, when the
    stream has handed its text over before the read, by what the stream
    held and by the marker line of this cycle, which an open stream has
    just taken. *)
Definition node_read (separator : str) (flushed : bool) (w : NodeSink.World)
    (f : NodeSink.File) : str :=
  let queued :=
    if NodeSink.stream_open w
    then NodeSink.pending w ++ marker_line (first_reading (NodeSink.clock w)) ++ separator
    else NodeSink.pending w in
  if flushed then NodeSink.content f ++ queued else NodeSink.content f.

(** What [Deno.readTextFile(filepath)] returns in the cycle run in the
    world [w] on the file [f], once the awaited write of the marker line has
    been done. *)
Definition deno_read (separator : str) (w : DenoSink.World) (f : DenoSink.File) : str :=
  DenoSink.content f ++ marker_line (first_reading (DenoSink.clock w)) ++ separator.

(** ** Bytes and text *)

(** The file holds bytes.  [fs.readFileSync(filepath).toString()] and
    [Deno.readTextFile(filepath)] decode them as UTF-8 into a string, a
    sequence of UTF-16 code units; [fs.writeFileSync(filepath, chunk)] and
    [Deno.writeTextFile(filepath, chunk)] encode the string they are given
    as UTF-8.  A byte and a code unit are numbers here. *)
Definition bytes : Type := list N.
Definition ustr : Type := list N.

(** [t] is what remains of [s] after a prefix was dropped. *)
Definition suffix_list {A : Type} (t s : list A) : Prop := exists dropped, s = dropped ++ t.

(** U+FFFD, which the decoder puts where the bytes are not UTF-8. *)
Definition replacement : N := 65533.

(** The code units of a code point: itself below 2^16, else a surrogate
    pair. *)
Definition units_of_code_point (cp : N) : ustr :=
  if (cp <? 65536)%N then [cp]
  else [(55296 + (cp - 65536) / 1024)%N; (56320 + (cp - 65536) mod 1024)%N].

(** The UTF-8 decoder of the platform.  [remaining] counts the continuation
    bytes still due for the code point [cp] under construction, the next of
    which has to lie between [lo] and [hi].  A byte that cannot start or
    continue a sequence gives U+FFFD; a byte that breaks a sequence is then
    read again as the start of one. *)
Fixpoint utf8_decode_from (bs : bytes) (remaining : nat) (cp lo hi : N) : ustr :=
  match bs with
  | [] => match remaining with O => [] | S _ => [replacement] end
  | b :: rest =>
      let start :=
        if (b <? 128)%N then b :: utf8_decode_from rest 0 0%N 128%N 191%N
        else if ((194 <=? b) && (b <=? 223))%N
        then utf8_decode_from rest 1 (b - 192)%N 128%N 191%N
        else if ((224 <=? b) && (b <=? 239))%N
        then utf8_decode_from rest 2 (b - 224)%N
               (if (b =? 224)%N then 160%N else 128%N)
               (if (b =? 237)%N then 159%N else 191%N)
        else if ((240 <=? b) && (b <=? 244))%N
        then utf8_decode_from rest 3 (b - 240)%N
               (if (b =? 240)%N then 144%N else 128%N)
               (if (b =? 244)%N then 143%N else 191%N)
        else replacement :: utf8_decode_from rest 0 0%N 128%N 191%N in
      match remaining with
      | O => start
      | S r =>
          if ((lo <=? b) && (b <=? hi))%N
          then
            let cp' := (cp * 64 + (b - 128))%N in
            match r with
            | O => units_of_code_point cp' ++ utf8_decode_from rest 0 0%N 128%N 191%N
            | S _ => utf8_decode_from rest r cp' 128%N 191%N
            end
          else replacement :: start
      end
  end.

Definition utf8_decode (bs : bytes) : ustr := utf8_decode_from bs 0 0%N 128%N 191%N.

Definition utf8_replacement : bytes := [239; 191; 189]%N.

(** The UTF-8 encoder of the platform; a surrogate without its partner is
    written as U+FFFD. *)
Fixpoint utf8_encode (s : ustr) : bytes :=
  match s with
  | [] => []
  | u :: rest =>
      if (u <? 128)%N then u :: utf8_encode rest
      else if (u <? 2048)%N
      then (192 + u / 64)%N :: (128 + u mod 64)%N :: utf8_encode rest
      else if ((55296 <=? u) && (u <? 56320))%N
      then
        match rest with
        | l :: rest' =>
            if ((56320 <=? l) && (l <? 57344))%N
            then
              let cp := (65536 + (u - 55296) * 1024 + (l - 56320))%N in
              (240 + cp / 262144)%N :: (128 + (cp / 4096) mod 64)%N
                :: (128 + (cp / 64) mod 64)%N :: (128 + cp mod 64)%N
                :: utf8_encode rest'
            else utf8_replacement ++ utf8_encode rest
        | [] => utf8_replacement
        end
      else if ((56320 <=? u) && (u <? 57344))%N
      then utf8_replacement ++ utf8_encode rest
      else (224 + u / 4096)%N :: (128 + (u / 64) mod 64)%N :: (128 + u mod 64)%N
             :: utf8_encode rest
  end.

(** A byte order mark at the head of the file, which some releases of the
    Deno runtime drop before they decode. *)
Definition drop_bom (bs : bytes) : bytes :=
  match bs with
  | b1 :: b2 :: b3 :: rest =>
      if ((b1 =? 239) && (b2 =? 187) && (b3 =? 191))%N then rest else bs
  | _ => bs
  end.

(** The regular expression and the two loops on strings of code units.  The
    pattern is ASCII: a code unit matches a character of the pattern when it
    is the code of that character, and [\d] matches the codes of the ten
    digits. *)
Module Units.

(** A string of characters below 256, as code units. *)
Definition widen (s : str) : ustr := map N_of_ascii s.

Definition is_digit (u : N) : bool := ((48 <=? u) && (u <=? 57))%N.

Definition digit_value (u : N) : N := (u - 48)%N.

Fixpoint parseInt_acc (s : ustr) (acc : N) : N :=
  match s with
  | [] => acc
  | u :: s' => if is_digit u then parseInt_acc s' (10 * acc + digit_value u)%N else acc
  end.

Definition parseInt (s : ustr) : Z := Z.of_N (parseInt_acc s 0).

Record RegExpMatch : Type := mkMatch {
  index : nat;
  matched : ustr;
  group1 : ustr
}.

Fixpoint strip_prefix (p : str) (s : ustr) : option ustr :=
  match p, s with
  | [], _ => Some s
  | a :: p', u :: s' => if (N_of_ascii a =? u)%N then strip_prefix p' s' else None
  | _ :: _, [] => None
  end.

Fixpoint span_digits (s : ustr) : ustr * ustr :=
  match s with
  | u :: s' =>
      if is_digit u then (u :: fst (span_digits s'), snd (span_digits s'))
      else ([], s)
  | [] => ([], [])
  end.

Definition match_here (s : ustr) : option ustr :=
  match strip_prefix marker_open s with
  | None => None
  | Some s1 =>
      match span_digits s1 with
      | ([], _) => None
      | (ds, s2) =>
          match strip_prefix marker_close s2 with
          | None => None
          | Some _ => Some ds
          end
      end
  end.

Fixpoint search (s : ustr) (i : nat) : option RegExpMatch :=
  match match_here s with
  | Some ds => Some (mkMatch i (widen marker_open ++ ds ++ widen marker_close) ds)
  | None =>
      match s with
      | [] => None
      | _ :: s' => search s' (S i)
      end
  end.

Definition exec (input : ustr) (lastIndex : nat) : option RegExpMatch :=
  search (skipn lastIndex input) lastIndex.

(** The loop of the Node [onInterval]. *)
Fixpoint node_scan (fuel : nat) (expiryTimestamp : Z) (chunk : ustr) : option ustr :=
  match fuel with
  | O => None
  | S fuel' =>
      match exec chunk 0 with
      | None => Some chunk
      | Some m =>
          let timestamp := parseInt (group1 m) in
          if (timestamp >? expiryTimestamp)%Z
          then Some (skipn (index m) chunk)
          else node_scan fuel' expiryTimestamp
                 (skipn (index m + length (matched m)) chunk)
      end
  end.

Definition node_retained (expiryTimestamp : Z) (content : ustr) : option ustr :=
  node_scan (S (length content)) expiryTimestamp content.

(** The loop of the Deno [onInterval]. *)
Fixpoint deno_scan (fuel : nat) (expiryTimestamp : Z) (content : ustr)
    (lastIndex : nat) : option ustr :=
  match fuel with
  | O => None
  | S fuel' =>
      match exec content lastIndex with
      | None => Some content
      | Some m =>
          let timestamp := parseInt (group1 m) in
          if (timestamp >? expiryTimestamp)%Z
          then Some (skipn (index m) content)
          else deno_scan fuel' expiryTimestamp content
                 (index m + length (matched m))
      end
  end.

Definition deno_retained (expiryTimestamp : Z) (content : ustr) : option ustr :=
  deno_scan (S (length content)) expiryTimestamp content 0.

End Units.

(** The bytes [fs.writeFileSync(filepath, chunk)] puts in the file when
    [fs.readFileSync(filepath)] found the bytes [bs]. *)
Definition node_rewrite (expiryTimestamp : Z) (bs : bytes) : option bytes :=
  option_map utf8_encode (Units.node_retained expiryTimestamp (utf8_decode bs)).

(** The bytes [Deno.writeTextFile(filepath, chunk)] puts in the file when
    [Deno.readTextFile(filepath)] found the bytes [bs]. *)
Definition deno_rewrite (bom_dropped : bool) (expiryTimestamp : Z) (bs : bytes)
    : option bytes :=
  option_map utf8_encode
    (Units.deno_retained expiryTimestamp
       (utf8_decode (if bom_dropped then drop_bom bs else bs))).

(** A match in a string of characters below 256, in the string as code
    units. *)
Definition widen_match (m : RegExpMatch) : Units.RegExpMatch :=
  Units.mkMatch (index m) (Units.widen (matched m)) (Units.widen (group1 m)).

(** The characters of the text are ASCII, and its bytes in the file. *)
Definition all_ascii (s : str) : bool := forallb (fun c => (N_of_ascii c <? 128)%N) s.

Definition ascii_bytes (s : str) : bytes := map N_of_ascii s.

(** A file that holds the letter [a], then a byte that is not UTF-8. *)
Definition invalid_byte_file : bytes := [97; 255]%N.

(** A file that holds a marker of timestamp 77, then a byte that is not
    UTF-8. *)
Definition marker_then_invalid_byte : bytes :=
  ascii_bytes (lit "x---------- TIMESTAMP: 77 ----------") ++ [255%N].

(** A separator that is itself dressed as a marker, of a time far ahead. *)
Definition marker_separator : str :=
  newline ++ lit "---------- TIMESTAMP: 9999999999999 ----------" ++ newline.

(** * Properties *)

(** ** The pattern *)

Lemma strip_prefix_Some (p s r : str) :
  strip_prefix p s = Some r <-> s = p ++ r.
Proof.
  revert s; induction p as [|a p IH]; intros s; simpl.
  - split; intros H; [injection H as ->; reflexivity | subst; reflexivity].
  - destruct s as [|b s].
    + split; intros H; discriminate H.
    + destruct (Ascii.eqb_spec a b) as [->|Hne].
      * rewrite IH. split; intros H; [subst; reflexivity | injection H as ->; reflexivity].
      * split; intros H; [discriminate H | injection H as E _; congruence].
Qed.

Lemma strip_prefix_app (p r : str) : strip_prefix p (p ++ r) = Some r.
Proof. apply strip_prefix_Some; reflexivity. Qed.

Lemma span_digits_split (s : str) :
  s = fst (span_digits s) ++ snd (span_digits s).
Proof.
  induction s as [|c s IH]; simpl; [reflexivity|].
  destruct (is_digit c); simpl; [f_equal; exact IH | reflexivity].
Qed.

Lemma span_digits_digits (s : str) :
  forallb is_digit (fst (span_digits s)) = true.
Proof.
  induction s as [|c s IH]; simpl; [reflexivity|].
  destruct (is_digit c) eqn:E; simpl; [rewrite E; exact IH | reflexivity].
Qed.

(** A run of digits followed by something that does not start with a digit
    is what [span_digits] splits off. *)
Lemma span_digits_app (ds r : str) :
  forallb is_digit ds = true ->
  match r with [] => True | c :: _ => is_digit c = false end ->
  span_digits (ds ++ r) = (ds, r).
Proof.
  intros Hd Hr. induction ds as [|d ds IH]; simpl in *.
  - destruct r as [|c r]; [reflexivity|]. simpl. rewrite Hr. reflexivity.
  - apply andb_true_iff in Hd as [Hd1 Hd2]. rewrite Hd1, (IH Hd2). reflexivity.
Qed.

(** The pattern matches at the head of [s] exactly when [s] starts with the
    opening text, a non-empty run of digits and the closing text: whatever
    way a backtracking matcher splits the digits, it finds this match. *)
Lemma match_here_Some (s ds : str) :
  match_here s = Some ds <->
  ds <> [] /\ forallb is_digit ds = true /\
  exists rest, s = marker_open ++ ds ++ marker_close ++ rest.
Proof.
  unfold match_here. split.
  - destruct (strip_prefix marker_open s) as [s1|] eqn:E1; [|discriminate].
    apply strip_prefix_Some in E1.
    pose proof (span_digits_split s1) as Hs.
    pose proof (span_digits_digits s1) as Hd.
    destruct (span_digits s1) as [ds' s2]; simpl in Hs, Hd.
    destruct ds' as [|d ds']; [discriminate|].
    destruct (strip_prefix marker_close s2) as [rest|] eqn:E2; [|discriminate].
    apply strip_prefix_Some in E2. intros H; injection H as <-.
    split; [discriminate|]. split; [exact Hd|].
    exists rest. rewrite E1, Hs, E2. reflexivity.
  - intros (Hne & Hd & rest & ->).
    rewrite strip_prefix_app.
    rewrite (span_digits_app ds (marker_close ++ rest) Hd) by reflexivity.
    destruct ds as [|d ds]; [congruence|].
    rewrite strip_prefix_app. reflexivity.
Qed.

Lemma match_here_nil : match_here [] = None.
Proof. reflexivity. Qed.

Arguments match_here : simpl never.

Lemma marker_open_length : length marker_open = 22.
Proof. reflexivity. Qed.

Lemma marker_close_length : length marker_close = 11.
Proof. reflexivity. Qed.

Lemma matched_length (ds : str) :
  length (marker_open ++ ds ++ marker_close) = 33 + length ds.
Proof. rewrite !length_app, marker_open_length, marker_close_length. lia. Qed.

(** A match lies inside the string it was found in. *)
Lemma match_here_length (s ds : str) :
  match_here s = Some ds ->
  length (marker_open ++ ds ++ marker_close) <= length s.
Proof.
  intros H. apply match_here_Some in H as (_ & _ & rest & ->).
  rewrite !length_app. lia.
Qed.

Lemma search_shift (s : str) (i : nat) :
  search s i = option_map (shift i) (search s 0).
Proof.
  revert i; induction s as [|c s IH]; intros i; simpl.
  - reflexivity.
  - destruct (match_here (c :: s)) as [ds|].
    + simpl. unfold shift; simpl. rewrite Nat.add_0_r. reflexivity.
    + rewrite (IH (S i)), (IH 1).
      destruct (search s 0) as [m|]; simpl; [|reflexivity].
      unfold shift; simpl. do 2 f_equal. lia.
Qed.

(** What [search] returns: the leftmost position at or after [i] where the
    pattern matches. *)
Lemma search_Some (s : str) (i : nat) (m : RegExpMatch) :
  search s i = Some m ->
  exists k,
    index m = i + k /\
    match_here (skipn k s) = Some (group1 m) /\
    matched m = marker_open ++ group1 m ++ marker_close /\
    k + length (matched m) <= length s /\
    forall j, j < k -> match_here (skipn j s) = None.
Proof.
  revert i; induction s as [|c s IH]; intros i; simpl.
  - discriminate.
  - destruct (match_here (c :: s)) as [ds|] eqn:E.
    + intros H; injection H as <-. exists 0.
      split; [simpl; lia|]. split; [exact E|]. split; [reflexivity|].
      split; [apply match_here_length in E; exact E|].
      intros j Hj; lia.
    + intros H. apply IH in H as (k & Hi & Hm & Ht & Hl & Hnone).
      exists (S k).
      split; [lia|]. split; [exact Hm|]. split; [exact Ht|].
      split; [simpl; lia|].
      intros [|j] Hj; simpl; [exact E | apply Hnone; lia].
Qed.

Lemma search_None (s : str) (i : nat) :
  search s i = None -> forall j, match_here (skipn j s) = None.
Proof.
  revert i; induction s as [|c s IH]; intros i; simpl.
  - intros _ j. destruct j; reflexivity.
  - destruct (match_here (c :: s)) as [ds|] eqn:E; [discriminate|].
    intros H [|j]; simpl; [exact E | exact (IH _ H j)].
Qed.

Lemma exec_bounds (input : str) (lastIndex : nat) (m : RegExpMatch) :
  lastIndex <= length input ->
  exec input lastIndex = Some m ->
  lastIndex <= index m /\ 34 <= length (matched m) /\ match_end m <= length input.
Proof.
  intros Hle H. unfold exec in H.
  apply search_Some in H as (k & Hi & Hm & Ht & Hl & _).
  rewrite length_skipn in Hl. unfold match_end.
  apply match_here_Some in Hm as (Hne & _ & _).
  rewrite Ht, matched_length in *.
  destruct (group1 m); [congruence|]. simpl. simpl in Hl. lia.
Qed.

(** ** Age Marker occurrences and [exec] *)

Lemma markers_aux_skip (s : str) (pos k : nat) :
  markers_aux s pos k = markers_aux (skipn k s) (pos + k) 0.
Proof.
  revert pos k; induction s as [|c s IH]; intros pos k.
  - destruct k; reflexivity.
  - destruct k as [|k].
    + rewrite Nat.add_0_r. reflexivity.
    + simpl. rewrite IH. f_equal. lia.
Qed.

Lemma markers_aux_search (s : str) (pos : nat) :
  markers_aux s pos 0 =
  match search s pos with
  | None => []
  | Some m => m :: markers_aux (skipn (match_end m - pos) s) (match_end m) 0
  end.
Proof.
  revert pos; induction s as [|c s IH]; intros pos.
  - reflexivity.
  - cbn [markers_aux search]. destruct (match_here (c :: s)) as [ds|] eqn:E.
    + unfold match_end; cbn [index matched].
      rewrite markers_aux_skip, matched_length. f_equal.
      replace (pos + (33 + length ds) - pos) with (S (32 + length ds)) by lia.
      simpl. f_equal. lia.
    + rewrite IH. destruct (search s (S pos)) as [m|] eqn:Es; [|reflexivity].
      apply search_Some in Es as (k & Hi & _). f_equal.
      unfold match_end.
      replace (index m + length (matched m) - pos)
        with (S (index m + length (matched m) - S pos)) by lia.
      reflexivity.
Qed.

(** The occurrences from a position are the successive results of [exec]. *)
Lemma markers_from_exec (content : str) (from : nat) :
  markers_from content from =
  match exec content from with
  | None => []
  | Some m => m :: markers_from content (match_end m)
  end.
Proof.
  unfold markers_from, exec. rewrite markers_aux_search.
  destruct (search (skipn from content) from) as [m|] eqn:E; [|reflexivity].
  apply search_Some in E as (k & Hi & _). f_equal.
  rewrite skipn_skipn. f_equal. f_equal. unfold match_end. lia.
Qed.

Lemma markers_from_0 (content : str) : markers content = markers_from content 0.
Proof. reflexivity. Qed.

(** ** What the two loops compute *)

Lemma deno_scan_markers (expiryTimestamp : Z) (content : str) :
  forall fuel lastIndex,
    lastIndex <= length content ->
    length content - lastIndex < fuel ->
    DenoSink.scan fuel expiryTimestamp content lastIndex =
    Some match find (fresh expiryTimestamp) (markers_from content lastIndex) with
         | Some m => substring content (index m)
         | None => content
         end.
Proof.
  induction fuel as [|fuel IH]; intros lastIndex Hle Hfuel; [lia|].
  simpl. rewrite markers_from_exec.
  destruct (exec content lastIndex) as [m|] eqn:E; [|reflexivity].
  apply exec_bounds in E as (Hi & Hlen & Hend); [|exact Hle].
  simpl. unfold fresh at 1, timestamp_of.
  destruct (parseInt (group1 m) >? expiryTimestamp)%Z; [reflexivity|].
  unfold match_end in *. apply IH; lia.
Qed.

Lemma node_scan_markers (expiryTimestamp : Z) (content : str) :
  forall fuel from,
    from <= length content ->
    length content - from < fuel ->
    NodeSink.scan fuel expiryTimestamp (skipn from content) =
    Some match find (fresh expiryTimestamp) (markers_from content from) with
         | Some m => substring content (index m)
         | None => substring content (last_end (markers_from content from) from)
         end.
Proof.
  induction fuel as [|fuel IH]; intros from Hle Hfuel; [lia|].
  cbn [NodeSink.scan]. rewrite markers_from_exec.
  replace (exec (skipn from content) 0)
    with (search (skipn from content) 0) by reflexivity.
  assert (Hx : exec content from =
               option_map (shift from) (search (skipn from content) 0))
    by (unfold exec; apply search_shift).
  rewrite Hx.
  destruct (search (skipn from content) 0) as [m0|] eqn:E;
    cbn [option_map]; [|reflexivity].
  cbn [option_map] in Hx.
  destruct (exec_bounds _ _ _ Hle Hx) as (Hi & Hlen & Hend).
  unfold match_end, shift in Hi, Hlen, Hend; cbn [index matched] in Hi, Hlen, Hend.
  cbn [find]. unfold fresh at 1, timestamp_of. cbn [shift group1].
  unfold substring. rewrite !skipn_skipn.
  destruct (parseInt (group1 m0) >? expiryTimestamp)%Z.
  - cbn [shift index]. do 2 f_equal. lia.
  - unfold last_end; cbn [fold_left]. fold (last_end (markers_from content (match_end (shift from m0))) (match_end (shift from m0))).
    unfold match_end at 1 2 3; cbn [shift index matched].
    replace (index m0 + length (matched m0) + from)
      with (from + index m0 + length (matched m0)) by lia.
    rewrite IH by lia. reflexivity.
Qed.

Lemma node_retained_markers (expiryTimestamp : Z) (content : str) :
  NodeSink.retained expiryTimestamp content =
  Some match find (fresh expiryTimestamp) (markers content) with
       | Some m => substring content (index m)
       | None => substring content (last_end (markers content) 0)
       end.
Proof.
  unfold NodeSink.retained. rewrite markers_from_0.
  rewrite <- (node_scan_markers expiryTimestamp content (S (length content)) 0) by lia.
  reflexivity.
Qed.

Lemma deno_retained_markers (expiryTimestamp : Z) (content : str) :
  DenoSink.retained expiryTimestamp content =
  Some match find (fresh expiryTimestamp) (markers content) with
       | Some m => substring content (index m)
       | None => content
       end.
Proof.
  unfold DenoSink.retained. rewrite markers_from_0.
  apply deno_scan_markers; lia.
Qed.

Lemma substring_suffix (s : str) (start : nat) : suffix_of (substring s start) s.
Proof. exists (firstn start s). symmetry. apply firstn_skipn. Qed.

Lemma suffix_of_refl (s : str) : suffix_of s s.
Proof. exists []. reflexivity. Qed.

(** The first element of a list that passes a test, when the ones before it
    fail. *)
Lemma find_first {A : Type} (f : A -> bool) (old rest : list A) (x : A) :
  Forall (fun y => f y = false) old -> f x = true ->
  find f (old ++ x :: rest) = Some x.
Proof.
  intros Hold Hx. induction Hold as [|y old Hy _ IH]; simpl.
  - rewrite Hx. reflexivity.
  - rewrite Hy. exact IH.
Qed.

Lemma find_none_iff {A : Type} (f : A -> bool) (l : list A) :
  find f l = None <-> Forall (fun y => f y = false) l.
Proof.
  induction l as [|y l IH]; simpl.
  - split; [constructor | reflexivity].
  - destruct (f y) eqn:E.
    + split; [discriminate | intros H; inversion H; congruence].
    + rewrite IH. split; [intros H; constructor; assumption | intros H; inversion H; assumption].
Qed.

Lemma fresh_true (e : Z) (m : RegExpMatch) :
  fresh e m = true <-> (timestamp_of m > e)%Z.
Proof. unfold fresh. rewrite Z.gtb_ltb, Z.ltb_lt. lia. Qed.

Lemma fresh_false (e : Z) (m : RegExpMatch) :
  fresh e m = false <-> (timestamp_of m <= e)%Z.
Proof. unfold fresh. rewrite Z.gtb_ltb, Z.ltb_ge. lia. Qed.

Lemma expiry_Some (now ttl : Z) : expiry now (Some ttl) = (now - ttl * 1000)%Z.
Proof. reflexivity. Qed.

Lemma no_fresh_iff (e : Z) (ms : list RegExpMatch) :
  Forall (fun m => (timestamp_of m <= e)%Z) ms <-> find (fresh e) ms = None.
Proof.
  rewrite find_none_iff. split; intros H; (eapply Forall_impl; [|exact H]);
    intros m Hm; apply fresh_false; exact Hm.
Qed.

(** ** The wire format of the marker *)

Lemma parseInt_acc_digit (k : N) (s : str) (acc : N) :
  (k < 10)%N ->
  parseInt_acc (digit_char k :: s) acc = parseInt_acc s (10 * acc + k)%N.
Proof.
  intros Hk.
  assert (Hc : is_digit (digit_char k) = true /\ digit_value (digit_char k) = k).
  { assert (Hcases : (k = 0 \/ k = 1 \/ k = 2 \/ k = 3 \/ k = 4 \/
                      k = 5 \/ k = 6 \/ k = 7 \/ k = 8 \/ k = 9)%N) by lia.
    repeat (destruct Hcases as [->|Hcases]; [split; reflexivity|]).
    subst k; split; reflexivity. }
  destruct Hc as [Hd Hv]. simpl. rewrite Hd, Hv. reflexivity.
Qed.

Lemma is_digit_digit_char (k : N) : (k < 10)%N -> is_digit (digit_char k) = true.
Proof.
  intros Hk.
  assert (Hcases : (k = 0 \/ k = 1 \/ k = 2 \/ k = 3 \/ k = 4 \/
                    k = 5 \/ k = 6 \/ k = 7 \/ k = 8 \/ k = 9)%N) by lia.
  repeat (destruct Hcases as [->|Hcases]; [reflexivity|]).
  subst k; reflexivity.
Qed.

Lemma uint_chars_digits (d : Decimal.uint) : forallb is_digit (uint_chars d) = true.
Proof.
  induction d; cbn [uint_chars forallb]; [reflexivity|..];
    (rewrite is_digit_digit_char by lia); exact IHd.
Qed.

Lemma uint_chars_nil (d : Decimal.uint) : uint_chars d = [] -> d = Decimal.Nil.
Proof. destruct d; cbn [uint_chars]; intros H; [reflexivity | discriminate H ..]. Qed.

Lemma parseInt_acc_uint_pos (d : Decimal.uint) (acc : positive) :
  parseInt_acc (uint_chars d) (Npos acc) = Npos (Pos.of_uint_acc d acc).
Proof.
  revert acc; induction d; intros acc; cbn [uint_chars Pos.of_uint_acc];
    [reflexivity|..];
    (rewrite parseInt_acc_digit by lia); rewrite <- IHd; f_equal; lia.
Qed.

Lemma parseInt_acc_uint (d : Decimal.uint) :
  parseInt_acc (uint_chars d) 0 = Pos.of_uint d.
Proof.
  induction d; cbn [uint_chars Pos.of_uint]; [reflexivity|..];
    (rewrite parseInt_acc_digit by lia);
    [exact IHd | rewrite <- parseInt_acc_uint_pos; reflexivity ..].
Qed.

Lemma parseInt_N_toString (n : N) : parseInt (N_toString n) = Z.of_N n.
Proof.
  unfold parseInt, N_toString. rewrite parseInt_acc_uint.
  f_equal. apply DecimalN.Unsigned.of_to.
Qed.

Lemma N_toString_digits (n : N) : forallb is_digit (N_toString n) = true.
Proof. apply uint_chars_digits. Qed.

Lemma N_toString_nonempty (n : N) : N_toString n <> [].
Proof.
  unfold N_toString. intros H. apply uint_chars_nil in H.
  destruct n as [|p]; [discriminate H|].
  exact (DecimalPos.Unsigned.to_uint_nonnil p H).
Qed.

Lemma Number_toString_of_N (n : N) : Number_toString (Z.of_N n) = N_toString n.
Proof. destruct n; reflexivity. Qed.

Lemma marker_line_text (t : Z) :
  marker_line t = " "%char :: marker_text t ++ [" "%char].
Proof.
  unfold marker_line, marker_text.
  change (lit " ---------- TIMESTAMP: ") with (" "%char :: marker_open).
  change (lit " ---------- ") with (marker_close ++ [" "%char]).
  rewrite <- !app_assoc. reflexivity.
Qed.

Lemma match_here_marker_text (n : N) (rest : str) :
  match_here (marker_text (Z.of_N n) ++ rest) = Some (N_toString n).
Proof.
  apply match_here_Some. split; [apply N_toString_nonempty|].
  split; [apply N_toString_digits|].
  exists rest. unfold marker_text. rewrite Number_toString_of_N, <- !app_assoc.
  reflexivity.
Qed.

Lemma match_here_not_dash (c : ascii) (s : str) :
  c <> "-"%char -> match_here (c :: s) = None.
Proof.
  intros Hc. unfold match_here.
  change marker_open with ("-"%char :: lit "--------- TIMESTAMP: ").
  cbn [strip_prefix]. destruct (Ascii.eqb_spec "-"%char c) as [E|_]; [congruence|reflexivity].
Qed.

Lemma search_here (s ds : str) (i : nat) :
  match_here s = Some ds ->
  search s i = Some (mkMatch i (marker_open ++ ds ++ marker_close) ds).
Proof. intros H. destruct s; cbn [search]; rewrite H; reflexivity. Qed.

Lemma search_skip (c : ascii) (s : str) (i : nat) :
  match_here (c :: s) = None -> search (c :: s) i = search s (S i).
Proof. intros H. cbn [search]. rewrite H. reflexivity. Qed.

(** C6. For every non-negative integer [n], the marker line written for [n],
    [" ---------- TIMESTAMP: n ---------- "], is matched by the pattern
    (at position 1, after the leading space), and [parseInt] of its capture
    group is [n] again. *)
Theorem marker_roundtrip (n : N) :
  exists m,
    exec (marker_line (Z.of_N n)) 0 = Some m /\
    index m = 1 /\
    matched m = marker_text (Z.of_N n) /\
    parseInt (group1 m) = Z.of_N n.
Proof.
  exists (mkMatch 1 (marker_text (Z.of_N n)) (N_toString n)).
  split; [|split; [reflexivity|split; [reflexivity|apply parseInt_N_toString]]].
  unfold exec. rewrite marker_line_text. cbn [skipn].
  rewrite search_skip by (apply match_here_not_dash; discriminate).
  rewrite (search_here _ _ _ (match_here_marker_text n _)).
  unfold marker_text. rewrite Number_toString_of_N. reflexivity.
Qed.
(** ** A whole cycle *)

Lemma node_retained_cut (e : Z) (content : str) :
  NodeSink.retained e content = Some (node_cut e content).
Proof. apply node_retained_markers. Qed.

Lemma deno_retained_cut (e : Z) (content : str) :
  DenoSink.retained e content = Some (deno_cut e content).
Proof. apply deno_retained_markers. Qed.

(** The Node cycle on a file that is there, with an open stream whose text
    reaches the file before the read. *)
Lemma node_onInterval_flushed (ttl : option Z) (separator : str)
    (w : NodeSink.World) (f : NodeSink.File) :
  NodeSink.file w = Some f ->
  NodeSink.stream_open w = true ->
  NodeSink.onInterval ttl separator true w =
  NodeSink.mkWorld (advance 2 (NodeSink.clock w))
    (Some (NodeSink.mkFile
             (node_cut (expiry (second_reading (NodeSink.clock w)) ttl)
                (NodeSink.content f ++ NodeSink.pending w
                   ++ marker_line (first_reading (NodeSink.clock w)) ++ separator))
             (NodeSink.stats f)))
    [] true (NodeSink.intervals w) (NodeSink.next_interval w).
Proof.
  destruct w as [c fl p so iv ni]. cbn [NodeSink.file NodeSink.stream_open
    NodeSink.clock NodeSink.pending NodeSink.intervals NodeSink.next_interval].
  intros -> ->.
  unfold NodeSink.onInterval, NodeSink.existsSync, NodeSink.appendLog,
    NodeSink.flush, NodeSink.writeFileSync, NodeSink.set_clock, NodeSink.set_file,
    NodeSink.set_pending, Date_now.
  cbn [NodeSink.file NodeSink.stream_open NodeSink.clock NodeSink.pending
       NodeSink.intervals NodeSink.next_interval NodeSink.content NodeSink.stats
       negb readings calls].
  rewrite node_retained_cut.
  cbn [NodeSink.file NodeSink.stream_open NodeSink.clock NodeSink.pending
       NodeSink.intervals NodeSink.next_interval NodeSink.content NodeSink.stats].
  unfold advance, first_reading, second_reading. cbn [readings calls Nat.add].
  rewrite <- ?app_assoc. reflexivity.
Qed.

(** The Deno cycle on a file that is there, with an open writer. *)
Lemma deno_onInterval_open (ttl : option Z) (separator : str)
    (w : DenoSink.World) (f : DenoSink.File) :
  DenoSink.file w = Some f ->
  DenoSink.writer_open w = true ->
  DenoSink.onInterval ttl separator w =
  DenoSink.mkWorld (advance 2 (DenoSink.clock w))
    (Some (DenoSink.mkFile
             (deno_cut (expiry (second_reading (DenoSink.clock w)) ttl)
                (DenoSink.content f
                   ++ marker_line (first_reading (DenoSink.clock w)) ++ separator))
             (DenoSink.info f)))
    true (DenoSink.handle_open w) (DenoSink.intervals w) (DenoSink.next_interval w).
Proof.
  destruct w as [c fl wo ho iv ni]. cbn [DenoSink.file DenoSink.writer_open
    DenoSink.clock DenoSink.handle_open DenoSink.intervals DenoSink.next_interval].
  intros -> ->.
  unfold DenoSink.onInterval, DenoSink.existsSync, DenoSink.appendLog,
    DenoSink.writeTextFile, DenoSink.set_clock, DenoSink.set_file, Date_now.
  cbn [DenoSink.file DenoSink.writer_open DenoSink.clock DenoSink.handle_open
       DenoSink.intervals DenoSink.next_interval DenoSink.content DenoSink.info
       negb readings calls].
  rewrite deno_retained_cut.
  cbn [DenoSink.file DenoSink.writer_open DenoSink.clock DenoSink.handle_open
       DenoSink.intervals DenoSink.next_interval DenoSink.content DenoSink.info].
  reflexivity.
Qed.

(** ** The occurrences of a retained suffix *)

Lemma match_eta (m : RegExpMatch) : mkMatch (index m) (matched m) (group1 m) = m.
Proof. destruct m; reflexivity. Qed.

Lemma markers_aux_shift (s : str) (d pos k : nat) :
  markers_aux s (d + pos) k = map (shift d) (markers_aux s pos k).
Proof.
  revert pos k; induction s as [|c s IH]; intros pos k; [reflexivity|].
  cbn [markers_aux]. destruct k as [|k].
  - destruct (match_here (c :: s)) as [ds|].
    + cbn [map]. unfold shift at 1; cbn [index matched group1].
      rewrite <- IH. f_equal. f_equal. lia.
    + rewrite <- IH. f_equal. lia.
  - rewrite <- IH. f_equal. lia.
Qed.

(** The occurrences from position [i] are those of the suffix that starts at
    [i], moved by [i]. *)
Lemma markers_from_shift (content : str) (i : nat) :
  markers_from content i = map (shift i) (markers (skipn i content)).
Proof.
  unfold markers_from, markers. rewrite <- markers_aux_shift, Nat.add_0_r. reflexivity.
Qed.

(** An occurrence is found again by a scan that starts at its position. *)
Lemma markers_from_at (content : str) (ms1 ms2 : list RegExpMatch) (m : RegExpMatch) :
  forall from,
    markers_from content from = ms1 ++ m :: ms2 ->
    from <= index m /\ markers_from content (index m) = m :: ms2.
Proof.
  induction ms1 as [|m0 ms1 IH]; intros from H;
    rewrite markers_from_exec in H;
    destruct (exec content from) as [m'|] eqn:E; try discriminate H;
    injection H as -> H.
  - unfold exec in E. apply search_Some in E as (k & Hi & Hm & Ht & _).
    split; [lia|]. rewrite markers_from_exec. unfold exec.
    rewrite skipn_skipn in Hm. rewrite Hi, (Nat.add_comm from k).
    rewrite (search_here _ _ _ Hm), <- Ht, (Nat.add_comm k from), <- Hi, match_eta.
    rewrite H. reflexivity.
  - unfold exec in E. apply search_Some in E as (k & Hi & _).
    apply IH in H as [Hle H]. split; [|exact H]. unfold match_end in Hle. lia.
Qed.

(** Every occurrence is a place where the pattern matches. *)
Lemma markers_sound (content : str) (m : RegExpMatch) :
  In m (markers content) ->
  match_here (skipn (index m) content) = Some (group1 m) /\
  matched m = marker_open ++ group1 m ++ marker_close.
Proof.
  intros Hin. apply in_split in Hin as (ms1 & ms2 & Hs).
  rewrite markers_from_0 in Hs. apply markers_from_at in Hs as [_ Hs].
  rewrite markers_from_exec in Hs.
  destruct (exec content (index m)) as [m'|] eqn:E; [|discriminate Hs].
  injection Hs as -> _. unfold exec in E.
  apply search_Some in E as (k & Hi & Hm & Ht & _).
  assert (k = 0) by lia. subst k. split; [exact Hm | exact Ht].
Qed.

Lemma find_split {A : Type} (f : A -> bool) (l : list A) (x : A) :
  find f l = Some x ->
  exists old rest, l = old ++ x :: rest /\ Forall (fun y => f y = false) old /\ f x = true.
Proof.
  induction l as [|y l IH]; cbn [find]; [discriminate|].
  destruct (f y) eqn:E.
  - intros H; injection H as ->. exists [], l. repeat split; [constructor | exact E].
  - intros H. destruct (IH H) as (old & rest & -> & Hold & Hx).
    exists (y :: old), rest. repeat split; [constructor; assumption | exact Hx].
Qed.

(** When the scan finds an occurrence newer than the cut-off, what is kept
    starts at it, and the occurrences of what is kept are that one and the
    later ones. *)
Lemma cut_at_fresh (e : Z) (content : str) (m : RegExpMatch) :
  find (fresh e) (markers content) = Some m ->
  exists old rest,
    markers content = old ++ m :: rest /\
    Forall (fun o => (timestamp_of o <= e)%Z) old /\
    (timestamp_of m > e)%Z /\
    map (shift (index m)) (markers (substring content (index m))) = m :: rest.
Proof.
  intros H. apply find_split in H as (old & rest & Hs & Hold & Hm).
  exists old, rest. split; [exact Hs|]. split.
  - eapply Forall_impl; [|exact Hold]. intros o; apply fresh_false.
  - split; [apply fresh_true; exact Hm|].
    rewrite markers_from_0 in Hs. apply markers_from_at in Hs as [_ Hs].
    rewrite markers_from_shift in Hs. exact Hs.
Qed.

(** What the Node loop keeps when no occurrence is newer than the cut-off
    holds no occurrence. *)
Lemma markers_after_last (content : str) :
  forall ms from,
    markers_from content from = ms ->
    markers_from content (last_end ms from) = [].
Proof.
  induction ms as [|m ms IH]; intros from H.
  - exact H.
  - rewrite markers_from_exec in H.
    destruct (exec content from) as [m'|]; [|discriminate H].
    injection H as -> H. unfold last_end; cbn [fold_left].
    apply (IH _ H).
Qed.

Lemma node_cut_stale (e : Z) (content : str) :
  find (fresh e) (markers content) = None ->
  markers (node_cut e content) = [].
Proof.
  intros H. unfold node_cut. rewrite H.
  pose proof (markers_after_last content (markers content) 0 eq_refl) as Hn.
  rewrite markers_from_shift in Hn. unfold substring.
  destruct (markers (skipn _ content)); [reflexivity | discriminate Hn].
Qed.

Lemma in_shift (d : nat) (m : RegExpMatch) (ms : list RegExpMatch) :
  In m (map (shift d) ms) ->
  d <= index m /\ In (mkMatch (index m - d) (matched m) (group1 m)) ms.
Proof.
  intros H. apply in_map_iff in H as (m' & <- & Hin).
  unfold shift; cbn [index matched group1]. split; [lia|].
  replace (d + index m' - d) with (index m') by lia. rewrite match_eta. exact Hin.
Qed.

(** An occurrence newer than the cut-off is kept, by either loop: what is
    kept starts at or before it. *)
Lemma fresh_marker_kept (e : Z) (content : str) (m : RegExpMatch) :
  In m (markers content) ->
  (timestamp_of m > e)%Z ->
  exists cut,
    cut <= index m /\
    node_cut e content = substring content cut /\
    deno_cut e content = substring content cut /\
    In (mkMatch (index m - cut) (matched m) (group1 m))
       (markers (substring content cut)).
Proof.
  intros Hin Hts. unfold node_cut, deno_cut.
  destruct (find (fresh e) (markers content)) as [m1|] eqn:Hf.
  - apply cut_at_fresh in Hf as (old & rest & Hs & Hold & _ & Hk).
    exists (index m1). rewrite Hs in Hin. apply in_app_or in Hin as [Hin|Hin].
    + rewrite Forall_forall in Hold. specialize (Hold _ Hin). lia.
    + rewrite <- Hk in Hin. apply in_shift in Hin as [Hle Hin].
      repeat split; try reflexivity; assumption.
  - apply no_fresh_iff in Hf. rewrite Forall_forall in Hf.
    specialize (Hf _ Hin). lia.
Qed.
(** ** The order of the occurrences *)

(** Occurrences come in the order of their positions, one after the end of
    the other. *)
Lemma markers_in_order (content : str) (a b : list RegExpMatch) (x y : RegExpMatch) :
  markers content = a ++ x :: b -> In y b -> match_end x <= index y.
Proof.
  intros Hs Hy. rewrite markers_from_0 in Hs.
  apply markers_from_at in Hs as [_ Hs].
  rewrite markers_from_exec in Hs.
  destruct (exec content (index x)) as [x'|]; [|discriminate Hs].
  injection Hs as -> Hb.
  apply in_split in Hy as (b1 & b2 & ->).
  apply markers_from_at in Hb as [Hle _]. exact Hle.
Qed.

Lemma last_end_snoc (ms : list RegExpMatch) (x : RegExpMatch) (from : nat) :
  last_end (ms ++ [x]) from = match_end x.
Proof. unfold last_end. rewrite fold_left_app. reflexivity. Qed.

(** No occurrence starts after the end of the last one. *)
Lemma index_le_last_end (content : str) (m : RegExpMatch) :
  In m (markers content) -> index m <= last_end (markers content) 0.
Proof.
  intros Hin.
  destruct (markers content) as [|m0 ms] eqn:Hms; [destruct Hin|].
  assert (Hne : m0 :: ms <> []) by discriminate.
  destruct (exists_last Hne) as (a & x & Ha). rewrite Ha in *.
  rewrite last_end_snoc. apply in_app_or in Hin as [Hin|[<-|[]]].
  - apply in_split in Hin as (a1 & a2 & ->). rewrite <- app_assoc in Hms.
    cbn [app] in Hms.
    pose proof (markers_in_order content a1 (a2 ++ [x]) m x Hms
                  ltac:(apply in_or_app; right; left; reflexivity)) as Hle.
    unfold match_end in *. lia.
  - unfold match_end. lia.
Qed.

Lemma first_fresh_order (e1 e2 : Z) (content : str) (m1 m2 : RegExpMatch) :
  (e1 <= e2)%Z ->
  find (fresh e1) (markers content) = Some m1 ->
  find (fresh e2) (markers content) = Some m2 ->
  index m1 <= index m2.
Proof.
  intros He H1 H2.
  apply find_some in H2 as [Hin2 Hf2]. apply fresh_true in Hf2.
  apply find_split in H1 as (old & rest & Hs & Hold & _).
  rewrite Hs in Hin2. apply in_app_or in Hin2 as [Hin|[<-|Hin]].
  - rewrite Forall_forall in Hold. specialize (Hold _ Hin).
    apply fresh_false in Hold. lia.
  - lia.
  - pose proof (markers_in_order _ _ _ _ _ Hs Hin) as Hle.
    unfold match_end in Hle. lia.
Qed.

Lemma matched_nonempty (content : str) (m : RegExpMatch) :
  In m (markers content) -> 1 <= length (matched m).
Proof.
  intros H. apply markers_sound in H as [_ ->].
  rewrite length_app. cbn. lia.
Qed.

(** The first occurrence newer than the cut-off comes before every other
    one that is newer. *)
Lemma first_fresh_before (e : Z) (content : str) (m1 m : RegExpMatch) :
  find (fresh e) (markers content) = Some m1 ->
  In m (markers content) -> (timestamp_of m > e)%Z ->
  index m1 <= index m.
Proof.
  intros H1 Hin Hts.
  apply find_split in H1 as (old & rest & Hs & Hold & _).
  rewrite Hs in Hin. apply in_app_or in Hin as [Hin|[<-|Hin]].
  - rewrite Forall_forall in Hold. specialize (Hold _ Hin).
    apply fresh_false in Hold. lia.
  - lia.
  - pose proof (markers_in_order _ _ _ _ _ Hs Hin) as Hle.
    unfold match_end in Hle. lia.
Qed.

(** An occurrence at or after the cut is an occurrence of what is kept. *)
Lemma occurrence_kept (e : Z) (content : str) (m1 x : RegExpMatch) :
  find (fresh e) (markers content) = Some m1 ->
  In x (markers content) ->
  index m1 <= index x ->
  In (mkMatch (index x - index m1) (matched x) (group1 x))
     (markers (substring content (index m1))).
Proof.
  intros Hf Hin Hle.
  pose proof (matched_nonempty _ _ Hin) as Hlen.
  apply cut_at_fresh in Hf as (old & rest & Hs & _ & _ & Hk).
  rewrite Hs in Hin. apply in_app_or in Hin as [Hin|Hin].
  - apply in_split in Hin as (a1 & a2 & ->).
    rewrite <- app_assoc in Hs. cbn [app] in Hs.
    pose proof (markers_in_order content a1 (a2 ++ m1 :: rest) x m1 Hs
                  ltac:(apply in_or_app; right; left; reflexivity)) as Hord.
    unfold match_end in Hord. lia.
  - rewrite <- Hk in Hin. apply in_shift in Hin as [_ Hin]. exact Hin.
Qed.

(** ** The file a cycle leaves *)

Lemma node_onInterval_cut (ttl : option Z) (separator : str) (flushed : bool)
    (w : NodeSink.World) (f : NodeSink.File) :
  NodeSink.file w = Some f ->
  NodeSink.file (NodeSink.onInterval ttl separator flushed w)
  = Some (NodeSink.mkFile
            (node_cut (expiry (second_reading (NodeSink.clock w)) ttl)
               (node_read separator flushed w f))
            (NodeSink.stats f)).
Proof.
  destruct w as [c fl p so iv ni]. cbn [NodeSink.file]. intros ->.
  unfold node_read, NodeSink.onInterval, NodeSink.existsSync, NodeSink.appendLog,
    NodeSink.flush, NodeSink.writeFileSync, NodeSink.set_clock, NodeSink.set_file,
    NodeSink.set_pending, Date_now, first_reading, second_reading.
  cbn [NodeSink.file NodeSink.clock NodeSink.stream_open NodeSink.pending negb].
  destruct so, flushed;
    cbn [NodeSink.file NodeSink.clock NodeSink.stream_open NodeSink.pending
         NodeSink.content NodeSink.stats readings calls];
    rewrite node_retained_cut; cbn [NodeSink.file NodeSink.stats]; reflexivity.
Qed.

Lemma deno_onInterval_cut (ttl : option Z) (separator : str)
    (w : DenoSink.World) (f : DenoSink.File) :
  DenoSink.file w = Some f ->
  DenoSink.writer_open w = true ->
  DenoSink.file (DenoSink.onInterval ttl separator w)
  = Some (DenoSink.mkFile
            (deno_cut (expiry (second_reading (DenoSink.clock w)) ttl)
               (deno_read separator w f))
            (DenoSink.info f)).
Proof.
  intros Hf Ho. rewrite (deno_onInterval_open _ _ _ _ Hf Ho). reflexivity.
Qed.

(** ** The cut point *)

(** C1. For every world (every file content, every clock) in which the
    maintenance cycle runs with [ttl] set: when, among the Age Marker
    occurrences of the content the cycle reads, the first in file order
    whose parsed timestamp is strictly greater than [now - ttl*1000] is [m]
    (the occurrences before it have timestamps less than or equal to that
    cut-off; [now] is the reading of the clock the cut-off is computed
    from), [onInterval] leaves in the file exactly the content read from the
    start position of [m] to its end.  This is so in the Node
    implementation, whether or not the stream has handed its text over
    before the read, and in the Deno implementation. *)
Theorem cut_at_first_fresh_marker (ttl : Z) (separator : str)
    (old rest : list RegExpMatch) (m : RegExpMatch) :
  (forall (w : NodeSink.World) (f : NodeSink.File) (flushed : bool),
     let now := second_reading (NodeSink.clock w) in
     let read := node_read separator flushed w f in
     NodeSink.file w = Some f ->
     markers read = old ++ m :: rest ->
     Forall (fun o => (timestamp_of o <= now - ttl * 1000)%Z) old ->
     (timestamp_of m > now - ttl * 1000)%Z ->
     NodeSink.file (NodeSink.onInterval (Some ttl) separator flushed w)
     = Some (NodeSink.mkFile (substring read (index m)) (NodeSink.stats f))) /\
  (forall (w : DenoSink.World) (f : DenoSink.File),
     let now := second_reading (DenoSink.clock w) in
     let read := deno_read separator w f in
     DenoSink.file w = Some f ->
     DenoSink.writer_open w = true ->
     markers read = old ++ m :: rest ->
     Forall (fun o => (timestamp_of o <= now - ttl * 1000)%Z) old ->
     (timestamp_of m > now - ttl * 1000)%Z ->
     DenoSink.file (DenoSink.onInterval (Some ttl) separator w)
     = Some (DenoSink.mkFile (substring read (index m)) (DenoSink.info f))).
Proof.
  assert (Hfind : forall now read,
            markers read = old ++ m :: rest ->
            Forall (fun o => (timestamp_of o <= now - ttl * 1000)%Z) old ->
            (timestamp_of m > now - ttl * 1000)%Z ->
            find (fresh (expiry now (Some ttl))) (markers read) = Some m).
  { intros now read Hms Hold Hm. rewrite Hms, expiry_Some. apply find_first.
    - eapply Forall_impl; [|exact Hold]. intros o Ho. apply fresh_false; exact Ho.
    - apply fresh_true; exact Hm. }
  split.
  - intros w f flushed now read Hf Hms Hold Hm.
    rewrite (node_onInterval_cut _ _ _ _ _ Hf). unfold node_cut.
    fold now read. rewrite (Hfind now read Hms Hold Hm). reflexivity.
  - intros w f now read Hf Ho Hms Hold Hm.
    rewrite (deno_onInterval_cut _ _ _ _ Hf Ho). unfold deno_cut.
    fold now read. rewrite (Hfind now read Hms Hold Hm). reflexivity.
Qed.

Lemma cut_at_first_fresh_marker_witness :
  let wn := node_world (still_clock 1006) two_markers in
  let wd := deno_world (still_clock 1006) two_markers in
  let read := two_markers ++ marker_line 1006 ++ newline in
  NodeSink.file (NodeSink.onInterval (Some 1%Z) newline true wn)
  = Some (NodeSink.mkFile (substring read 38) (NodeSink.mkStats 0)) /\
  NodeSink.file (NodeSink.onInterval (Some 1%Z) newline false wn)
  = Some (NodeSink.mkFile (substring two_markers 38) (NodeSink.mkStats 0)) /\
  DenoSink.file (DenoSink.onInterval (Some 1%Z) newline wd)
  = Some (DenoSink.mkFile (substring read 38) (DenoSink.mkFileInfo (Some 0%Z) (Some 0%Z))).
Proof.
  intros wn wd read.
  pose (m5 := mkMatch 2 (lit "---------- TIMESTAMP: 5 ----------") (lit "5")).
  pose (m77 := mkMatch 38 (lit "---------- TIMESTAMP: 77 ----------") (lit "77")).
  pose (own := mkMatch 76 (lit "---------- TIMESTAMP: 1006 ----------") (lit "1006")).
  assert (Hold : Forall (fun o => (timestamp_of o <= 1006 - 1 * 1000)%Z) [m5]).
  { constructor; [|constructor]. vm_compute. discriminate. }
  split; [|split].
  - apply (proj1 (cut_at_first_fresh_marker 1 newline [m5] [own] m77)
             wn (NodeSink.mkFile two_markers (NodeSink.mkStats 0)) true).
    + reflexivity.
    + vm_compute. reflexivity.
    + exact Hold.
    + vm_compute. reflexivity.
  - apply (proj1 (cut_at_first_fresh_marker 1 newline [m5] [] m77)
             wn (NodeSink.mkFile two_markers (NodeSink.mkStats 0)) false).
    + reflexivity.
    + vm_compute. reflexivity.
    + exact Hold.
    + vm_compute. reflexivity.
  - apply (proj2 (cut_at_first_fresh_marker 1 newline [m5] [own] m77)
             wd (DenoSink.mkFile two_markers (DenoSink.mkFileInfo (Some 0%Z) (Some 0%Z)))).
    + reflexivity.
    + reflexivity.
    + vm_compute. reflexivity.
    + exact Hold.
    + vm_compute. reflexivity.
Defined.

(** ** No marker newer than the cut-off *)

(** C2, as stated, fails: the content below holds one Age Marker, of
    timestamp 5, which is not newer than the cut-off [10000 - 1*1000]; the
    Node loop keeps [" tail"], the Deno loop keeps the whole content, and
    neither rewrites the file to the empty string.  So it is in whole
    cycles: a Node cycle that reads the file before the stream has written
    leaves [" tail"] in it; and when the clock moves one second between the
    two readings of a cycle with [ttl = 1], so that the marker of the cycle
    is not newer than the cut-off either, the Node cycle leaves the end of
    the marker line and the Deno cycle leaves everything it read. *)
Lemma expired_content_not_emptied :
  Forall (fun m => (timestamp_of m <= 10000 - 1 * 1000)%Z) (markers stale_with_tail) /\
  NodeSink.retained (expiry 10000 (Some 1%Z)) stale_with_tail = Some (lit " tail") /\
  DenoSink.retained (expiry 10000 (Some 1%Z)) stale_with_tail = Some stale_with_tail /\
  NodeSink.retained (expiry 10000 (Some 1%Z)) stale_with_tail <> Some [] /\
  DenoSink.retained (expiry 10000 (Some 1%Z)) stale_with_tail <> Some [] /\
  option_map NodeSink.content
    (NodeSink.file (NodeSink.onInterval (Some 1%Z) newline false
                      (node_world (still_clock 10000) stale_with_tail)))
  = Some (lit " tail") /\
  (let read := stale_with_tail ++ marker_line 1700000000000 ++ newline in
   Forall (fun m => (timestamp_of m <= second_reading slow_clock - 1 * 1000)%Z)
     (markers read) /\
   option_map NodeSink.content
     (NodeSink.file (NodeSink.onInterval (Some 1%Z) newline true
                       (node_world slow_clock stale_with_tail)))
   = Some (" "%char :: newline) /\
   option_map DenoSink.content
     (DenoSink.file (DenoSink.onInterval (Some 1%Z) newline
                       (deno_world slow_clock stale_with_tail)))
   = Some read).
Proof.
  split; [apply no_fresh_iff; vm_compute; reflexivity|].
  do 2 (split; [vm_compute; reflexivity|]).
  do 2 (split; [vm_compute; discriminate|]).
  split; [vm_compute; reflexivity|].
  split; [apply no_fresh_iff; vm_compute; reflexivity|].
  split; vm_compute; reflexivity.
Qed.

(** C2, amended. For every maintenance cycle with [ttl] set in which no Age
    Marker occurrence of the content read has a timestamp strictly greater
    than [now - ttl*1000]: the Node [onInterval] leaves in the file what
    follows the end of the last Age Marker occurrence of the content read
    (the whole content read when it has no occurrence), and the Deno
    [onInterval] leaves the whole content read. *)
Theorem nothing_fresh_retained (ttl : Z) (separator : str) :
  (forall (w : NodeSink.World) (f : NodeSink.File) (flushed : bool),
     let now := second_reading (NodeSink.clock w) in
     let read := node_read separator flushed w f in
     NodeSink.file w = Some f ->
     Forall (fun m => (timestamp_of m <= now - ttl * 1000)%Z) (markers read) ->
     NodeSink.file (NodeSink.onInterval (Some ttl) separator flushed w)
     = Some (NodeSink.mkFile (substring read (last_end (markers read) 0))
               (NodeSink.stats f)) /\
     (markers read = [] ->
      NodeSink.file (NodeSink.onInterval (Some ttl) separator flushed w)
      = Some (NodeSink.mkFile read (NodeSink.stats f)))) /\
  (forall (w : DenoSink.World) (f : DenoSink.File),
     let now := second_reading (DenoSink.clock w) in
     let read := deno_read separator w f in
     DenoSink.file w = Some f ->
     DenoSink.writer_open w = true ->
     Forall (fun m => (timestamp_of m <= now - ttl * 1000)%Z) (markers read) ->
     DenoSink.file (DenoSink.onInterval (Some ttl) separator w)
     = Some (DenoSink.mkFile read (DenoSink.info f))).
Proof.
  split.
  - intros w f flushed now read Hf H.
    apply no_fresh_iff in H. rewrite <- expiry_Some in H.
    rewrite (node_onInterval_cut _ _ _ _ _ Hf). unfold node_cut.
    fold now read. rewrite H. split; [reflexivity|].
    intros ->. reflexivity.
  - intros w f now read Hf Ho H.
    apply no_fresh_iff in H. rewrite <- expiry_Some in H.
    rewrite (deno_onInterval_cut _ _ _ _ Hf Ho). unfold deno_cut.
    fold now read. rewrite H. reflexivity.
Qed.

Lemma nothing_fresh_retained_witness :
  let wn := node_world (still_clock 10000) stale_with_tail in
  let wd := deno_world slow_clock stale_with_tail in
  let read := stale_with_tail ++ marker_line 1700000000000 ++ newline in
  NodeSink.file (NodeSink.onInterval (Some 1%Z) newline false wn)
  = Some (NodeSink.mkFile
            (substring stale_with_tail (last_end (markers stale_with_tail) 0))
            (NodeSink.mkStats 0)) /\
  DenoSink.file (DenoSink.onInterval (Some 1%Z) newline wd)
  = Some (DenoSink.mkFile read (DenoSink.mkFileInfo (Some 0%Z) (Some 0%Z))).
Proof.
  intros wn wd read. split.
  - apply (proj1 (nothing_fresh_retained 1 newline)
             wn (NodeSink.mkFile stale_with_tail (NodeSink.mkStats 0)) false).
    + reflexivity.
    + apply no_fresh_iff. vm_compute. reflexivity.
  - apply (proj2 (nothing_fresh_retained 1 newline)
             wd (DenoSink.mkFile stale_with_tail (DenoSink.mkFileInfo (Some 0%Z) (Some 0%Z)))).
    + reflexivity.
    + reflexivity.
    + apply no_fresh_iff. vm_compute. reflexivity.
Defined.

(** ** The rewrite only drops a prefix *)

Lemma units_match_here_nil : Units.match_here [] = None.
Proof. reflexivity. Qed.

Lemma units_search_bounds (s : ustr) :
  forall i m, Units.search s i = Some m ->
    i <= Units.index m /\ Units.index m < i + length s /\
    1 <= length (Units.matched m).
Proof.
  induction s as [|u s IH]; intros i m H.
  - cbn [Units.search] in H. rewrite units_match_here_nil in H. discriminate H.
  - cbn [Units.search] in H.
    destruct (Units.match_here (u :: s)) as [ds|].
    + injection H as <-. cbn [Units.index Units.matched length].
      split; [lia|]. split; [lia|]. rewrite length_app. cbn. lia.
    + apply IH in H. cbn [length]. lia.
Qed.

(** The loops return on every string of code units, with what remains of
    it after a prefix was dropped. *)
Lemma units_node_scan_suffix (e : Z) :
  forall fuel chunk, length chunk < fuel ->
    exists k, Units.node_scan fuel e chunk = Some (skipn k chunk).
Proof.
  induction fuel as [|fuel IH]; intros chunk Hfuel; [lia|].
  cbn [Units.node_scan]. unfold Units.exec. cbn [skipn].
  destruct (Units.search chunk 0) as [m|] eqn:E; [|exists 0; reflexivity].
  apply units_search_bounds in E as (_ & Hlt & Hlen). cbv zeta.
  destruct (Units.parseInt (Units.group1 m) >? e)%Z.
  - exists (Units.index m). reflexivity.
  - destruct (IH (skipn (Units.index m + length (Units.matched m)) chunk)) as [k Hk].
    { rewrite length_skipn. lia. }
    rewrite Hk, skipn_skipn. eexists. reflexivity.
Qed.

Lemma units_deno_scan_suffix (e : Z) (content : ustr) :
  forall fuel lastIndex, length content - lastIndex < fuel ->
    exists k, Units.deno_scan fuel e content lastIndex = Some (skipn k content).
Proof.
  induction fuel as [|fuel IH]; intros lastIndex Hfuel; [lia|].
  cbn [Units.deno_scan]. unfold Units.exec.
  destruct (Units.search (skipn lastIndex content) lastIndex) as [m|] eqn:E;
    [|exists 0; reflexivity].
  apply units_search_bounds in E as (Hge & Hlt & Hlen). rewrite length_skipn in Hlt.
  cbv zeta. destruct (Units.parseInt (Units.group1 m) >? e)%Z.
  - exists (Units.index m). reflexivity.
  - apply IH. lia.
Qed.

Lemma skipn_suffix_list {A : Type} (k : nat) (l : list A) : suffix_list (skipn k l) l.
Proof. exists (firstn k l). symmetry. apply firstn_skipn. Qed.

(** On a string of characters below 256 the loops on code units are the
    loops of the two sinks. *)
Lemma N_of_ascii_eqb (a b : ascii) : (N_of_ascii a =? N_of_ascii b)%N = Ascii.eqb a b.
Proof.
  destruct (Ascii.eqb_spec a b) as [->|Hne].
  - apply N.eqb_refl.
  - apply N.eqb_neq. intros H. apply Hne.
    rewrite <- (ascii_N_embedding a), <- (ascii_N_embedding b), H. reflexivity.
Qed.

Lemma units_strip_prefix_widen (p : str) :
  forall s, Units.strip_prefix p (Units.widen s) = option_map Units.widen (strip_prefix p s).
Proof.
  induction p as [|a p IH]; intros [|b s]; cbn [Units.strip_prefix strip_prefix
    Units.widen map option_map]; try reflexivity.
  rewrite N_of_ascii_eqb. destruct (Ascii.eqb a b); [apply IH | reflexivity].
Qed.

Lemma units_span_digits_widen (s : str) :
  Units.span_digits (Units.widen s)
  = (Units.widen (fst (span_digits s)), Units.widen (snd (span_digits s))).
Proof.
  induction s as [|c s IH]; [reflexivity|].
  cbn [Units.span_digits span_digits Units.widen map].
  change (Units.is_digit (N_of_ascii c)) with (is_digit c).
  destruct (is_digit c); [|reflexivity].
  change (map N_of_ascii s) with (Units.widen s). rewrite IH. reflexivity.
Qed.

Lemma units_match_here_widen (s : str) :
  Units.match_here (Units.widen s) = option_map Units.widen (match_here s).
Proof.
  unfold Units.match_here, match_here. rewrite units_strip_prefix_widen.
  destruct (strip_prefix marker_open s) as [s1|]; cbn [option_map]; [|reflexivity].
  rewrite units_span_digits_widen.
  destruct (span_digits s1) as [ds s2]. cbn [fst snd].
  destruct ds as [|d ds]; [reflexivity|]. cbn [Units.widen map].
  change (map N_of_ascii s2) with (Units.widen s2).
  rewrite units_strip_prefix_widen.
  destruct (strip_prefix marker_close s2); reflexivity.
Qed.

Lemma units_search_widen (s : str) :
  forall i, Units.search (Units.widen s) i = option_map widen_match (search s i).
Proof.
  induction s as [|c s IH]; intros i.
  - reflexivity.
  - change (Units.widen (c :: s)) with (N_of_ascii c :: Units.widen s).
    cbn [Units.search search].
    change (N_of_ascii c :: Units.widen s) with (Units.widen (c :: s)).
    rewrite units_match_here_widen.
    destruct (match_here (c :: s)) as [ds|]; cbn [option_map]; [|apply IH].
    unfold widen_match, Units.widen. cbn [index matched group1].
    rewrite !map_app. reflexivity.
Qed.

Lemma units_parseInt_widen (ds : str) : Units.parseInt (Units.widen ds) = parseInt ds.
Proof.
  unfold Units.parseInt, parseInt. f_equal. generalize 0%N.
  induction ds as [|c ds IH]; intros acc; [reflexivity|].
  cbn [Units.parseInt_acc parseInt_acc Units.widen map].
  change (Units.is_digit (N_of_ascii c)) with (is_digit c).
  change (Units.digit_value (N_of_ascii c)) with (digit_value c).
  destruct (is_digit c); [apply IH | reflexivity].
Qed.

Lemma units_exec_widen (input : str) (lastIndex : nat) :
  Units.exec (Units.widen input) lastIndex = option_map widen_match (exec input lastIndex).
Proof.
  unfold Units.exec, exec, Units.widen. rewrite skipn_map. apply units_search_widen.
Qed.

Lemma units_node_retained_widen (e : Z) (content : str) :
  Units.node_retained e (Units.widen content)
  = option_map Units.widen (NodeSink.retained e content).
Proof.
  unfold Units.node_retained, NodeSink.retained.
  replace (length (Units.widen content)) with (length content)
    by (unfold Units.widen; rewrite length_map; reflexivity).
  generalize (S (length content)). intros fuel. revert content.
  induction fuel as [|fuel IH]; intros chunk; [reflexivity|].
  cbn [Units.node_scan NodeSink.scan]. rewrite units_exec_widen.
  destruct (exec chunk 0) as [m|]; cbn [option_map]; [|reflexivity].
  cbv zeta. unfold widen_match; cbn [Units.index Units.matched Units.group1].
  rewrite units_parseInt_widen.
  replace (length (Units.widen (matched m))) with (length (matched m))
    by (unfold Units.widen; rewrite length_map; reflexivity).
  destruct (parseInt (group1 m) >? e)%Z.
  - unfold substring, Units.widen. rewrite skipn_map. reflexivity.
  - unfold substring. rewrite <- IH. unfold Units.widen. rewrite skipn_map. reflexivity.
Qed.

Lemma units_deno_retained_widen (e : Z) (content : str) :
  Units.deno_retained e (Units.widen content)
  = option_map Units.widen (DenoSink.retained e content).
Proof.
  unfold Units.deno_retained, DenoSink.retained.
  replace (length (Units.widen content)) with (length content)
    by (unfold Units.widen; rewrite length_map; reflexivity).
  generalize (S (length content)) 0. intros fuel.
  induction fuel as [|fuel IH]; intros lastIndex; [reflexivity|].
  cbn [Units.deno_scan DenoSink.scan]. rewrite units_exec_widen.
  destruct (exec content lastIndex) as [m|]; cbn [option_map]; [|reflexivity].
  cbv zeta. unfold widen_match; cbn [Units.index Units.matched Units.group1].
  rewrite units_parseInt_widen.
  replace (length (Units.widen (matched m))) with (length (matched m))
    by (unfold Units.widen; rewrite length_map; reflexivity).
  destruct (parseInt (group1 m) >? e)%Z.
  - unfold substring, Units.widen. rewrite skipn_map. reflexivity.
  - apply IH.
Qed.

(** ASCII text is its own bytes, both ways. *)
Lemma utf8_decode_ascii (s : str) :
  all_ascii s = true -> utf8_decode (ascii_bytes s) = Units.widen s.
Proof.
  unfold utf8_decode, ascii_bytes, Units.widen.
  induction s as [|c s IH]; intros H; [reflexivity|].
  cbn [all_ascii forallb] in H. apply andb_prop in H as [Hc Hs].
  cbn [map utf8_decode_from]. rewrite Hc. f_equal. apply IH. exact Hs.
Qed.

Lemma utf8_encode_ascii (s : str) :
  all_ascii s = true -> utf8_encode (Units.widen s) = ascii_bytes s.
Proof.
  unfold ascii_bytes, Units.widen.
  induction s as [|c s IH]; intros H; [reflexivity|].
  cbn [all_ascii forallb] in H. apply andb_prop in H as [Hc Hs].
  cbn [map utf8_encode]. rewrite Hc. f_equal. apply IH. exact Hs.
Qed.

Lemma all_ascii_skipn (k : nat) (s : str) :
  all_ascii s = true -> all_ascii (skipn k s) = true.
Proof.
  revert s; induction k as [|k IH]; intros [|c s] H; try exact H.
  cbn [all_ascii forallb] in H. apply andb_prop in H as [_ Hs].
  cbn [skipn]. apply IH. exact Hs.
Qed.

Lemma drop_bom_ascii (s : str) :
  all_ascii s = true -> drop_bom (ascii_bytes s) = ascii_bytes s.
Proof.
  destruct s as [|c1 [|c2 [|c3 s]]]; try reflexivity.
  intros H. cbn [all_ascii forallb] in H. apply andb_prop in H as [Hc _].
  unfold ascii_bytes. cbn [map drop_bom].
  apply N.ltb_lt in Hc.
  destruct (N.eqb_spec (N_of_ascii c1) 239) as [E|_]; [lia|]. reflexivity.
Qed.

(** C10, as stated, fails on bytes.  The file holds the letter [a] and the
    byte FF, which is not UTF-8: read as text, FF becomes U+FFFD, and the
    text written back puts the three bytes EF BF BD in its place, in both
    implementations; no byte is dropped, and the byte kept has changed.
    Likewise when a marker newer than the cut-off comes before the byte: the
    cycle drops what is before the marker and writes the marker followed by
    EF BF BD.  What is written is not a suffix of the bytes read. *)
Lemma invalid_byte_rewritten :
  let e := expiry 1000 (Some 1%Z) in
  let marker := ascii_bytes (lit "---------- TIMESTAMP: 77 ----------") in
  utf8_decode invalid_byte_file = [97; replacement]%N /\
  node_rewrite e invalid_byte_file = Some [97; 239; 191; 189]%N /\
  deno_rewrite false e invalid_byte_file = Some [97; 239; 191; 189]%N /\
  deno_rewrite true e invalid_byte_file = Some [97; 239; 191; 189]%N /\
  ~ suffix_list [97; 239; 191; 189]%N invalid_byte_file /\
  marker_then_invalid_byte = (120 :: marker ++ [255])%N /\
  node_rewrite e marker_then_invalid_byte = Some (marker ++ [239; 191; 189]%N) /\
  deno_rewrite false e marker_then_invalid_byte = Some (marker ++ [239; 191; 189]%N) /\
  deno_rewrite true e marker_then_invalid_byte = Some (marker ++ [239; 191; 189]%N) /\
  ~ suffix_list (marker ++ [239; 191; 189]%N) marker_then_invalid_byte.
Proof.
  intros e marker.
  do 4 (split; [vm_compute; reflexivity|]).
  split.
  { intros [dropped H]. apply (f_equal (@length N)) in H.
    rewrite length_app in H. cbn in H. lia. }
  do 4 (split; [vm_compute; reflexivity|]).
  intros [dropped H]. apply (f_equal (@length N)) in H.
  unfold marker_then_invalid_byte, marker, ascii_bytes in H.
  rewrite !length_app, !length_map in H. cbn in H. lia.
Qed.

(** C10, amended. For every file content read by a maintenance cycle, the
    text written back is a contiguous suffix of the text read, the text
    being the string the bytes of the file decode to: the cycle only ever
    drops a prefix of that string and never reorders, duplicates or alters a
    character it keeps.  First and second part: [onInterval] of either
    implementation, in every world where the file is there, leaves in the
    file a suffix of the text it read.  Third and fourth part: on every
    sequence of bytes, both loops return on the decoded string, with a
    suffix of it, and the bytes written are the UTF-8 encoding of that
    suffix.  Last part: when the file holds ASCII text, the bytes written
    are the bytes of what the loop keeps, a suffix of the bytes read. *)
Theorem retained_is_suffix (expiryTimestamp : Z) :
  (forall (ttl : option Z) (separator : str) (flushed : bool)
          (w : NodeSink.World) (f : NodeSink.File),
     NodeSink.file w = Some f ->
     exists f',
       NodeSink.file (NodeSink.onInterval ttl separator flushed w) = Some f' /\
       suffix_of (NodeSink.content f') (node_read separator flushed w f)) /\
  (forall (ttl : option Z) (separator : str) (w : DenoSink.World) (f : DenoSink.File),
     DenoSink.file w = Some f ->
     DenoSink.writer_open w = true ->
     exists f',
       DenoSink.file (DenoSink.onInterval ttl separator w) = Some f' /\
       suffix_of (DenoSink.content f') (deno_read separator w f)) /\
  (forall bs : bytes,
     exists kept,
       Units.node_retained expiryTimestamp (utf8_decode bs) = Some kept /\
       suffix_list kept (utf8_decode bs) /\
       node_rewrite expiryTimestamp bs = Some (utf8_encode kept)) /\
  (forall (bom_dropped : bool) (bs : bytes),
     let text := utf8_decode (if bom_dropped then drop_bom bs else bs) in
     exists kept,
       Units.deno_retained expiryTimestamp text = Some kept /\
       suffix_list kept text /\
       deno_rewrite bom_dropped expiryTimestamp bs = Some (utf8_encode kept)) /\
  (forall (bom_dropped : bool) (s : str),
     all_ascii s = true ->
     exists kn kd,
       NodeSink.retained expiryTimestamp s = Some kn /\
       DenoSink.retained expiryTimestamp s = Some kd /\
       node_rewrite expiryTimestamp (ascii_bytes s) = Some (ascii_bytes kn) /\
       deno_rewrite bom_dropped expiryTimestamp (ascii_bytes s) = Some (ascii_bytes kd) /\
       suffix_list (ascii_bytes kn) (ascii_bytes s) /\
       suffix_list (ascii_bytes kd) (ascii_bytes s)).
Proof.
  split; [|split; [|split; [|split]]].
  - intros ttl separator flushed w f Hf.
    rewrite (node_onInterval_cut _ _ _ _ _ Hf).
    eexists; split; [reflexivity|]. cbn [NodeSink.content].
    unfold node_cut. destruct (find _ _); apply substring_suffix.
  - intros ttl separator w f Hf Ho.
    rewrite (deno_onInterval_cut _ _ _ _ Hf Ho).
    eexists; split; [reflexivity|]. cbn [DenoSink.content].
    unfold deno_cut. destruct (find _ _); [apply substring_suffix | apply suffix_of_refl].
  - intros bs. unfold node_rewrite, Units.node_retained.
    destruct (units_node_scan_suffix expiryTimestamp (S (length (utf8_decode bs)))
                (utf8_decode bs)) as [k Hk]; [lia|].
    rewrite Hk. eexists; split; [reflexivity|].
    split; [apply skipn_suffix_list | reflexivity].
  - intros bom_dropped bs text. unfold deno_rewrite, Units.deno_retained. fold text.
    destruct (units_deno_scan_suffix expiryTimestamp text (S (length text)) 0)
      as [k Hk]; [lia|].
    rewrite Hk. eexists; split; [reflexivity|].
    split; [apply skipn_suffix_list | reflexivity].
  - intros bom_dropped s Hs.
    assert (Hkept : forall k, utf8_encode (Units.widen (skipn k s)) = ascii_bytes (skipn k s))
      by (intros k; apply utf8_encode_ascii, all_ascii_skipn; exact Hs).
    assert (Hsuf : forall k, suffix_list (ascii_bytes (skipn k s)) (ascii_bytes s)).
    { intros k. unfold ascii_bytes. rewrite <- skipn_map. apply skipn_suffix_list. }
    unfold node_rewrite, deno_rewrite.
    replace (if bom_dropped then drop_bom (ascii_bytes s) else ascii_bytes s)
      with (ascii_bytes s) by (destruct bom_dropped; [rewrite drop_bom_ascii|]; auto).
    rewrite (utf8_decode_ascii _ Hs), units_node_retained_widen, units_deno_retained_widen.
    rewrite node_retained_cut, deno_retained_cut. unfold node_cut, deno_cut, substring.
    cbn [option_map].
    destruct (find (fresh expiryTimestamp) (markers s)) as [m|].
    + exists (skipn (index m) s), (skipn (index m) s). rewrite Hkept.
      repeat split; auto.
    + exists (skipn (last_end (markers s) 0) s), s. rewrite Hkept.
      rewrite (utf8_encode_ascii _ Hs).
      repeat split; auto. exists []. reflexivity.
Qed.

Lemma retained_is_suffix_witness :
  (exists f',
     NodeSink.file (NodeSink.onInterval (Some 1%Z) newline true
                      (node_world (still_clock 1006) two_markers)) = Some f' /\
     suffix_of (NodeSink.content f') (two_markers ++ marker_line 1006 ++ newline)) /\
  (exists f',
     DenoSink.file (DenoSink.onInterval (Some 1%Z) newline
                      (deno_world (still_clock 1006) two_markers)) = Some f' /\
     suffix_of (DenoSink.content f') (two_markers ++ marker_line 1006 ++ newline)) /\
  (exists kn kd,
     NodeSink.retained 6 two_markers = Some kn /\
     DenoSink.retained 6 two_markers = Some kd /\
     node_rewrite 6 (ascii_bytes two_markers) = Some (ascii_bytes kn) /\
     deno_rewrite true 6 (ascii_bytes two_markers) = Some (ascii_bytes kd) /\
     suffix_list (ascii_bytes kn) (ascii_bytes two_markers) /\
     suffix_list (ascii_bytes kd) (ascii_bytes two_markers)).
Proof.
  split; [|split].
  - apply (proj1 (retained_is_suffix 6) (Some 1%Z) newline true
             (node_world (still_clock 1006) two_markers)
             (NodeSink.mkFile two_markers (NodeSink.mkStats 0))).
    reflexivity.
  - apply (proj1 (proj2 (retained_is_suffix 6)) (Some 1%Z) newline
             (deno_world (still_clock 1006) two_markers)
             (DenoSink.mkFile two_markers (DenoSink.mkFileInfo (Some 0%Z) (Some 0%Z)))).
    + reflexivity.
    + reflexivity.
  - apply (proj2 (proj2 (proj2 (proj2 (retained_is_suffix 6)))) true two_markers).
    vm_compute. reflexivity.
Defined.

(** ** The cycle's own marker *)

Lemma marker_occurs (s : str) (m : RegExpMatch) :
  In m (markers s) -> occurs_in (matched m) s.
Proof.
  intros H. apply markers_sound in H as [Hm Ht].
  apply match_here_Some in Hm as (_ & _ & rest & Hs).
  exists (firstn (index m) s), rest.
  rewrite <- (firstn_skipn (index m) s) at 1. rewrite Hs, Ht, <- !app_assoc.
  reflexivity.
Qed.

Lemma is_digit_dash : is_digit "-"%char = false.
Proof. reflexivity. Qed.

(** A number whose text is made of digits is not negative, and [parseInt]
    reads it back. *)
Lemma parseInt_Number_toString (t : Z) :
  forallb is_digit (Number_toString t) = true ->
  parseInt (Number_toString t) = t.
Proof.
  destruct t as [|p|p]; intros H.
  - reflexivity.
  - change (Number_toString (Zpos p)) with (N_toString (Npos p)).
    apply (parseInt_N_toString (Npos p)).
  - discriminate H.
Qed.

Lemma own_marker_timestamp (content : str) (before : nat) (currentTime : Z) :
  In (own_marker before currentTime) (markers content) ->
  timestamp_of (own_marker before currentTime) = currentTime.
Proof.
  intros H. apply markers_sound in H as [Hm _].
  apply match_here_Some in Hm as (_ & Hd & _).
  apply parseInt_Number_toString. exact Hd.
Qed.

(** The part of C3 that does not depend on the implementation. *)
Lemma own_marker_kept (e : Z) (content : str) (before : nat) (currentTime : Z) :
  In (own_marker before currentTime) (markers content) ->
  (currentTime > e)%Z ->
  forall kept, kept = node_cut e content \/ kept = deno_cut e content ->
    (exists m', In m' (markers kept) /\ matched m' = marker_text currentTime /\
                timestamp_of m' = currentTime) /\
    occurs_in (marker_text currentTime) kept.
Proof.
  intros Hin Hts kept Hkept.
  pose proof (own_marker_timestamp _ _ _ Hin) as Hown.
  destruct (fresh_marker_kept e content _ Hin) as (cut & Hle & Hn & Hd & Hk);
    [rewrite Hown; exact Hts|].
  assert (kept = substring content cut) as -> by (destruct Hkept; congruence).
  split.
  - eexists; split; [exact Hk|]. split; [reflexivity|exact Hown].
  - apply marker_occurs in Hk. exact Hk.
Qed.

(** The marker of the cycle is kept when the cut is at an occurrence at or
    before it. *)
Lemma own_marker_in_cut (e : Z) (content : str) (before : nat) (currentTime : Z)
    (m1 : RegExpMatch) :
  In (own_marker before currentTime) (markers content) ->
  find (fresh e) (markers content) = Some m1 ->
  index m1 <= index (own_marker before currentTime) ->
  (exists m', In m' (markers (substring content (index m1))) /\
              matched m' = marker_text currentTime /\
              timestamp_of m' = currentTime) /\
  occurs_in (marker_text currentTime) (substring content (index m1)).
Proof.
  intros Hin Hf Hle.
  pose proof (own_marker_timestamp _ _ _ Hin) as Hown.
  pose proof (occurrence_kept _ _ _ _ Hf Hin Hle) as Hk.
  split.
  - eexists; split; [exact Hk|]. split; [reflexivity|exact Hown].
  - apply marker_occurs in Hk. exact Hk.
Qed.

(** It is kept when nothing is cut. *)
Lemma own_marker_in_whole (content : str) (before : nat) (currentTime : Z) :
  In (own_marker before currentTime) (markers content) ->
  (exists m', In m' (markers content) /\
              matched m' = marker_text currentTime /\
              timestamp_of m' = currentTime) /\
  occurs_in (marker_text currentTime) content.
Proof.
  intros Hin. pose proof (own_marker_timestamp _ _ _ Hin) as Hown. split.
  - eexists; split; [exact Hin|]. split; [reflexivity|exact Hown].
  - apply marker_occurs in Hin. exact Hin.
Qed.

(** When the marker of the cycle is itself newer than the cut-off, the
    first occurrence that is newer does not come after it. *)
Lemma own_marker_first_fresh (e : Z) (content : str) (before : nat) (currentTime : Z) :
  In (own_marker before currentTime) (markers content) ->
  (currentTime > e)%Z ->
  exists m1, find (fresh e) (markers content) = Some m1 /\
             index m1 <= index (own_marker before currentTime).
Proof.
  intros Hin Hts. pose proof (own_marker_timestamp _ _ _ Hin) as Hown.
  destruct (find (fresh e) (markers content)) as [m1|] eqn:Hf.
  - exists m1. split; [reflexivity|].
    apply (first_fresh_before _ _ _ _ Hf Hin). rewrite Hown. exact Hts.
  - apply no_fresh_iff in Hf. rewrite Forall_forall in Hf.
    specialize (Hf _ Hin). lia.
Qed.

(** An occurrence lies within the content, and is at least 34 characters
    long. *)
Lemma marker_within (content : str) (m : RegExpMatch) :
  In m (markers content) ->
  34 <= length (matched m) /\ match_end m <= length content.
Proof.
  intros H. apply markers_sound in H as [Hm Ht].
  apply match_here_Some in Hm as (Hne & _ & rest & Hs).
  apply (f_equal (@length ascii)) in Hs.
  rewrite length_skipn, !length_app in Hs.
  unfold match_end. rewrite Ht, !length_app.
  change (length marker_open) with 22 in *.
  change (length marker_close) with 11 in *.
  destruct (group1 m) as [|d ds]; [congruence|]. cbn [length] in *. lia.
Qed.

(** After the marker of the cycle come a space and the separator: when the
    separator has 32 characters or fewer, no occurrence fits there, and the
    marker is the last occurrence of the content read. *)
Lemma own_marker_last (before separator : str) (t : Z) (m : RegExpMatch) :
  length separator <= 32 ->
  In (own_marker (length before) t) (markers (before ++ marker_line t ++ separator)) ->
  In m (markers (before ++ marker_line t ++ separator)) ->
  index m <= index (own_marker (length before) t).
Proof.
  intros Hsep Hown Hm.
  pose proof (marker_within _ _ Hm) as [Hlen Hend].
  apply in_split in Hown as (a & b & Hs). rewrite Hs in Hm.
  apply in_app_or in Hm as [Hm|[<-|Hm]].
  - apply in_split in Hm as (a1 & a2 & ->).
    rewrite <- app_assoc in Hs. cbn [app] in Hs.
    pose proof (markers_in_order _ a1 (a2 ++ own_marker (length before) t :: b) m
                  (own_marker (length before) t) Hs
                  ltac:(apply in_or_app; right; left; reflexivity)) as Hord.
    unfold match_end in Hord. lia.
  - lia.
  - pose proof (markers_in_order _ _ _ _ _ Hs Hm) as Hord.
    unfold match_end in Hord, Hend.
    rewrite !length_app, marker_line_text in Hend.
    cbn [length] in Hend. rewrite length_app in Hend. cbn [length] in Hend.
    unfold own_marker in Hord. cbn [index matched] in Hord. lia.
Qed.

(** The Deno cycle keeps its marker when the first occurrence newer than
    the cut-off, if there is one, does not come after it. *)
Lemma deno_own_marker_kept (ttl : option Z) (separator : str)
    (w : DenoSink.World) (f : DenoSink.File) :
  let currentTime := first_reading (DenoSink.clock w) in
  let read := deno_read separator w f in
  let own := own_marker (length (DenoSink.content f)) currentTime in
  let e := expiry (second_reading (DenoSink.clock w)) ttl in
  DenoSink.file w = Some f ->
  DenoSink.writer_open w = true ->
  In own (markers read) ->
  (forall m1, find (fresh e) (markers read) = Some m1 -> index m1 <= index own) ->
  exists f',
    DenoSink.file (DenoSink.onInterval ttl separator w) = Some f' /\
    (exists m', In m' (markers (DenoSink.content f')) /\
                matched m' = marker_text currentTime /\
                timestamp_of m' = currentTime) /\
    occurs_in (marker_text currentTime) (DenoSink.content f').
Proof.
  intros currentTime read own e Hf Ho Hin Hall.
  rewrite (deno_onInterval_cut _ _ _ _ Hf Ho). fold read e.
  eexists; split; [reflexivity|]. cbn [DenoSink.content].
  unfold deno_cut.
  destruct (find (fresh e) (markers read)) as [m1|] eqn:Hfind.
  - apply (own_marker_in_cut _ _ _ _ _ Hin Hfind). apply Hall. reflexivity.
  - exact (own_marker_in_whole _ _ _ Hin).
Qed.

(** C3, as stated, fails.  First, the clock moves one second between the two
    readings of a cycle and [ttl] is one second: the marker just appended
    is in the content read, it is not newer than the cut-off, and the Node
    loop drops it; the file is left with no Age Marker at all.  Second, the
    clock stands still but the file ends in text that makes an occurrence
    with the first characters of the marker line: the text of the marker is
    in the content read, the scan passes over it, and the Node loop leaves
    a file that holds neither that text nor any Age Marker.  Third, in the
    Deno implementation: the clock moves one second, [ttl] is one second,
    and the separator is dressed as a marker of a later time; the marker
    just appended is an occurrence of the content read and is not newer
    than the cut-off, the occurrence in the separator is, and the Deno loop
    cuts there: the file is left without the marker of the cycle. *)
Lemma own_marker_lost_when_clock_moves :
  let w := node_world slow_clock [] in
  let currentTime := first_reading (NodeSink.clock w) in
  let w' := node_world (still_clock 1700000000000) swallowing_text in
  let wd := deno_world slow_clock [] in
  (In (own_marker 0 currentTime) (markers (marker_line currentTime ++ newline)) /\
   exists f',
     NodeSink.file (NodeSink.onInterval (Some 1%Z) newline true w) = Some f' /\
     NodeSink.content f' = " "%char :: newline /\
     markers (NodeSink.content f') = []) /\
  (occurs_in (marker_text 1700000000000)
     (swallowing_text ++ marker_line 1700000000000 ++ newline) /\
   exists f',
     NodeSink.file (NodeSink.onInterval (Some 1%Z) newline true w') = Some f' /\
     NodeSink.content f' = lit " TIMESTAMP: 1700000000000 ---------- " ++ newline /\
     markers (NodeSink.content f') = []) /\
  (In (own_marker 0 currentTime) (markers (marker_line currentTime ++ marker_separator)) /\
   exists f',
     DenoSink.file (DenoSink.onInterval (Some 1%Z) marker_separator wd) = Some f' /\
     DenoSink.content f' = lit "---------- TIMESTAMP: 9999999999999 ----------" ++ newline /\
     map timestamp_of (markers (DenoSink.content f')) = [9999999999999%Z]).
Proof.
  split; [|split].
  - split; [vm_compute; left; reflexivity|].
    eexists; split; [vm_compute; reflexivity|]. split; reflexivity.
  - split.
    + exists (swallowing_text ++ [" "%char]), (" "%char :: newline).
      vm_compute. reflexivity.
    + eexists; split; [vm_compute; reflexivity|]. split; vm_compute; reflexivity.
  - split; [vm_compute; left; reflexivity|].
    eexists; split; [vm_compute; reflexivity|]. split; vm_compute; reflexivity.
Qed.

(** C3, amended. For every maintenance cycle run with [ttl] set on a file
    that is there, in which the marker appended at the start of the cycle
    is one of the Age Marker occurrences of the content read, the rewritten
    file still holds that marker as an occurrence, with its timestamp (so
    the file holds at least one Age Marker),
    - in the Node implementation (when the stream has handed the marker to
      the file before the read): whenever the clock reading used for the
      cut-off is less than [currentTime + ttl*1000], and more generally
      whenever there is an occurrence newer than the cut-off and the first
      such occurrence does not come after the marker;
    - in the Deno implementation: whenever the clock reading used for the
      cut-off is less than [currentTime + ttl*1000], and more generally
      whenever the first occurrence newer than the cut-off, if there is
      one, does not come after the marker;
    - in the Deno implementation, with no further condition, whenever the
      separator has 32 characters or fewer, as the default separator has:
      no occurrence then follows the marker. *)
Theorem own_marker_survives (ttl : Z) (separator : str) :
  (forall (w : NodeSink.World) (f : NodeSink.File),
     let currentTime := first_reading (NodeSink.clock w) in
     let read := node_read separator true w f in
     let own := own_marker (length (NodeSink.content f ++ NodeSink.pending w)) currentTime in
     let e := expiry (second_reading (NodeSink.clock w)) (Some ttl) in
     NodeSink.file w = Some f ->
     NodeSink.stream_open w = true ->
     In own (markers read) ->
     ((second_reading (NodeSink.clock w) < currentTime + ttl * 1000)%Z \/
      exists m1, find (fresh e) (markers read) = Some m1 /\ index m1 <= index own) ->
     exists f',
       NodeSink.file (NodeSink.onInterval (Some ttl) separator true w) = Some f' /\
       (exists m', In m' (markers (NodeSink.content f')) /\
                   matched m' = marker_text currentTime /\
                   timestamp_of m' = currentTime) /\
       occurs_in (marker_text currentTime) (NodeSink.content f')) /\
  (forall (w : DenoSink.World) (f : DenoSink.File),
     let currentTime := first_reading (DenoSink.clock w) in
     let read := deno_read separator w f in
     let own := own_marker (length (DenoSink.content f)) currentTime in
     let e := expiry (second_reading (DenoSink.clock w)) (Some ttl) in
     DenoSink.file w = Some f ->
     DenoSink.writer_open w = true ->
     In own (markers read) ->
     ((second_reading (DenoSink.clock w) < currentTime + ttl * 1000)%Z \/
      forall m1, find (fresh e) (markers read) = Some m1 -> index m1 <= index own) ->
     exists f',
       DenoSink.file (DenoSink.onInterval (Some ttl) separator w) = Some f' /\
       (exists m', In m' (markers (DenoSink.content f')) /\
                   matched m' = marker_text currentTime /\
                   timestamp_of m' = currentTime) /\
       occurs_in (marker_text currentTime) (DenoSink.content f')) /\
  (forall (w : DenoSink.World) (f : DenoSink.File),
     let currentTime := first_reading (DenoSink.clock w) in
     let read := deno_read separator w f in
     let own := own_marker (length (DenoSink.content f)) currentTime in
     DenoSink.file w = Some f ->
     DenoSink.writer_open w = true ->
     length separator <= 32 ->
     In own (markers read) ->
     exists f',
       DenoSink.file (DenoSink.onInterval (Some ttl) separator w) = Some f' /\
       (exists m', In m' (markers (DenoSink.content f')) /\
                   matched m' = marker_text currentTime /\
                   timestamp_of m' = currentTime) /\
       occurs_in (marker_text currentTime) (DenoSink.content f')).
Proof.
  split; [|split].
  - intros w f currentTime read own e Hf Ho Hin Hcond.
    rewrite (node_onInterval_cut _ _ _ _ _ Hf). fold read e.
    eexists; split; [reflexivity|]. cbn [NodeSink.content].
    assert (Hfirst : exists m1, find (fresh e) (markers read) = Some m1 /\
                                index m1 <= index own).
    { destruct Hcond as [Ht|Hex]; [|exact Hex].
      apply own_marker_first_fresh; [exact Hin|].
      unfold e. rewrite expiry_Some. fold currentTime. lia. }
    destruct Hfirst as (m1 & Hfind & Hle).
    unfold node_cut. rewrite Hfind.
    exact (own_marker_in_cut _ _ _ _ _ Hin Hfind Hle).
  - intros w f currentTime read own e Hf Ho Hin Hcond.
    apply (deno_own_marker_kept (Some ttl) separator w f Hf Ho Hin).
    destruct Hcond as [Ht|Hall]; [|exact Hall].
    intros m1 Hfind.
    destruct (own_marker_first_fresh
                (expiry (second_reading (DenoSink.clock w)) (Some ttl)) read _ _ Hin)
      as (m1' & Hf' & Hle).
    { rewrite expiry_Some. fold currentTime. lia. }
    unfold e, read in *. rewrite Hfind in Hf'. injection Hf' as <-. exact Hle.
  - intros w f currentTime read own Hf Ho Hsep Hin.
    apply (deno_own_marker_kept (Some ttl) separator w f Hf Ho Hin).
    intros m1 Hfind. apply find_some in Hfind as [Hm1 _].
    exact (own_marker_last _ _ _ _ Hsep Hin Hm1).
Qed.

Lemma own_marker_survives_witness :
  (exists f',
     NodeSink.file (NodeSink.onInterval (Some 1%Z) newline true
                      (node_world (still_clock 1700000000000) (lit "old line"))) = Some f' /\
     (exists m', In m' (markers (NodeSink.content f')) /\
                 matched m' = marker_text 1700000000000 /\
                 timestamp_of m' = 1700000000000%Z) /\
     occurs_in (marker_text 1700000000000) (NodeSink.content f')) /\
  (exists f',
     DenoSink.file (DenoSink.onInterval (Some 1%Z) newline
                      (deno_world (still_clock 1700000000000) (lit "old line"))) = Some f' /\
     (exists m', In m' (markers (DenoSink.content f')) /\
                 matched m' = marker_text 1700000000000 /\
                 timestamp_of m' = 1700000000000%Z) /\
     occurs_in (marker_text 1700000000000) (DenoSink.content f')) /\
  (exists f',
     DenoSink.file (DenoSink.onInterval (Some 1%Z) newline (deno_world slow_clock []))
     = Some f' /\
     (exists m', In m' (markers (DenoSink.content f')) /\
                 matched m' = marker_text 1700000000000 /\
                 timestamp_of m' = 1700000000000%Z) /\
     occurs_in (marker_text 1700000000000) (DenoSink.content f')).
Proof.
  split; [|split].
  - apply (proj1 (own_marker_survives 1 newline)
             (node_world (still_clock 1700000000000) (lit "old line"))
             (NodeSink.mkFile (lit "old line") (NodeSink.mkStats 0))).
    + reflexivity.
    + reflexivity.
    + vm_compute. left. reflexivity.
    + left. vm_compute. reflexivity.
  - apply (proj1 (proj2 (own_marker_survives 1 newline))
             (deno_world (still_clock 1700000000000) (lit "old line"))
             (DenoSink.mkFile (lit "old line") (DenoSink.mkFileInfo (Some 0%Z) (Some 0%Z)))).
    + reflexivity.
    + reflexivity.
    + vm_compute. left. reflexivity.
    + left. vm_compute. reflexivity.
  - apply (proj2 (proj2 (own_marker_survives 1 newline))
             (deno_world slow_clock [])
             (DenoSink.mkFile [] (DenoSink.mkFileInfo (Some 0%Z) (Some 0%Z)))).
    + reflexivity.
    + reflexivity.
    + vm_compute. lia.
    + vm_compute. left. reflexivity.
Defined.
(** ** Two cycles in a row *)

Lemma match_here_app (s ds x : str) :
  match_here s = Some ds -> match_here (s ++ x) = Some ds.
Proof.
  intros H. apply match_here_Some in H as (Hne & Hd & rest & ->).
  apply match_here_Some. split; [exact Hne|]. split; [exact Hd|].
  exists (rest ++ x). rewrite <- !app_assoc. reflexivity.
Qed.

(** A content that starts with an occurrence newer than the cut-off is kept
    whole by both loops. *)
Lemma cut_at_head (e : Z) (s ds : str) :
  match_here s = Some ds ->
  (parseInt ds > e)%Z ->
  node_cut e s = s /\ deno_cut e s = s.
Proof.
  intros Hm Hts.
  assert (Hms : exists rest,
             markers s = mkMatch 0 (marker_open ++ ds ++ marker_close) ds :: rest).
  { rewrite markers_from_0, markers_from_exec. unfold exec. cbn [skipn].
    rewrite (search_here _ _ _ Hm). eexists; reflexivity. }
  destruct Hms as [rest Hms]. unfold node_cut, deno_cut. rewrite Hms.
  cbn [find]. replace (fresh e _) with true; [split; reflexivity|].
  symmetry. apply fresh_true. exact Hts.
Qed.

(** What a cycle keeps, when it found an occurrence newer than the cut-off,
    starts with such an occurrence. *)
Lemma cut_starts_fresh (e : Z) (content : str) (m : RegExpMatch) :
  find (fresh e) (markers content) = Some m ->
  match_here (substring content (index m)) = Some (group1 m) /\
  (parseInt (group1 m) > e)%Z.
Proof.
  intros H. pose proof (find_some _ _ H) as [Hin Hf].
  apply markers_sound in Hin as [Hm _]. split; [exact Hm|].
  apply fresh_true in Hf. exact Hf.
Qed.




(** ** The retention invariant *)

Lemma timestamp_shift (d : nat) (m : RegExpMatch) :
  timestamp_of (shift d m) = timestamp_of m.
Proof. reflexivity. Qed.

(** In a list sorted by timestamp, what comes after an element is not
    older than it. *)
Lemma sorted_after (old rest : list RegExpMatch) (m : RegExpMatch) :
  Sorted Z.le (map timestamp_of (old ++ m :: rest)) ->
  forall x, In x rest -> (timestamp_of m <= timestamp_of x)%Z.
Proof.
  intros Hs. apply Sorted_StronglySorted in Hs; [|exact Z.le_trans].
  induction old as [|o old IH]; cbn [app map] in Hs.
  - apply StronglySorted_inv in Hs as [_ Hall]. rewrite Forall_forall in Hall.
    intros x Hx. apply Hall. apply in_map. exact Hx.
  - apply StronglySorted_inv in Hs as [Hs _]. exact (IH Hs).
Qed.

(** The three parts of the invariant, when the scan cuts at the occurrence
    [m1]. *)
Lemma retention_at_fresh (e : Z) (content : str) (m1 : RegExpMatch) :
  Sorted Z.le (map timestamp_of (markers content)) ->
  find (fresh e) (markers content) = Some m1 ->
  (forall m, In m (markers (substring content (index m1))) ->
             (timestamp_of m > e)%Z) /\
  (forall m rest, markers (substring content (index m1)) = m :: rest -> index m = 0) /\
  (forall m, In m (markers content) -> (timestamp_of m > e)%Z ->
             index m1 <= index m /\
             In (mkMatch (index m - index m1) (matched m) (group1 m))
                (markers (substring content (index m1)))).
Proof.
  intros Hsorted Hf.
  apply cut_at_fresh in Hf as (old & rest & Hs & Hold & Hm1 & Hk).
  rewrite Hs in Hsorted. pose proof (sorted_after _ _ _ Hsorted) as Hafter.
  split; [|split].
  - intros m Hin.
    assert (Hin' : In (shift (index m1) m) (m1 :: rest))
      by (rewrite <- Hk; apply in_map; exact Hin).
    rewrite <- (timestamp_shift (index m1) m).
    destruct Hin' as [<-|Hin']; [exact Hm1|].
    specialize (Hafter _ Hin'). lia.
  - intros m rest' Hms. rewrite Hms in Hk. cbn [map] in Hk.
    injection Hk as Hk _.
    apply (f_equal index) in Hk. unfold shift in Hk; cbn [index] in Hk. lia.
  - intros m Hin Hts. rewrite Hs in Hin. apply in_app_or in Hin as [Hin|Hin].
    + rewrite Forall_forall in Hold. specialize (Hold _ Hin). lia.
    + rewrite <- Hk in Hin. apply in_shift in Hin. exact Hin.
Qed.

(** C4, as stated, fails.  At the boundary: the file holds a marker whose
    timestamp is exactly [now - T*1000]; the cycle at [now] appends its own
    marker and cuts there: the older marker, whose timestamp is greater than
    or equal to [now - T*1000], was present before the cycle and is missing
    afterward, in both implementations.  And in the Deno implementation
    when no occurrence is newer than the cut-off: the file holds a marker
    of timestamp 5, the clock moves one second between the two readings of
    the cycle and [T] is one second, so that the marker of the cycle is not
    newer than the cut-off either; the Deno cycle leaves the file as it
    read it, with the marker of timestamp 5, which is less than
    [now - T*1000], and with the space before it. *)
Lemma boundary_marker_dropped :
  let now := 1700000060000%Z in
  let T := 60%Z in
  let before := marker_line (now - T * 1000) ++ newline in
  let wn := NodeSink.onInterval (Some T) newline true (node_world (still_clock now) before) in
  let wd := DenoSink.onInterval (Some T) newline (deno_world (still_clock now) before) in
  let old := marker_line 5 ++ newline in
  let read := old ++ marker_line (first_reading slow_clock) ++ newline in
  let wd' := DenoSink.onInterval (Some 1%Z) newline (deno_world slow_clock old) in
  map timestamp_of (markers before) = [(now - T * 1000)%Z] /\
  Sorted Z.le (map timestamp_of (markers (before ++ marker_line now ++ newline))) /\
  (exists f', NodeSink.file wn = Some f' /\
              map timestamp_of (markers (NodeSink.content f')) = [now]) /\
  (exists f', DenoSink.file wd = Some f' /\
              map timestamp_of (markers (DenoSink.content f')) = [now]) /\
  Sorted Z.le (map timestamp_of (markers read)) /\
  (second_reading slow_clock - 1 * 1000 = 1700000000000)%Z /\
  (exists f', DenoSink.file wd' = Some f' /\
              DenoSink.content f' = read /\
              map timestamp_of (markers (DenoSink.content f')) = [5%Z; 1700000000000%Z] /\
              map index (markers (DenoSink.content f')) = [1; 38]).
Proof.
  split; [vm_compute; reflexivity|]. split.
  { replace (map timestamp_of _) with [1700000000000%Z; 1700000060000%Z]
      by (vm_compute; reflexivity).
    repeat constructor. lia. }
  do 2 (split; [eexists; (split; [vm_compute; reflexivity|]); vm_compute; reflexivity|]).
  split.
  { replace (map timestamp_of _) with [5%Z; 1700000000000%Z]
      by (vm_compute; reflexivity).
    repeat constructor. lia. }
  split; [vm_compute; reflexivity|].
  eexists; split; [vm_compute; reflexivity|].
  repeat split; vm_compute; reflexivity.
Qed.

(** C4, amended. After every maintenance cycle with [ttl = T] whose cut-off
    is computed at time [now], when the Age Marker occurrences of the
    content read are in non-decreasing timestamp order, the file
    [onInterval] leaves is a suffix of the content read in which:
    (i) every Age Marker occurrence has a timestamp strictly greater than
    [now - T*1000] (so greater than or equal to it); (ii) the first
    occurrence, the oldest kept, is at the start: what came before it has
    been discarded; (iii) every Age Marker occurrence of the content read
    with a timestamp strictly greater than [now - T*1000] is still present,
    at its place.  In the Node implementation all three hold, whether or
    not the stream has handed its text over before the read.  In the Deno
    implementation (iii) holds, (i) and (ii) hold whenever some occurrence
    of the content read is newer than the cut-off, and otherwise the file is
    left as it was read. *)
Theorem retention_invariant (T : Z) (separator : str) :
  (forall (w : NodeSink.World) (f : NodeSink.File) (flushed : bool),
     let now := second_reading (NodeSink.clock w) in
     let read := node_read separator flushed w f in
     NodeSink.file w = Some f ->
     Sorted Z.le (map timestamp_of (markers read)) ->
     exists cut,
       NodeSink.file (NodeSink.onInterval (Some T) separator flushed w)
       = Some (NodeSink.mkFile (substring read cut) (NodeSink.stats f)) /\
       (forall m, In m (markers (substring read cut)) ->
                  (timestamp_of m > now - T * 1000)%Z) /\
       (forall m rest, markers (substring read cut) = m :: rest -> index m = 0) /\
       (forall m, In m (markers read) -> (timestamp_of m > now - T * 1000)%Z ->
                  cut <= index m /\
                  In (mkMatch (index m - cut) (matched m) (group1 m))
                     (markers (substring read cut)))) /\
  (forall (w : DenoSink.World) (f : DenoSink.File),
     let now := second_reading (DenoSink.clock w) in
     let read := deno_read separator w f in
     DenoSink.file w = Some f ->
     DenoSink.writer_open w = true ->
     Sorted Z.le (map timestamp_of (markers read)) ->
     exists cut,
       DenoSink.file (DenoSink.onInterval (Some T) separator w)
       = Some (DenoSink.mkFile (substring read cut) (DenoSink.info f)) /\
       (forall m, In m (markers read) -> (timestamp_of m > now - T * 1000)%Z ->
                  cut <= index m /\
                  In (mkMatch (index m - cut) (matched m) (group1 m))
                     (markers (substring read cut))) /\
       ((exists m, In m (markers read) /\ (timestamp_of m > now - T * 1000)%Z) ->
        (forall m, In m (markers (substring read cut)) ->
                   (timestamp_of m > now - T * 1000)%Z) /\
        (forall m rest, markers (substring read cut) = m :: rest -> index m = 0)) /\
       ((forall m, In m (markers read) -> (timestamp_of m <= now - T * 1000)%Z) ->
        cut = 0)).
Proof.
  split.
  - intros w f flushed now read Hf Hsorted.
    rewrite (node_onInterval_cut _ _ _ _ _ Hf). fold now read.
    rewrite expiry_Some. unfold node_cut.
    destruct (find (fresh (now - T * 1000)) (markers read)) as [m1|] eqn:Hfind.
    + exists (index m1). split; [reflexivity|].
      exact (retention_at_fresh _ _ _ Hsorted Hfind).
    + exists (last_end (markers read) 0). split; [reflexivity|].
      pose proof (node_cut_stale _ _ Hfind) as Hnone. unfold node_cut in Hnone.
      rewrite Hfind in Hnone. rewrite Hnone.
      apply no_fresh_iff in Hfind. rewrite Forall_forall in Hfind.
      split; [intros m []|]. split; [intros m rest H; discriminate H|].
      intros m Hin Hts. specialize (Hfind _ Hin). lia.
  - intros w f now read Hf Ho Hsorted.
    rewrite (deno_onInterval_cut _ _ _ _ Hf Ho). fold now read.
    rewrite expiry_Some. unfold deno_cut.
    destruct (find (fresh (now - T * 1000)) (markers read)) as [m1|] eqn:Hfind.
    + exists (index m1). split; [reflexivity|].
      destruct (retention_at_fresh _ _ _ Hsorted Hfind) as (H1 & H2 & H3).
      split; [exact H3|]. split; [intros _; split; assumption|].
      intros Hall. apply find_some in Hfind as [Hin Hfr]. apply fresh_true in Hfr.
      specialize (Hall _ Hin). lia.
    + exists 0. split; [reflexivity|].
      apply no_fresh_iff in Hfind. rewrite Forall_forall in Hfind.
      split; [intros m Hin Hts; specialize (Hfind _ Hin); lia|].
      split; [|reflexivity].
      intros (m & Hin & Hts). specialize (Hfind _ Hin). lia.
Qed.

Lemma retention_invariant_witness :
  let wn := node_world (still_clock 1006) two_markers in
  let wd := deno_world (still_clock 1006) two_markers in
  let read := two_markers ++ marker_line 1006 ++ newline in
  (exists cut,
     NodeSink.file (NodeSink.onInterval (Some 1%Z) newline true wn)
     = Some (NodeSink.mkFile (substring read cut) (NodeSink.mkStats 0)) /\
     (forall m, In m (markers (substring read cut)) ->
                (timestamp_of m > 1006 - 1 * 1000)%Z) /\
     (forall m rest, markers (substring read cut) = m :: rest -> index m = 0) /\
     (forall m, In m (markers read) -> (timestamp_of m > 1006 - 1 * 1000)%Z ->
                cut <= index m /\
                In (mkMatch (index m - cut) (matched m) (group1 m))
                   (markers (substring read cut)))) /\
  (exists cut,
     DenoSink.file (DenoSink.onInterval (Some 1%Z) newline wd)
     = Some (DenoSink.mkFile (substring read cut) (DenoSink.mkFileInfo (Some 0%Z) (Some 0%Z))) /\
     (forall m, In m (markers read) -> (timestamp_of m > 1006 - 1 * 1000)%Z ->
                cut <= index m /\
                In (mkMatch (index m - cut) (matched m) (group1 m))
                   (markers (substring read cut))) /\
     ((exists m, In m (markers read) /\ (timestamp_of m > 1006 - 1 * 1000)%Z) ->
      (forall m, In m (markers (substring read cut)) ->
                 (timestamp_of m > 1006 - 1 * 1000)%Z) /\
      (forall m rest, markers (substring read cut) = m :: rest -> index m = 0)) /\
     ((forall m, In m (markers read) -> (timestamp_of m <= 1006 - 1 * 1000)%Z) ->
      cut = 0)).
Proof.
  intros wn wd read.
  assert (Hsorted : Sorted Z.le (map timestamp_of (markers read))).
  { replace (map timestamp_of (markers read)) with [5%Z; 77%Z; 1006%Z]
      by (vm_compute; reflexivity).
    repeat constructor; lia. }
  split.
  - apply (proj1 (retention_invariant 1 newline)
             wn (NodeSink.mkFile two_markers (NodeSink.mkStats 0)) true).
    + reflexivity.
    + exact Hsorted.
  - apply (proj2 (retention_invariant 1 newline)
             wd (DenoSink.mkFile two_markers (DenoSink.mkFileInfo (Some 0%Z) (Some 0%Z)))).
    + reflexivity.
    + reflexivity.
    + exact Hsorted.
Defined.
(** ** Disposal *)

(** In the Deno implementation [dispose] disarms the timer the logger had
    set and closes the writer and the handle; the timer coming due later
    runs nothing. *)
Lemma deno_dispose_cancels (created : DenoSink.FileInfo)
    (expireDuration ttl : option Z) (separator : str) (w : DenoSink.World) :
  let s := fst (DenoSink.createFileLogger created expireDuration ttl separator w) in
  let w1 := snd (DenoSink.createFileLogger created expireDuration ttl separator w) in
  let w2 := DenoSink.dispose s w1 in
  DenoSink.writer_open w2 = false /\
  DenoSink.handle_open w2 = false /\
  forall id, DenoSink.intervalId s = Some id ->
    ~ In id (DenoSink.intervals w2) /\
    DenoSink.tick ttl separator id w2 = w2.
Proof.
  intros s w1 w2. split; [reflexivity|]. split; [reflexivity|].
  intros id Hid.
  assert (Hnot : existsb (Pos.eqb id) (DenoSink.intervals w2) = false).
  { unfold w2, DenoSink.dispose. rewrite Hid.
    cbn [DenoSink.intervals DenoSink.clearInterval].
    destruct (existsb (Pos.eqb id) (filter _ _)) eqn:E; [|reflexivity].
    apply existsb_exists in E as (x & Hx & Heq).
    apply filter_In in Hx as [_ Hx]. rewrite Heq in Hx. discriminate Hx. }
  split.
  - intros Hin. assert (existsb (Pos.eqb id) (DenoSink.intervals w2) = true).
    { apply existsb_exists. exists id. split; [exact Hin | apply Pos.eqb_refl]. }
    congruence.
  - unfold DenoSink.tick. rewrite Hnot. reflexivity.
Qed.

(** So no maintenance cycle runs after the disposal of a Deno logger,
    however often its timer would have come due. *)
Lemma deno_no_cycle_after_dispose (created : DenoSink.FileInfo)
    (expireDuration ttl : option Z) (separator : str) (w : DenoSink.World)
    (id : positive) (times : nat) :
  let s := fst (DenoSink.createFileLogger created expireDuration ttl separator w) in
  let w1 := snd (DenoSink.createFileLogger created expireDuration ttl separator w) in
  DenoSink.intervalId s = Some id ->
  Nat.iter times (DenoSink.tick ttl separator id) (DenoSink.dispose s w1)
  = DenoSink.dispose s w1.
Proof.
  intros s w1 Hid. induction times as [|times IH]; [reflexivity|].
  rewrite Nat.iter_succ, IH.
  apply (deno_dispose_cancels created expireDuration ttl separator w). exact Hid.
Qed.

(** In the Node implementation the timer set by [createFileLogger] stays
    armed through [dispose], whatever the world. *)
Lemma node_dispose_keeps_intervals (w : NodeSink.World) :
  NodeSink.intervals (NodeSink.dispose w) = NodeSink.intervals w.
Proof.
  unfold NodeSink.dispose, NodeSink.flush.
  destruct (NodeSink.file w); reflexivity.
Qed.

(** C7, on the Node implementation: a logger is made with [ttl = 1] on a
    file holding one line, then disposed of.  The stream is closed, and
    hands the marker of the constructor's cycle to the file; but the timer
    is still armed: when it comes due a minute later the maintenance cycle
    runs and rewrites the file, dropping the line and the marker the file
    held. *)
Theorem node_cycle_runs_after_dispose :
  let base := 1700000000000%Z in
  let w0 := node_world (minute_later_after 2 base) (lit "line" ++ newline) in
  let w1 := NodeSink.createFileLogger None (Some 1%Z) newline w0 in
  let w2 := NodeSink.dispose w1 in
  let w3 := NodeSink.tick (Some 1%Z) newline true 1%positive w2 in
  option_map NodeSink.content (NodeSink.file w1) = Some (lit "line" ++ newline) /\
  NodeSink.stream_open w2 = false /\
  NodeSink.intervals w2 = [1%positive] /\
  option_map NodeSink.content (NodeSink.file w2)
    = Some (lit "line" ++ newline ++ marker_line base ++ newline) /\
  option_map NodeSink.content (NodeSink.file w3) = Some (" "%char :: newline).
Proof.
  repeat split; vm_compute; reflexivity.
Qed.

(** ** The check of the file's age *)

(** The constructor of either implementation runs the check once, after the
    stream or the handle is made and before the timer is set and the first
    cycle runs. *)
Lemma createFileLogger_order (expireDuration ttl : option Z) (separator : str) :
  (forall w,
     NodeSink.createFileLogger expireDuration ttl separator w =
     let w1 := NodeSink.expire_check expireDuration (NodeSink.createWriteStream w) in
     if truthy ttl
     then NodeSink.onInterval ttl separator false (NodeSink.setInterval w1)
     else w1) /\
  (forall created w,
     snd (DenoSink.createFileLogger created expireDuration ttl separator w) =
     let w1 := DenoSink.expire_check expireDuration
                 (DenoSink.openSync (DenoSink.ensureFileSync created w)) in
     if truthy ttl
     then DenoSink.onInterval ttl separator (snd (DenoSink.setInterval w1))
     else w1).
Proof.
  split; intros; unfold NodeSink.createFileLogger, DenoSink.createFileLogger;
    cbv zeta; destruct (truthy ttl); reflexivity.
Qed.

(** In the Node implementation the check removes the file exactly when the
    option is set, the file was there before the constructor ran, and its
    age from its creation time exceeds the option. *)
Lemma node_expire_check_removes (expireDuration : option Z) (w : NodeSink.World) :
  let w1 := NodeSink.expire_check expireDuration (NodeSink.createWriteStream w) in
  (NodeSink.file w <> None /\ NodeSink.file w1 = None) <->
  (truthy expireDuration = true /\
   exists f, NodeSink.file w = Some f /\
     (first_reading (NodeSink.clock w) - NodeSink.birthtime (NodeSink.stats f)
      > or_zero expireDuration * 1000)%Z).
Proof.
  destruct w as [c fl p so iv ni].
  unfold NodeSink.expire_check, NodeSink.createWriteStream, NodeSink.existsSync,
    NodeSink.rmSync, NodeSink.set_clock, NodeSink.set_file, NodeSink.set_pending,
    NodeSink.set_stream_open, Date_now, exceeds, first_reading.
  cbn [NodeSink.file NodeSink.clock NodeSink.pending NodeSink.stream_open
       NodeSink.intervals NodeSink.next_interval].
  destruct (truthy expireDuration); cbn [andb].
  - destruct fl as [f|]; cbn [NodeSink.file].
    + destruct (Z.gtb_spec (readings c (calls c) - NodeSink.birthtime (NodeSink.stats f))
                  (or_zero expireDuration * 1000)) as [Hgt|Hle]; cbn [NodeSink.file].
      * split; [intros _|intros _; split; [discriminate|reflexivity]].
        split; [reflexivity|]. exists f. split; [reflexivity|lia].
      * split; [intros [_ H]; discriminate H|].
        intros [_ (f' & Hf & Hgt)]. injection Hf as <-. lia.
    + split; [intros [H _]; exfalso; apply H; reflexivity
             | intros [_ (f' & Hf & _)]; discriminate Hf].
  - split; [|intros [H _]; discriminate H].
    intros [Hsome Hnone]. exfalso. apply Hsome. exact Hnone.
Qed.

Lemma deno_file_if (b : bool) (wa wb : DenoSink.World) :
  DenoSink.file (if b then wa else wb)
  = if b then DenoSink.file wa else DenoSink.file wb.
Proof. destruct b; reflexivity. Qed.

Ltac settle_check :=
  rewrite deno_file_if; cbn [DenoSink.file];
  match goal with
  | |- context [(?x >? ?y)%Z] => destruct (Z.gtb_spec x y) as [Hgt|Hle]
  end;
  (split;
   [ intros Hc; first [discriminate Hc | split; [reflexivity|lia]]
   | intros [_ Hc]; first [reflexivity | lia] ]).

(** In the Deno implementation the check looks at whatever file is at
    [filepath] once [ensureFileSync] has run, and removes it exactly when the
    option is set and the age exceeds it; the age is taken from the creation
    time, else from the modification time, else it is the time between two
    readings of the clock. *)
Lemma deno_expire_check_removes (created : DenoSink.FileInfo)
    (expireDuration : option Z) (w : DenoSink.World) :
  let w0 := DenoSink.openSync (DenoSink.ensureFileSync created w) in
  let i := match DenoSink.file w with
           | Some f => DenoSink.info f
           | None => created
           end in
  let age := match DenoSink.birthtime i, DenoSink.mtime i with
             | Some b, _ => (first_reading (DenoSink.clock w) - b)%Z
             | None, Some m => (first_reading (DenoSink.clock w) - m)%Z
             | None, None =>
                 (second_reading (DenoSink.clock w) - first_reading (DenoSink.clock w))%Z
             end in
  DenoSink.file (DenoSink.expire_check expireDuration w0) = None <->
  (truthy expireDuration = true /\ (age > or_zero expireDuration * 1000)%Z).
Proof.
  destruct w as [c fl wo ho iv ni].
  unfold DenoSink.expire_check, DenoSink.openSync, DenoSink.ensureFileSync,
    DenoSink.existsSync, DenoSink.removeSync, DenoSink.set_clock, DenoSink.set_file,
    Date_now, exceeds, first_reading, second_reading.
  cbn [DenoSink.file DenoSink.clock].
  destruct (truthy expireDuration).
  - destruct fl as [f|]; cbn [DenoSink.file DenoSink.info DenoSink.clock andb].
    + destruct (DenoSink.birthtime (DenoSink.info f)) as [b|];
        [|destruct (DenoSink.mtime (DenoSink.info f)) as [m|]];
        cbn [readings calls]; settle_check.
    + destruct (DenoSink.birthtime created) as [b|];
        [|destruct (DenoSink.mtime created) as [m|]];
        cbn [readings calls]; settle_check.
  - destruct fl as [f|]; cbn [DenoSink.file andb];
      (split; [intros Hc; discriminate Hc | intros [Hc _]; discriminate Hc]).
Qed.

(** C8, on the Deno implementation: nothing is at [filepath] before the
    constructor runs.  [ensureFileSync] creates the file, so [existsSync]
    holds in the check although the file was not there before.  With
    [expireDuration = -1] the age of the new file, [0], exceeds the option;
    with [expireDuration = 60] on a file system whose clock is two minutes
    behind, the age of the new file is 120 seconds: in both cases the check
    removes the file the constructor has just created.  The Node
    implementation, on the same inputs, removes nothing. *)
Theorem deno_check_removes_new_file :
  let now := 1700000000000%Z in
  let wd := deno_empty_world (still_clock now) in
  let wn := node_empty_world (still_clock now) in
  DenoSink.file wd = None /\
  DenoSink.file (DenoSink.openSync (DenoSink.ensureFileSync (created_at now) wd))
    = Some (DenoSink.mkFile [] (created_at now)) /\
  DenoSink.file (snd (DenoSink.createFileLogger (created_at now) (Some (-1)%Z) None newline wd))
    = None /\
  DenoSink.file (snd (DenoSink.createFileLogger (created_at (now - 120000)) (Some 60%Z) None
                        newline wd))
    = None /\
  NodeSink.createFileLogger (Some (-1)%Z) None newline wn
    = NodeSink.createWriteStream wn /\
  NodeSink.createFileLogger (Some 60%Z) None newline wn
    = NodeSink.createWriteStream wn.
Proof.
  repeat split.
Qed.
(** ** The formatter *)

Section FormatterProperties.

Variable util_format : list Stringify.value -> str.
Variable toISOString : Z -> str.

(** C9, amended. For every prefix, argument list and options, every line of
    the result is built from a line of the base string by applying the
    static [addPrefix] first, when it is a non-empty string, then the
    call-time prefix, when it is neither [null] nor the empty string, then
    the timestamp, outermost, when a mode is configured.  With a mode the
    clock is read exactly once in the call ([epoch]: the milliseconds
    divided by 1000, rounded down; [iso]: the ISO text of the reading), and
    every line carries that one value; without a mode the clock is not
    read. *)
Theorem formatter_nesting (forEachLine : bool) (options : Stringify.Options)
    (prefix : option str) (args : list Stringify.value) (c : Clock) :
  let lines :=
    if forEachLine then Stringify.split_lines (util_format args)
    else [util_format args] in
  let static x :=
    match Stringify.addPrefix options with
    | Some (a :: p) => util_format [Stringify.VString (a :: p); Stringify.VString x]
    | _ => x
    end in
  let call x :=
    match prefix with
    | Some (a :: p) => util_format [Stringify.VString (a :: p); Stringify.VString x]
    | _ => x
    end in
  let now := first_reading c in
  Stringify.createStringifyLogger util_format toISOString forEachLine options prefix args c =
  match Stringify.addTs options with
  | Some Stringify.epoch =>
      (Stringify.join_lines
         (map (fun x => util_format [Stringify.VNumber (now / 1000)%Z;
                                     Stringify.VString (call (static x))]) lines),
       advance 1 c)
  | Some Stringify.iso =>
      (Stringify.join_lines
         (map (fun x => util_format [Stringify.VString (toISOString now);
                                     Stringify.VString (call (static x))]) lines),
       advance 1 c)
  | None => (Stringify.join_lines (map (fun x => call (static x)) lines), c)
  end.
Proof.
  intros lines static call now.
  unfold Stringify.createStringifyLogger, Date_now, first_reading, advance in *.
  cbn [hd]. fold lines.
  assert (Hstatic :
    (if Stringify.truthy_str (Stringify.addPrefix options)
     then map (fun x => util_format
                 [Stringify.VString (Stringify.or_empty (Stringify.addPrefix options));
                  Stringify.VString x]) lines
     else lines) = map static lines).
  { unfold static. destruct (Stringify.addPrefix options) as [[|a p]|];
      cbn [Stringify.truthy_str Stringify.or_empty]; try reflexivity;
      symmetry; apply map_id. }
  rewrite Hstatic.
  assert (Hcall :
    (if Stringify.truthy_str prefix
     then map (fun x => util_format
                 [Stringify.VString (Stringify.or_empty prefix); Stringify.VString x])
            (map static lines)
     else map static lines) = map (fun x => call (static x)) lines).
  { unfold call. destruct prefix as [[|a p]|];
      cbn [Stringify.truthy_str Stringify.or_empty]; rewrite ?map_map; reflexivity. }
  rewrite Hcall.
  destruct (Stringify.addTs options) as [[|]|]; rewrite ?map_map; reflexivity.
Qed.

End FormatterProperties.

(** C9, as stated, fails for the empty call-time prefix: it is not [null],
    yet the formatter does not apply it.  With [util.format] joining its
    arguments by a space, applying the empty prefix to the line [x] gives
    a space followed by [x]; the formatter returns [x] alone. *)
Lemma empty_prefix_not_applied :
  let c := still_clock 1700000000000 in
  let options := Stringify.mkOptions None None in
  Stringify.createStringifyLogger plain_format plain_iso false options
      (Some []) [Stringify.VString (lit "x")] c
    = (lit "x", c) /\
  plain_format [Stringify.VString []; Stringify.VString (lit "x")] = lit " x" /\
  fst (Stringify.createStringifyLogger plain_format plain_iso false options
         (Some []) [Stringify.VString (lit "x")] c)
    <> plain_format [Stringify.VString [];
                     Stringify.VString (plain_format [Stringify.VString (lit "x")])].
Proof.
  repeat split; vm_compute; discriminate.
Qed.
(** ** When the cycle's own marker is an occurrence *)

Lemma skipn_digits_head (ds r : str) :
  forallb is_digit ds = true ->
  forall k, k <= length ds ->
  exists c t, skipn k (ds ++ " "%char :: r) = c :: t /\ c <> "-"%char.
Proof.
  intros Hd. induction ds as [|d ds IH]; intros k Hk.
  - assert (k = 0) by (cbn [length] in Hk; lia). subst k.
    exists " "%char, r. split; [reflexivity|discriminate].
  - cbn [forallb] in Hd. apply andb_true_iff in Hd as [Hd1 Hd2].
    destruct k as [|k].
    + exists d, (ds ++ " "%char :: r). split; [reflexivity|].
      intros ->. discriminate Hd1.
    + cbn [length] in Hk. cbn [app skipn]. apply (IH Hd2). lia.
Qed.

(** No occurrence starts inside another one before its last ten
    characters. *)
Lemma no_match_inside (s ds : str) (j : nat) :
  match_here s = Some ds ->
  0 < j -> j < 23 + length ds ->
  match_here (skipn j s) = None.
Proof.
  intros Hm Hj0 Hj. apply match_here_Some in Hm as (_ & Hd & rest & ->).
  change marker_close with (" "%char :: lit "----------").
  unfold marker_open, lit at 1; cbn [list_ascii_of_string app].
  destruct j as [|j]; [lia|].
  do 21 (destruct j as [|j]; [vm_compute; reflexivity|]).
  cbn [skipn].
  destruct (skipn_digits_head ds (lit "----------" ++ rest) Hd j) as (c & t & Hs & Hc);
    [lia|].
  rewrite Hs. apply match_here_not_dash. exact Hc.
Qed.

(** A place where the pattern matches is an occurrence when no match that
    starts before it reaches over it. *)
Lemma marker_enumerated (content : str) (q : nat) (ds : str) :
  match_here (skipn q content) = Some ds ->
  (forall p d, p < q -> match_here (skipn p content) = Some d ->
               p + (33 + length d) <= q) ->
  In (mkMatch q (marker_open ++ ds ++ marker_close) ds) (markers content).
Proof.
  intros Hq Hfree.
  assert (Hgen : forall n from, q - from <= n -> from <= q ->
                  In (mkMatch q (marker_open ++ ds ++ marker_close) ds)
                     (markers_from content from)).
  { induction n as [|n IH]; intros from Hn Hle;
      rewrite markers_from_exec; unfold exec;
      (destruct (search (skipn from content) from) as [m|] eqn:E;
       [ apply search_Some in E as (k & Hi & Hm & Ht & Hl & Hnone);
         rewrite skipn_skipn in Hm
       | apply search_None with (j := q - from) in E;
         rewrite skipn_skipn in E;
         replace (q - from + from) with q in E by lia; congruence ]).
    - assert (Hk : k = 0).
      { destruct k as [|k]; [reflexivity|]. specialize (Hnone 0 ltac:(lia)).
        cbn [skipn] in Hnone. replace from with q in Hnone by lia. congruence. }
      subst k. left. replace (0 + from) with q in Hm by lia.
      rewrite Hq in Hm. injection Hm as Hm.
      rewrite <- (match_eta m), Ht, <- Hm. f_equal. lia.
    - destruct (Nat.lt_trichotomy (from + k) q) as [Hlt|[Heq|Hgt]].
      + right. apply IH.
        * pose proof (Hfree (from + k) (group1 m) Hlt) as Hf.
          rewrite (Nat.add_comm from k) in Hf. specialize (Hf Hm).
          unfold match_end. rewrite Ht, matched_length. lia.
        * pose proof (Hfree (from + k) (group1 m) Hlt) as Hf.
          rewrite (Nat.add_comm from k) in Hf. specialize (Hf Hm).
          unfold match_end. rewrite Ht, matched_length. lia.
      + left. replace (k + from) with q in Hm by lia.
        rewrite Hq in Hm. injection Hm as Hm.
        rewrite <- (match_eta m), Ht, <- Hm. f_equal. lia.
      + specialize (Hnone (q - from) ltac:(lia)).
        rewrite skipn_skipn in Hnone.
        replace (q - from + from) with q in Hnone by lia. congruence. }
  rewrite markers_from_0. apply (Hgen q 0); lia.
Qed.

Lemma skipn_app_cons (l r : str) (c : ascii) :
  skipn (S (length l)) (l ++ c :: r) = r.
Proof.
  rewrite skipn_app, skipn_all2 by lia.
  replace (S (length l) - length l) with 1 by lia. reflexivity.
Qed.

Lemma nth_error_close (r : str) (i : nat) :
  i < 11 ->
  nth_error (marker_close ++ r) i
  = Some (if Nat.eqb i 0 then " "%char else "-"%char).
Proof.
  intros H. do 11 (destruct i as [|i]; [reflexivity|]). lia.
Qed.

(** The marker line appended to a text that is empty or does not end in a
    digit makes an occurrence: no earlier match reaches over it. *)
Lemma own_marker_enumerated (before separator : str) (t : Z) :
  (0 <= t)%Z ->
  is_digit (last before " "%char) = false ->
  In (own_marker (length before) t) (markers (before ++ marker_line t ++ separator)).
Proof.
  intros Ht Hlast. rewrite <- (Z2N.id t Ht). set (n := Z.to_N t).
  assert (Hc : before ++ marker_line (Z.of_N n) ++ separator
               = before ++ " "%char :: marker_text (Z.of_N n) ++ " "%char :: separator).
  { rewrite marker_line_text. cbn [app]. rewrite <- app_assoc. reflexivity. }
  rewrite Hc. set (tail := marker_text (Z.of_N n) ++ " "%char :: separator).
  assert (Htail : match_here tail = Some (N_toString n))
    by apply match_here_marker_text.
  unfold own_marker, marker_text. rewrite Number_toString_of_N.
  apply marker_enumerated; [rewrite skipn_app_cons; exact Htail|].
  intros p d Hp Hm.
  destruct (Nat.le_gt_cases (p + (33 + length d)) (S (length before)))
    as [Hok|Hover]; [exact Hok|exfalso].
  assert (Hj : 23 + length d <= S (length before) - p).
  { destruct (Nat.le_gt_cases (23 + length d) (S (length before) - p))
      as [Hok|Hin]; [exact Hok|exfalso].
    pose proof (no_match_inside _ _ (S (length before) - p) Hm
                  ltac:(lia) ltac:(lia)) as Hn.
    rewrite skipn_skipn in Hn.
    replace (S (length before) - p + p) with (S (length before)) in Hn by lia.
    rewrite skipn_app_cons in Hn. congruence. }
  apply match_here_Some in Hm as (Hne & Hd & rest & Hs).
  (* the space that opens the marker line lies in the closing text of the
     earlier match *)
  assert (Hsp : nth_error (skipn p (before ++ " "%char :: tail)) (length before - p)
                = Some " "%char).
  { rewrite nth_error_skipn.
    replace (p + (length before - p)) with (length before) by lia.
    rewrite nth_error_app2 by lia. rewrite Nat.sub_diag. reflexivity. }
  rewrite Hs in Hsp.
  rewrite nth_error_app2 in Hsp by (rewrite marker_open_length; lia).
  rewrite nth_error_app2 in Hsp by (rewrite marker_open_length; lia).
  rewrite nth_error_close in Hsp by (rewrite marker_open_length; lia).
  rewrite marker_open_length in Hsp.
  destruct (Nat.eqb_spec (length before - p - 22 - length d) 0) as [Hz|Hnz];
    [|discriminate Hsp].
  (* so the character before it is the last digit of that match *)
  destruct (exists_last Hne) as (d0 & c & Hd0).
  rewrite Hd0 in Hd. rewrite forallb_app in Hd. apply andb_true_iff in Hd as [_ Hc'].
  cbn [forallb] in Hc'. rewrite andb_true_r in Hc'.
  assert (Hlen : length d = S (length d0))
    by (rewrite Hd0, length_app; cbn [length]; lia).
  assert (Hb : before <> []).
  { intros ->. cbn [length] in *. lia. }
  destruct (exists_last Hb) as (b & c' & Hb').
  rewrite Hb', last_last in Hlast.
  assert (Hlb : length before = S (length b))
    by (rewrite Hb', length_app; cbn [length]; lia).
  assert (Hdig : nth_error (skipn p (before ++ " "%char :: tail)) (length b - p)
                 = Some c').
  { rewrite nth_error_skipn.
    replace (p + (length b - p)) with (length b) by lia.
    rewrite Hb', <- app_assoc. rewrite nth_error_app2 by lia.
    rewrite Nat.sub_diag. reflexivity. }
  rewrite Hs, Hd0 in Hdig.
  rewrite nth_error_app2 in Hdig by (rewrite marker_open_length; lia).
  rewrite <- app_assoc in Hdig.
  rewrite nth_error_app2 in Hdig by (rewrite marker_open_length; lia).
  replace (length b - p - length marker_open - length d0) with 0 in Hdig
    by (rewrite marker_open_length; lia).
  cbn [app nth_error] in Hdig. injection Hdig as ->. congruence.
Qed.
(** * Further properties of the loops *)

(** ** Rewriting twice *)

Lemma node_cut_idempotent (e : Z) (content : str) :
  node_cut e (node_cut e content) = node_cut e content.
Proof.
  destruct (find (fresh e) (markers content)) as [m|] eqn:Hf.
  - destruct (cut_starts_fresh _ _ _ Hf) as [Hm Hts].
    unfold node_cut at 2 3. rewrite Hf.
    apply (cut_at_head e _ (group1 m) Hm Hts).
  - pose proof (node_cut_stale _ _ Hf) as Hnone.
    unfold node_cut at 1. rewrite Hnone. reflexivity.
Qed.

Lemma deno_cut_idempotent (e : Z) (content : str) :
  deno_cut e (deno_cut e content) = deno_cut e content.
Proof.
  destruct (find (fresh e) (markers content)) as [m|] eqn:Hf.
  - destruct (cut_starts_fresh _ _ _ Hf) as [Hm Hts].
    unfold deno_cut at 2 3. rewrite Hf.
    apply (cut_at_head e _ (group1 m) Hm Hts).
  - unfold deno_cut at 2 3. rewrite Hf. unfold deno_cut. rewrite Hf. reflexivity.
Qed.

(** X1. What a loop hands to the rewrite is left as it is by the same loop
    run again with the same cut-off: rewriting is idempotent, in both
    implementations. *)
Theorem retained_idempotent (expiryTimestamp : Z) (content : str) :
  (exists kept, NodeSink.retained expiryTimestamp content = Some kept /\
                NodeSink.retained expiryTimestamp kept = Some kept) /\
  (exists kept, DenoSink.retained expiryTimestamp content = Some kept /\
                DenoSink.retained expiryTimestamp kept = Some kept).
Proof.
  split; eexists; (split; [first [apply node_retained_cut | apply deno_retained_cut]|]).
  - rewrite node_retained_cut, node_cut_idempotent. reflexivity.
  - rewrite deno_retained_cut, deno_cut_idempotent. reflexivity.
Qed.

(** ** Text after a live marker *)

Lemma skipn_suffix_le (s : str) (a b : nat) :
  a <= b -> suffix_of (skipn b s) (skipn a s).
Proof.
  intros H. replace b with ((b - a) + a) by lia. rewrite <- skipn_skipn.
  apply substring_suffix.
Qed.

(** X2. Whatever follows an Age Marker whose timestamp is newer than the
    cut-off is kept: the content from that marker on is a suffix of what
    either loop hands to the rewrite. *)
Theorem text_after_fresh_marker_kept (expiryTimestamp : Z) (content : str)
    (m : RegExpMatch) :
  In m (markers content) ->
  (timestamp_of m > expiryTimestamp)%Z ->
  (exists kept, NodeSink.retained expiryTimestamp content = Some kept /\
                suffix_of (substring content (index m)) kept) /\
  (exists kept, DenoSink.retained expiryTimestamp content = Some kept /\
                suffix_of (substring content (index m)) kept).
Proof.
  intros Hin Hts.
  destruct (fresh_marker_kept _ _ _ Hin Hts) as (cut & Hle & Hn & Hd & _).
  rewrite node_retained_cut, deno_retained_cut, Hn, Hd.
  split; eexists; (split; [reflexivity|]); apply skipn_suffix_le; exact Hle.
Qed.

Lemma text_after_fresh_marker_kept_witness :
  (exists kept, NodeSink.retained 6 two_markers = Some kept /\
                suffix_of (substring two_markers 38) kept) /\
  (exists kept, DenoSink.retained 6 two_markers = Some kept /\
                suffix_of (substring two_markers 38) kept).
Proof.
  apply (text_after_fresh_marker_kept 6 two_markers
           (mkMatch 38 (lit "---------- TIMESTAMP: 77 ----------") (lit "77"))).
  - vm_compute. right. left. reflexivity.
  - vm_compute. reflexivity.
Defined.
(** ** A later cut-off keeps less *)

(** X3. With a later cut-off (a shorter [ttl]) the Node loop keeps a suffix
    of what it keeps with an earlier one; the Deno loop does so whenever
    some Age Marker is newer than the later cut-off. *)
Theorem later_cutoff_keeps_less (e1 e2 : Z) (content : str) :
  (e1 <= e2)%Z ->
  (exists k1 k2,
     NodeSink.retained e1 content = Some k1 /\
     NodeSink.retained e2 content = Some k2 /\
     suffix_of k2 k1) /\
  ((exists m, In m (markers content) /\ (timestamp_of m > e2)%Z) ->
   exists k1 k2,
     DenoSink.retained e1 content = Some k1 /\
     DenoSink.retained e2 content = Some k2 /\
     suffix_of k2 k1).
Proof.
  intros He. rewrite !node_retained_cut, !deno_retained_cut.
  unfold node_cut, deno_cut.
  destruct (find (fresh e2) (markers content)) as [m2|] eqn:H2.
  - assert (H1 : exists m1, find (fresh e1) (markers content) = Some m1).
    { destruct (find (fresh e1) (markers content)) as [m1|] eqn:H1;
        [eexists; reflexivity|].
      apply no_fresh_iff in H1. rewrite Forall_forall in H1.
      apply find_some in H2 as [Hin Hf]. apply fresh_true in Hf.
      specialize (H1 _ Hin). lia. }
    destruct H1 as [m1 H1]. rewrite H1.
    pose proof (first_fresh_order _ _ _ _ _ He H1 H2) as Hle.
    split; [|intros _]; eexists; eexists;
      (split; [reflexivity|split; [reflexivity|]]);
      apply skipn_suffix_le; exact Hle.
  - split.
    + destruct (find (fresh e1) (markers content)) as [m1|] eqn:H1;
        eexists; eexists; (split; [reflexivity|split; [reflexivity|]]).
      * apply skipn_suffix_le. apply index_le_last_end.
        apply find_some in H1 as [Hin _]. exact Hin.
      * apply suffix_of_refl.
    + intros (m & Hin & Hts). apply no_fresh_iff in H2.
      rewrite Forall_forall in H2. specialize (H2 _ Hin). lia.
Qed.

Lemma later_cutoff_keeps_less_witness :
  (exists k1 k2,
     NodeSink.retained 3 two_markers = Some k1 /\
     NodeSink.retained 6 two_markers = Some k2 /\
     suffix_of k2 k1) /\
  (exists k1 k2,
     DenoSink.retained 3 two_markers = Some k1 /\
     DenoSink.retained 6 two_markers = Some k2 /\
     suffix_of k2 k1).
Proof.
  assert (H36 : (3 <= 6)%Z) by lia.
  split.
  - exact (proj1 (later_cutoff_keeps_less 3 6 two_markers H36)).
  - apply (proj2 (later_cutoff_keeps_less 3 6 two_markers H36)).
    exists (mkMatch 38 (lit "---------- TIMESTAMP: 77 ----------") (lit "77")).
    split; [vm_compute; right; left; reflexivity | vm_compute; reflexivity].
Defined.
(** ** Appending to the file *)

Lemma search_at (s : str) (k i : nat) (d : str) :
  (forall j, j < k -> match_here (skipn j s) = None) ->
  match_here (skipn k s) = Some d ->
  search s i = Some (mkMatch (i + k) (marker_open ++ d ++ marker_close) d).
Proof.
  revert s i; induction k as [|k IH]; intros s i Hnone Hm.
  - cbn [skipn] in Hm. rewrite (search_here _ _ _ Hm), Nat.add_0_r. reflexivity.
  - destruct s as [|c s]; [discriminate Hm|].
    rewrite search_skip by exact (Hnone 0 ltac:(lia)).
    cbn [skipn] in Hm. rewrite (IH s (S i)); [do 2 f_equal; lia | | exact Hm].
    intros j Hj. exact (Hnone (S j) ltac:(lia)).
Qed.

Lemma skipn_app_le (l x : str) (j : nat) :
  j <= length l -> skipn j (l ++ x) = skipn j l ++ x.
Proof.
  intros H. rewrite skipn_app. replace (j - length l) with 0 by lia. reflexivity.
Qed.

(** A match of the longer text that ends inside the shorter one is a match
    of the shorter one. *)
Lemma match_here_fits (pre x d : str) (j : nat) :
  match_here (skipn j (pre ++ x)) = Some d ->
  j + (33 + length d) <= length pre ->
  match_here (skipn j pre) = Some d.
Proof.
  intros Hm Hfit. apply match_here_Some in Hm as (Hne & Hd & rest & Hs).
  apply match_here_Some. split; [exact Hne|]. split; [exact Hd|].
  rewrite skipn_app_le in Hs by lia.
  exists (skipn (33 + length d) (skipn j pre)).
  rewrite <- (firstn_skipn (33 + length d) (skipn j pre)) at 1.
  rewrite !app_assoc, <- (app_assoc marker_open). f_equal.
  apply (f_equal (firstn (33 + length d))) in Hs.
  rewrite firstn_app in Hs.
  replace (33 + length d - length (skipn j pre)) with 0 in Hs
    by (rewrite length_skipn; lia).
  cbn [firstn] in Hs. rewrite app_nil_r in Hs. rewrite Hs.
  rewrite (app_assoc marker_open), (app_assoc (marker_open ++ d)), <- (app_assoc marker_open).
  rewrite firstn_app, <- matched_length, firstn_all, Nat.sub_diag.
  cbn [firstn]. apply app_nil_r.
Qed.

Lemma match_here_grows (pre x d : str) (j : nat) :
  match_here (skipn j pre) = Some d ->
  match_here (skipn j (pre ++ x)) = Some d.
Proof.
  intros Hm. pose proof (match_here_length _ _ Hm) as Hl.
  rewrite matched_length, length_skipn in Hl.
  rewrite skipn_app_le by lia. apply match_here_app. exact Hm.
Qed.

(** What [exec] finds in a text it finds in the text with more appended. *)
Lemma exec_app (pre x : str) (from : nat) (m : RegExpMatch) :
  exec pre from = Some m -> exec (pre ++ x) from = Some m.
Proof.
  unfold exec. intros H.
  apply search_Some in H as (k & Hi & Hm & Ht & Hl & Hnone).
  rewrite skipn_skipn in Hm. rewrite length_skipn in Hl.
  assert (Hlen : length (matched m) = 33 + length (group1 m))
    by (rewrite Ht; apply matched_length).
  rewrite <- (match_eta m), Ht, Hi.
  apply search_at.
  - intros j Hj. rewrite skipn_skipn.
    destruct (match_here (skipn (j + from) (pre ++ x))) as [d'|] eqn:E; [|reflexivity].
    exfalso.
    destruct (Nat.le_gt_cases (j + from + (33 + length d')) (length pre)) as [Hfit|Hover].
    + apply match_here_fits in E; [|exact Hfit].
      specialize (Hnone j Hj). rewrite skipn_skipn in Hnone. congruence.
    + pose proof (no_match_inside _ _ (k - j) E ltac:(lia) ltac:(lia)) as Hn.
      rewrite skipn_skipn in Hn.
      replace (k - j + (j + from)) with (k + from) in Hn by lia.
      rewrite (match_here_grows _ x _ _ Hm) in Hn. discriminate Hn.
  - rewrite skipn_skipn. apply match_here_grows. exact Hm.
Qed.

Lemma markers_from_app (pre x : str) :
  forall ms from,
    markers_from pre from = ms ->
    exists more, markers_from (pre ++ x) from = ms ++ more.
Proof.
  induction ms as [|m ms IH]; intros from H.
  - eexists; reflexivity.
  - rewrite markers_from_exec in H.
    destruct (exec pre from) as [m'|] eqn:E; [|discriminate H].
    injection H as -> H.
    destruct (IH _ H) as [more Hmore].
    exists more. rewrite markers_from_exec, (exec_app _ x _ _ E), Hmore. reflexivity.
Qed.

(** X4. Appending to a file changes none of the Age Marker occurrences it
    held: the occurrences of the longer content start with those of the
    shorter one, in the same places. *)
Theorem markers_append_stable (content appended : str) :
  exists more, markers (content ++ appended) = markers content ++ more.
Proof. apply (markers_from_app content appended (markers content) 0). reflexivity. Qed.

Lemma find_app_Some {A : Type} (f : A -> bool) (l more : list A) (x : A) :
  find f l = Some x -> find f (l ++ more) = Some x.
Proof.
  induction l as [|y l IH]; cbn [find app]; [discriminate|].
  destruct (f y); [intros H; exact H | exact IH].
Qed.

Lemma cut_app (e : Z) (content appended : str) (m : RegExpMatch) :
  find (fresh e) (markers content) = Some m ->
  node_cut e (content ++ appended) = node_cut e content ++ appended /\
  deno_cut e (content ++ appended) = deno_cut e content ++ appended.
Proof.
  intros Hf.
  destruct (markers_from_app content appended (markers content) 0 eq_refl)
    as [more Hmore].
  rewrite <- !markers_from_0 in Hmore.
  pose proof (find_some _ _ Hf) as [Hin _].
  apply markers_sound in Hin as [Hm _]. apply match_here_length in Hm.
  rewrite length_skipn, matched_length in Hm.
  unfold node_cut, deno_cut.
  rewrite Hmore, (find_app_Some _ _ more _ Hf), Hf.
  unfold substring. rewrite skipn_app_le by lia. split; reflexivity.
Qed.

(** X5. When the content holds an Age Marker newer than the cut-off, text
    appended to it does not move the cut: what either loop keeps of the
    longer content is what it keeps of the shorter one, followed by the
    appended text. *)
Theorem appended_text_kept (expiryTimestamp : Z) (content appended : str)
    (m : RegExpMatch) :
  In m (markers content) ->
  (timestamp_of m > expiryTimestamp)%Z ->
  (exists kept,
     NodeSink.retained expiryTimestamp content = Some kept /\
     NodeSink.retained expiryTimestamp (content ++ appended) = Some (kept ++ appended)) /\
  (exists kept,
     DenoSink.retained expiryTimestamp content = Some kept /\
     DenoSink.retained expiryTimestamp (content ++ appended) = Some (kept ++ appended)).
Proof.
  intros Hin Hts.
  destruct (find (fresh expiryTimestamp) (markers content)) as [m1|] eqn:Hf.
  - destruct (cut_app _ _ appended _ Hf) as [Hn Hd].
    rewrite !node_retained_cut, !deno_retained_cut, Hn, Hd.
    split; eexists; split; reflexivity.
  - apply no_fresh_iff in Hf. rewrite Forall_forall in Hf.
    specialize (Hf _ Hin). lia.
Qed.

Lemma appended_text_kept_witness :
  (exists kept,
     NodeSink.retained 6 two_markers = Some kept /\
     NodeSink.retained 6 (two_markers ++ lit "more") = Some (kept ++ lit "more")) /\
  (exists kept,
     DenoSink.retained 6 two_markers = Some kept /\
     DenoSink.retained 6 (two_markers ++ lit "more") = Some (kept ++ lit "more")).
Proof.
  apply (appended_text_kept 6 two_markers (lit "more")
           (mkMatch 38 (lit "---------- TIMESTAMP: 77 ----------") (lit "77"))).
  - vm_compute. right. left. reflexivity.
  - vm_compute. reflexivity.
Defined.
(** ** The marker of a cycle, in ordinary use *)

(** X6. The marker line written for a time [t >= 0] after a text that is
    empty or does not end in a digit (the default separator is a newline) is
    found by the scan of the whole content, whatever follows it, where the
    line was put, and its timestamp is read back as [t]. *)
Theorem marker_found_in_context (before after : str) (t : Z) :
  (0 <= t)%Z ->
  is_digit (last before " "%char) = false ->
  exists m,
    In m (markers (before ++ marker_line t ++ after)) /\
    index m = S (length before) /\
    matched m = marker_text t /\
    timestamp_of m = t.
Proof.
  intros Ht Hlast.
  pose proof (own_marker_enumerated before after t Ht Hlast) as Hin.
  exists (own_marker (length before) t).
  split; [exact Hin|]. split; [reflexivity|]. split; [reflexivity|].
  exact (own_marker_timestamp _ _ _ Hin).
Qed.

Lemma marker_found_in_context_witness :
  exists m,
    In m (markers (lit "old line" ++ marker_line 1700000000000 ++ newline)) /\
    index m = S (length (lit "old line")) /\
    matched m = marker_text 1700000000000 /\
    timestamp_of m = 1700000000000%Z.
Proof.
  apply (marker_found_in_context (lit "old line") newline 1700000000000).
  - lia.
  - reflexivity.
Defined.

(** X7. A cycle run with [ttl > 0] on a file that is there and is empty or
    does not end in a digit, at a time [currentTime >= 0], with the second
    reading of the clock less than [currentTime + ttl*1000], leaves a file
    that holds the marker of the cycle as an Age Marker, with its timestamp:
    in the Deno implementation, and in the Node one when the stream has
    handed the marker to the file before the read. *)
Theorem cycle_keeps_its_marker (ttl : Z) (separator : str) :
  (forall (w : NodeSink.World) (f : NodeSink.File),
     let currentTime := first_reading (NodeSink.clock w) in
     NodeSink.file w = Some f ->
     NodeSink.stream_open w = true ->
     (0 <= currentTime)%Z ->
     is_digit (last (NodeSink.content f ++ NodeSink.pending w) " "%char) = false ->
     (second_reading (NodeSink.clock w) < currentTime + ttl * 1000)%Z ->
     exists f',
       NodeSink.file (NodeSink.onInterval (Some ttl) separator true w) = Some f' /\
       exists m', In m' (markers (NodeSink.content f')) /\
                  matched m' = marker_text currentTime /\
                  timestamp_of m' = currentTime) /\
  (forall (w : DenoSink.World) (f : DenoSink.File),
     let currentTime := first_reading (DenoSink.clock w) in
     DenoSink.file w = Some f ->
     DenoSink.writer_open w = true ->
     (0 <= currentTime)%Z ->
     is_digit (last (DenoSink.content f) " "%char) = false ->
     (second_reading (DenoSink.clock w) < currentTime + ttl * 1000)%Z ->
     exists f',
       DenoSink.file (DenoSink.onInterval (Some ttl) separator w) = Some f' /\
       exists m', In m' (markers (DenoSink.content f')) /\
                  matched m' = marker_text currentTime /\
                  timestamp_of m' = currentTime).
Proof.
  split.
  - intros w f currentTime Hf Ho H0 Hlast Ht.
    pose proof (own_marker_enumerated _ separator _ H0 Hlast) as Hin.
    rewrite (node_onInterval_flushed _ _ _ _ Hf Ho). cbn [NodeSink.file].
    eexists; split; [reflexivity|]. cbn [NodeSink.content].
    rewrite <- app_assoc in Hin.
    eapply (own_marker_kept _ _ _ _ Hin); [|left; reflexivity].
    rewrite expiry_Some. fold currentTime. lia.
  - intros w f currentTime Hf Ho H0 Hlast Ht.
    pose proof (own_marker_enumerated _ separator _ H0 Hlast) as Hin.
    rewrite (deno_onInterval_open _ _ _ _ Hf Ho). cbn [DenoSink.file].
    eexists; split; [reflexivity|]. cbn [DenoSink.content].
    eapply (own_marker_kept _ _ _ _ Hin); [|right; reflexivity].
    rewrite expiry_Some. fold currentTime. lia.
Qed.

Lemma cycle_keeps_its_marker_witness :
  (exists f',
     NodeSink.file (NodeSink.onInterval (Some 1%Z) newline true
                      (node_world (still_clock 1700000000000) (lit "old line"))) = Some f' /\
     exists m', In m' (markers (NodeSink.content f')) /\
                matched m' = marker_text 1700000000000 /\
                timestamp_of m' = 1700000000000%Z) /\
  (exists f',
     DenoSink.file (DenoSink.onInterval (Some 1%Z) newline
                      (deno_world (still_clock 1700000000000) (lit "old line"))) = Some f' /\
     exists m', In m' (markers (DenoSink.content f')) /\
                matched m' = marker_text 1700000000000 /\
                timestamp_of m' = 1700000000000%Z).
Proof.
  split.
  - apply (proj1 (cycle_keeps_its_marker 1 newline)
             (node_world (still_clock 1700000000000) (lit "old line"))
             (NodeSink.mkFile (lit "old line") (NodeSink.mkStats 0))).
    + reflexivity.
    + reflexivity.
    + vm_compute. discriminate.
    + reflexivity.
    + vm_compute. reflexivity.
  - apply (proj2 (cycle_keeps_its_marker 1 newline)
             (deno_world (still_clock 1700000000000) (lit "old line"))
             (DenoSink.mkFile (lit "old line") (DenoSink.mkFileInfo (Some 0%Z) (Some 0%Z)))).
    + reflexivity.
    + reflexivity.
    + vm_compute. discriminate.
    + reflexivity.
    + vm_compute. reflexivity.
Defined.

(** ** The Node cycle when the write is late *)


(** * The life of a logger *)

(** ** Logging *)

Lemma written_cons (separator log : str) (logs : list str) :
  written separator (log :: logs) = log ++ separator ++ written separator logs.
Proof. unfold written. cbn [map concat]. rewrite <- app_assoc. reflexivity. Qed.

Lemma deno_log_all_rejected (separator : str) (logs : list str) :
  fold_left (fun ow log =>
               match ow with
               | Some w => DenoSink.appendLog separator log w
               | None => None
               end) logs None = None.
Proof. induction logs as [|l logs IH]; [reflexivity | exact IH]. Qed.

Lemma deno_log_all_open (separator : str) (logs : list str) :
  forall (w : DenoSink.World) (f : DenoSink.File),
    DenoSink.file w = Some f ->
    DenoSink.writer_open w = true ->
    deno_log_all separator logs w =
    Some (DenoSink.set_file
            (Some (DenoSink.mkFile (DenoSink.content f ++ written separator logs)
                     (DenoSink.info f))) w).
Proof.
  induction logs as [|l logs IH]; intros w f Hf Ho.
  - unfold deno_log_all, written. cbn [fold_left map concat].
    rewrite app_nil_r. destruct w as [c fl wo ho iv ni].
    cbn [DenoSink.file] in Hf. subst fl. destruct f; reflexivity.
  - unfold deno_log_all. cbn [fold_left].
    unfold DenoSink.appendLog at 2. rewrite Ho, Hf.
    fold (deno_log_all separator logs
            (DenoSink.set_file
               (Some (DenoSink.mkFile (DenoSink.content f ++ l ++ separator)
                        (DenoSink.info f))) w)).
    rewrite (IH _ (DenoSink.mkFile (DenoSink.content f ++ l ++ separator)
                     (DenoSink.info f)));
      [|reflexivity|exact Ho].
    cbn [DenoSink.content DenoSink.info]. rewrite written_cons, <- !app_assoc.
    reflexivity.
Qed.

(** X9. In the Deno implementation, the logs given to a logger whose file
    is there and whose writer is open end up in the file in the order of
    the calls, each followed by the separator, after what the file held;
    nothing else changes.  Once the writer is closed every call is
    rejected. *)
Theorem deno_logs_accumulate (separator : str) (logs : list str)
    (w : DenoSink.World) :
  (forall f,
     DenoSink.file w = Some f ->
     DenoSink.writer_open w = true ->
     deno_log_all separator logs w =
     Some (DenoSink.set_file
             (Some (DenoSink.mkFile (DenoSink.content f ++ written separator logs)
                      (DenoSink.info f))) w)) /\
  (DenoSink.writer_open w = false -> logs <> [] ->
   deno_log_all separator logs w = None).
Proof.
  split.
  - intros f. apply deno_log_all_open.
  - intros Hc Hne. destruct logs as [|l logs]; [congruence|].
    unfold deno_log_all. cbn [fold_left]. unfold DenoSink.appendLog at 2.
    rewrite Hc. apply deno_log_all_rejected.
Qed.

Lemma deno_logs_accumulate_witness :
  deno_log_all newline [lit "a"; lit "b"] (deno_world (still_clock 0) (lit "x")) =
  Some (DenoSink.set_file
          (Some (DenoSink.mkFile (lit "x" ++ written newline [lit "a"; lit "b"])
                   (DenoSink.mkFileInfo (Some 0%Z) (Some 0%Z))))
          (deno_world (still_clock 0) (lit "x"))) /\
  deno_log_all newline [lit "a"; lit "b"]
    (DenoSink.dispose (DenoSink.mkSink None) (deno_world (still_clock 0) (lit "x"))) = None.
Proof.
  split.
  - apply (proj1 (deno_logs_accumulate newline [lit "a"; lit "b"]
                    (deno_world (still_clock 0) (lit "x")))
             (DenoSink.mkFile (lit "x") (DenoSink.mkFileInfo (Some 0%Z) (Some 0%Z))));
      reflexivity.
  - apply (proj2 (deno_logs_accumulate newline [lit "a"; lit "b"]
                    (DenoSink.dispose (DenoSink.mkSink None)
                       (deno_world (still_clock 0) (lit "x")))));
      [reflexivity | discriminate].
Defined.

Lemma node_log_all_pending (separator : str) (logs : list str) (w : NodeSink.World) :
  NodeSink.stream_open w = true ->
  node_log_all separator logs w =
  NodeSink.set_pending (NodeSink.pending w ++ written separator logs) w.
Proof.
  revert w. induction logs as [|l logs IH]; intros w Ho.
  - unfold node_log_all, written. cbn [fold_left map concat]. rewrite app_nil_r.
    destruct w; reflexivity.
  - unfold node_log_all. cbn [fold_left]. unfold NodeSink.appendLog at 2. rewrite Ho.
    fold (node_log_all separator logs
            (NodeSink.set_pending (NodeSink.pending w ++ l ++ separator) w)).
    rewrite IH by exact Ho. rewrite written_cons.
    unfold NodeSink.set_pending. cbn [NodeSink.clock NodeSink.file NodeSink.pending
      NodeSink.stream_open NodeSink.intervals NodeSink.next_interval].
    rewrite <- !app_assoc. reflexivity.
Qed.

(** X10. In the Node implementation, [dispose] after any number of calls of
    the logger, on a file that is there, leaves in the file what it held,
    then what the stream still held, then every log in the order of the
    calls, each followed by the separator; the stream is closed and empty,
    and a call of the logger after that changes nothing. *)
Theorem node_dispose_hands_over (separator : str) (logs : list str)
    (w : NodeSink.World) (f : NodeSink.File) :
  NodeSink.file w = Some f ->
  NodeSink.stream_open w = true ->
  let w' := NodeSink.dispose (node_log_all separator logs w) in
  NodeSink.file w' =
    Some (NodeSink.mkFile
            (NodeSink.content f ++ NodeSink.pending w ++ written separator logs)
            (NodeSink.stats f)) /\
  NodeSink.pending w' = [] /\
  NodeSink.stream_open w' = false /\
  forall log, NodeSink.appendLog separator log w' = w'.
Proof.
  intros Hf Ho w'. unfold w'. rewrite (node_log_all_pending _ _ _ Ho).
  destruct w as [c fl p so iv ni].
  cbn [NodeSink.file NodeSink.stream_open NodeSink.pending] in *. subst fl so.
  unfold NodeSink.dispose, NodeSink.flush, NodeSink.set_pending, NodeSink.set_file,
    NodeSink.set_stream_open, NodeSink.appendLog.
  cbn [NodeSink.file NodeSink.stream_open NodeSink.pending NodeSink.clock
       NodeSink.intervals NodeSink.next_interval NodeSink.content NodeSink.stats].
  repeat split.
Qed.

Lemma node_dispose_hands_over_witness :
  let w' := NodeSink.dispose (node_log_all newline [lit "a"; lit "b"]
                                (node_world (still_clock 0) (lit "x"))) in
  NodeSink.file w' =
    Some (NodeSink.mkFile (lit "x" ++ [] ++ written newline [lit "a"; lit "b"])
            (NodeSink.mkStats 0)) /\
  NodeSink.pending w' = [] /\
  NodeSink.stream_open w' = false /\
  forall log, NodeSink.appendLog newline log w' = w'.
Proof.
  apply (node_dispose_hands_over newline [lit "a"; lit "b"]
           (node_world (still_clock 0) (lit "x"))
           (NodeSink.mkFile (lit "x") (NodeSink.mkStats 0)));
    reflexivity.
Defined.
(** ** Timers *)

Lemma deno_expire_check_frame (expireDuration : option Z) (w : DenoSink.World) :
  DenoSink.intervals (DenoSink.expire_check expireDuration w) = DenoSink.intervals w /\
  DenoSink.next_interval (DenoSink.expire_check expireDuration w)
    = DenoSink.next_interval w.
Proof.
  destruct w as [c fl wo ho iv ni].
  unfold DenoSink.expire_check, DenoSink.existsSync, DenoSink.removeSync,
    DenoSink.set_clock, DenoSink.set_file, Date_now.
  cbn [DenoSink.file DenoSink.clock].
  destruct (truthy expireDuration); [|split; reflexivity].
  destruct fl as [f|]; [|split; reflexivity]. cbn [andb].
  destruct (DenoSink.birthtime (DenoSink.info f)) as [b|];
    [|destruct (DenoSink.mtime (DenoSink.info f)) as [m|]];
    match goal with
    | |- context [exceeds ?x ?y] => destruct (exceeds x y)
    end; split; reflexivity.
Qed.

Lemma deno_onInterval_frame (ttl : option Z) (separator : str) (w : DenoSink.World) :
  DenoSink.intervals (DenoSink.onInterval ttl separator w) = DenoSink.intervals w.
Proof.
  destruct w as [c fl wo ho iv ni].
  unfold DenoSink.onInterval, DenoSink.existsSync, DenoSink.appendLog,
    DenoSink.writeTextFile, DenoSink.set_clock, DenoSink.set_file, Date_now.
  cbn [DenoSink.file DenoSink.clock DenoSink.writer_open].
  destruct fl as [f|]; [|reflexivity]. cbn [negb].
  destruct wo; [|reflexivity].
  cbn [DenoSink.file DenoSink.clock DenoSink.content].
  rewrite deno_retained_cut. reflexivity.
Qed.

Lemma filter_out_absent (id : positive) (l : list positive) :
  ~ In id l -> filter (fun i => negb (Pos.eqb id i)) l = l.
Proof.
  induction l as [|x l IH]; intros Hnot; [reflexivity|].
  cbn [filter]. destruct (Pos.eqb_spec id x) as [->|Hne].
  - exfalso. apply Hnot. left. reflexivity.
  - cbn [negb]. f_equal. apply IH. intros Hin. apply Hnot. right. exact Hin.
Qed.

(** X11. In the Deno implementation, making a logger and disposing of it
    leaves armed exactly the timers that were armed before, whatever the
    options, provided the identifier the next timer gets is not in use:
    the logger's own timer is disarmed and no other one is touched. *)
Theorem deno_create_dispose_restores_timers (created : DenoSink.FileInfo)
    (expireDuration ttl : option Z) (separator : str) (w : DenoSink.World) :
  ~ In (DenoSink.next_interval w) (DenoSink.intervals w) ->
  let s := fst (DenoSink.createFileLogger created expireDuration ttl separator w) in
  let w1 := snd (DenoSink.createFileLogger created expireDuration ttl separator w) in
  DenoSink.intervals (DenoSink.dispose s w1) = DenoSink.intervals w.
Proof.
  intros Hfresh s w1. subst s w1. unfold DenoSink.createFileLogger.
  cbv zeta.
  set (w0 := DenoSink.expire_check expireDuration
               (DenoSink.openSync (DenoSink.ensureFileSync created w))).
  assert (Hiv : DenoSink.intervals w0 = DenoSink.intervals w /\
                DenoSink.next_interval w0 = DenoSink.next_interval w).
  { unfold w0. destruct (deno_expire_check_frame expireDuration
      (DenoSink.openSync (DenoSink.ensureFileSync created w))) as [-> ->].
    unfold DenoSink.openSync, DenoSink.ensureFileSync, DenoSink.set_file.
    destruct (DenoSink.file w); split; reflexivity. }
  destruct Hiv as [Hiv Hni].
  destruct (truthy ttl).
  - unfold DenoSink.setInterval. cbn [fst snd].
    unfold DenoSink.dispose. cbn [DenoSink.intervalId DenoSink.intervals].
    unfold DenoSink.clearInterval. cbn [DenoSink.intervals].
    rewrite deno_onInterval_frame. cbn [DenoSink.intervals filter].
    rewrite Pos.eqb_refl. cbn [negb]. rewrite Hni, Hiv.
    apply filter_out_absent. exact Hfresh.
  - cbn [fst snd]. unfold DenoSink.dispose.
    cbn [DenoSink.intervalId DenoSink.intervals]. exact Hiv.
Qed.

Lemma deno_create_dispose_restores_timers_witness :
  DenoSink.intervals
    (DenoSink.dispose
       (fst (DenoSink.createFileLogger (created_at 0) None (Some 1%Z) newline
               (DenoSink.mkWorld (still_clock 0) None false false [2%positive] 5)))
       (snd (DenoSink.createFileLogger (created_at 0) None (Some 1%Z) newline
               (DenoSink.mkWorld (still_clock 0) None false false [2%positive] 5))))
  = [2%positive].
Proof.
  apply (deno_create_dispose_restores_timers (created_at 0) None (Some 1%Z) newline
           (DenoSink.mkWorld (still_clock 0) None false false [2%positive] 5)).
  cbn [DenoSink.next_interval DenoSink.intervals In]. intros [H|[]]. discriminate H.
Defined.

(** ** A logger whose file is gone *)

Lemma deno_step_without_file (ttl : option Z) (separator : str)
    (w : DenoSink.World) (ev : deno_event) :
  DenoSink.file w = None -> deno_step ttl separator w ev = w.
Proof.
  intros Hf. destruct ev as [log|id]; cbn [deno_step].
  - unfold DenoSink.appendLog. rewrite Hf. destruct (DenoSink.writer_open w); reflexivity.
  - unfold DenoSink.tick, DenoSink.onInterval, DenoSink.existsSync. rewrite Hf.
    destruct (existsb _ _); reflexivity.
Qed.

(** X12. In the Deno implementation, when the constructor leaves nothing at
    [filepath] (the check of the age has removed the file), nothing the
    logger does afterwards changes that or anything else: every log goes to
    the handle of the removed file and every cycle returns at once. *)
Theorem deno_logger_without_file_is_inert (created : DenoSink.FileInfo)
    (expireDuration ttl : option Z) (separator : str) (w : DenoSink.World)
    (events : list deno_event) :
  let w1 := snd (DenoSink.createFileLogger created expireDuration ttl separator w) in
  DenoSink.file w1 = None ->
  deno_run ttl separator events w1 = w1.
Proof.
  intros w1 Hf. unfold deno_run.
  induction events as [|ev events IH]; [reflexivity|].
  cbn [fold_left]. rewrite (deno_step_without_file _ _ _ _ Hf). exact IH.
Qed.

Lemma deno_logger_without_file_is_inert_witness :
  let w1 := snd (DenoSink.createFileLogger (created_at 0) (Some 60%Z) (Some 3600%Z) newline
                   (deno_world (still_clock 1700000000000) (lit "old"))) in
  deno_run (Some 3600%Z) newline [Log (lit "a"); Due 1%positive; Log (lit "b")] w1 = w1.
Proof.
  apply (deno_logger_without_file_is_inert (created_at 0) (Some 60%Z) (Some 3600%Z) newline
           (deno_world (still_clock 1700000000000) (lit "old"))
           [Log (lit "a"); Due 1%positive; Log (lit "b")]).
  vm_compute. reflexivity.
Defined.

(** ** A logger without [ttl] *)

(** X13. In the Deno implementation, a logger made without [ttl] (absent
    or [0]) and without [expireDuration] sets no timer, and the file only
    grows: after any number of calls it holds what it held before the
    constructor ran (nothing, when the constructor had to create it),
    followed by every log in the order of the calls, each followed by the
    separator. *)
Theorem deno_without_ttl_file_grows (created : DenoSink.FileInfo)
    (expireDuration ttl : option Z) (separator : str) (w : DenoSink.World)
    (logs : list str) :
  truthy ttl = false ->
  truthy expireDuration = false ->
  let s := fst (DenoSink.createFileLogger created expireDuration ttl separator w) in
  let w1 := snd (DenoSink.createFileLogger created expireDuration ttl separator w) in
  let f0 := match DenoSink.file w with
            | Some f => f
            | None => DenoSink.mkFile [] created
            end in
  DenoSink.intervalId s = None /\
  DenoSink.intervals w1 = DenoSink.intervals w /\
  exists w2,
    deno_log_all separator logs w1 = Some w2 /\
    DenoSink.file w2 =
      Some (DenoSink.mkFile (DenoSink.content f0 ++ written separator logs)
              (DenoSink.info f0)) /\
    DenoSink.intervals w2 = DenoSink.intervals w.
Proof.
  intros Httl Hed s w1 f0. subst s w1.
  unfold DenoSink.createFileLogger. cbv zeta. rewrite Httl. cbn [fst snd].
  unfold DenoSink.expire_check. rewrite Hed. cbn [andb].
  split; [reflexivity|].
  set (w0 := DenoSink.openSync (DenoSink.ensureFileSync created w)).
  assert (Hw0 : DenoSink.file w0 = Some f0 /\ DenoSink.writer_open w0 = true /\
                DenoSink.intervals w0 = DenoSink.intervals w).
  { unfold w0, f0, DenoSink.openSync, DenoSink.ensureFileSync, DenoSink.set_file.
    destruct (DenoSink.file w) eqn:E; cbn [DenoSink.file DenoSink.writer_open
      DenoSink.intervals]; rewrite ?E; repeat split. }
  destruct Hw0 as (Hf & Ho & Hiv). split; [exact Hiv|].
  eexists. split; [exact (deno_log_all_open separator logs w0 f0 Hf Ho)|].
  split; [reflexivity | exact Hiv].
Qed.

Lemma deno_without_ttl_file_grows_witness :
  let w := deno_world (still_clock 0) (lit "x") in
  let s := fst (DenoSink.createFileLogger (created_at 0) None (Some 0%Z) newline w) in
  let w1 := snd (DenoSink.createFileLogger (created_at 0) None (Some 0%Z) newline w) in
  DenoSink.intervalId s = None /\
  DenoSink.intervals w1 = DenoSink.intervals w /\
  exists w2,
    deno_log_all newline [lit "a"; lit "b"] w1 = Some w2 /\
    DenoSink.file w2 =
      Some (DenoSink.mkFile (lit "x" ++ written newline [lit "a"; lit "b"])
              (DenoSink.mkFileInfo (Some 0%Z) (Some 0%Z))) /\
    DenoSink.intervals w2 = DenoSink.intervals w.
Proof.
  apply (deno_without_ttl_file_grows (created_at 0) None (Some 0%Z) newline
           (deno_world (still_clock 0) (lit "x")) [lit "a"; lit "b"]);
    reflexivity.
Defined.
(** ** After disposal *)

(** X14. A Deno logger that has been disposed of is inert: every later call
    of it is rejected and its timer, had it one, runs nothing; the world
    stays as [dispose] left it. *)
Theorem deno_disposed_logger_is_inert (created : DenoSink.FileInfo)
    (expireDuration ttl : option Z) (separator : str) (w : DenoSink.World)
    (events : list deno_event) :
  let s := fst (DenoSink.createFileLogger created expireDuration ttl separator w) in
  let w1 := snd (DenoSink.createFileLogger created expireDuration ttl separator w) in
  Forall (fun ev => match ev with
                    | Due id => DenoSink.intervalId s = Some id
                    | Log _ => True
                    end) events ->
  deno_run ttl separator events (DenoSink.dispose s w1) = DenoSink.dispose s w1.
Proof.
  intros s w1 Hev. unfold deno_run.
  induction Hev as [|ev events Hev _ IH]; [reflexivity|].
  cbn [fold_left].
  replace (deno_step ttl separator (DenoSink.dispose s w1) ev)
    with (DenoSink.dispose s w1); [exact IH|].
  destruct ev as [log|id]; cbn [deno_step].
  - reflexivity.
  - symmetry.
    apply (deno_dispose_cancels created expireDuration ttl separator w). exact Hev.
Qed.

Lemma deno_disposed_logger_is_inert_witness :
  let w := deno_world (still_clock 1700000000000) (lit "x") in
  let s := fst (DenoSink.createFileLogger (created_at 0) None (Some 1%Z) newline w) in
  let w1 := snd (DenoSink.createFileLogger (created_at 0) None (Some 1%Z) newline w) in
  deno_run (Some 1%Z) newline [Log (lit "a"); Due 1%positive; Log (lit "b")]
    (DenoSink.dispose s w1) = DenoSink.dispose s w1.
Proof.
  apply (deno_disposed_logger_is_inert (created_at 0) None (Some 1%Z) newline
           (deno_world (still_clock 1700000000000) (lit "x"))
           [Log (lit "a"); Due 1%positive; Log (lit "b")]).
  repeat constructor.
Defined.

(** ** The file after the constructor *)

Lemma node_onInterval_file (ttl : option Z) (separator : str) (flushed : bool)
    (w : NodeSink.World) :
  NodeSink.file (NodeSink.onInterval ttl separator flushed w) = None <->
  NodeSink.file w = None.
Proof.
  destruct w as [c fl p so iv ni].
  unfold NodeSink.onInterval, NodeSink.existsSync, NodeSink.appendLog,
    NodeSink.flush, NodeSink.writeFileSync, NodeSink.set_clock, NodeSink.set_file,
    NodeSink.set_pending, Date_now.
  cbn [NodeSink.file NodeSink.clock NodeSink.stream_open NodeSink.pending].
  destruct fl as [f|]; [|split; reflexivity]. cbn [negb].
  destruct so, flushed;
    cbn [NodeSink.file NodeSink.clock NodeSink.stream_open NodeSink.pending
         NodeSink.content];
    rewrite node_retained_cut; cbn [NodeSink.file];
    split; intros H; discriminate H.
Qed.

Lemma deno_onInterval_file (ttl : option Z) (separator : str) (w : DenoSink.World) :
  DenoSink.file (DenoSink.onInterval ttl separator w) = None <->
  DenoSink.file w = None.
Proof.
  destruct w as [c fl wo ho iv ni].
  unfold DenoSink.onInterval, DenoSink.existsSync, DenoSink.appendLog,
    DenoSink.writeTextFile, DenoSink.set_clock, DenoSink.set_file, Date_now.
  cbn [DenoSink.file DenoSink.clock DenoSink.writer_open].
  destruct fl as [f|]; [|split; reflexivity]. cbn [negb].
  destruct wo; cbn [DenoSink.file DenoSink.clock DenoSink.content];
    rewrite ?deno_retained_cut; cbn [DenoSink.file];
    split; intros H; discriminate H.
Qed.

(** X15. In the Node implementation, after the whole constructor has run
    (the check of the age, then, with [ttl], the first cycle) a file that
    was at [filepath] is gone exactly when [expireDuration] is set (not
    absent, not [0]) and [Date.now()] minus the creation time of the file is
    strictly more than [expireDuration * 1000]; a file that was not there is
    not made by the constructor. *)
Theorem node_file_after_constructor (expireDuration ttl : option Z)
    (separator : str) (w : NodeSink.World) :
  let w1 := NodeSink.createFileLogger expireDuration ttl separator w in
  (NodeSink.file w = None -> NodeSink.file w1 = None) /\
  (forall f, NodeSink.file w = Some f ->
     (NodeSink.file w1 = None <->
      truthy expireDuration = true /\
      (first_reading (NodeSink.clock w) - NodeSink.birthtime (NodeSink.stats f)
       > or_zero expireDuration * 1000)%Z)).
Proof.
  intros w1.
  assert (Hw1 : NodeSink.file w1 = None <->
                NodeSink.file (NodeSink.expire_check expireDuration
                                 (NodeSink.createWriteStream w)) = None).
  { unfold w1, NodeSink.createFileLogger. cbv zeta.
    destruct (truthy ttl); [|reflexivity].
    rewrite node_onInterval_file. unfold NodeSink.setInterval.
    cbn [NodeSink.file]. reflexivity. }
  pose proof (node_expire_check_removes expireDuration w) as Hc. cbv zeta in Hc.
  split.
  - intros Hnone. apply Hw1.
    destruct w as [c fl p so iv ni]. cbn [NodeSink.file] in Hnone. subst fl.
    unfold NodeSink.expire_check, NodeSink.createWriteStream, NodeSink.existsSync,
      NodeSink.set_stream_open, NodeSink.set_pending.
    cbn [NodeSink.file]. rewrite andb_false_r. reflexivity.
  - intros f Hf. rewrite Hw1. split.
    + intros Hnone.
      assert (Hsome : NodeSink.file w <> None) by (rewrite Hf; discriminate).
      destruct (proj1 Hc (conj Hsome Hnone)) as (Ht & f' & Hf' & Hgt).
      rewrite Hf in Hf'. injection Hf' as <-. split; assumption.
    + intros [Ht Hgt]. apply Hc. split; [exact Ht|]. exists f. split; assumption.
Qed.

Lemma node_file_after_constructor_witness :
  let w := node_world (still_clock 1700000000000) (lit "old") in
  (NodeSink.file w = None ->
   NodeSink.file (NodeSink.createFileLogger (Some 60%Z) (Some 1%Z) newline w) = None) /\
  (NodeSink.file (NodeSink.createFileLogger (Some 60%Z) (Some 1%Z) newline w) = None <->
   truthy (Some 60%Z) = true /\
   (first_reading (NodeSink.clock w) - 0 > or_zero (Some 60%Z) * 1000)%Z).
Proof.
  pose proof (node_file_after_constructor (Some 60%Z) (Some 1%Z) newline
                (node_world (still_clock 1700000000000) (lit "old"))) as [H1 H2].
  split; [exact H1|].
  apply (H2 (NodeSink.mkFile (lit "old") (NodeSink.mkStats 0))). reflexivity.
Defined.

(** X16. In the Deno implementation, after the whole constructor has run
    nothing is at [filepath] exactly when [expireDuration] is set (not
    absent, not [0]) and the age exceeds it, where the age is measured on
    the file that was there or, when none was, on the file the constructor
    has just created: from the creation time, else from the modification
    time, else between two readings of the clock. *)
Theorem deno_file_after_constructor (created : DenoSink.FileInfo)
    (expireDuration ttl : option Z) (separator : str) (w : DenoSink.World) :
  let w1 := snd (DenoSink.createFileLogger created expireDuration ttl separator w) in
  let i := match DenoSink.file w with
           | Some f => DenoSink.info f
           | None => created
           end in
  let age := match DenoSink.birthtime i, DenoSink.mtime i with
             | Some b, _ => (first_reading (DenoSink.clock w) - b)%Z
             | None, Some m => (first_reading (DenoSink.clock w) - m)%Z
             | None, None =>
                 (second_reading (DenoSink.clock w) - first_reading (DenoSink.clock w))%Z
             end in
  DenoSink.file w1 = None <->
  (truthy expireDuration = true /\ (age > or_zero expireDuration * 1000)%Z).
Proof.
  intros w1 i age. subst age i.
  etransitivity; [|exact (deno_expire_check_removes created expireDuration w)].
  unfold w1, DenoSink.createFileLogger. cbv zeta.
  destruct (truthy ttl); cbn [snd]; [|reflexivity].
  unfold DenoSink.setInterval. cbn [snd].
  rewrite deno_onInterval_file. cbn [DenoSink.file]. reflexivity.
Qed.
(** ** The two loops side by side *)

(** X17. On every content and cut-off the Node loop keeps a suffix of what
    the Deno loop keeps, and the two keep the same when some Age Marker is
    newer than the cut-off. *)
Theorem node_keeps_suffix_of_deno (expiryTimestamp : Z) (content : str) :
  exists kn kd,
    NodeSink.retained expiryTimestamp content = Some kn /\
    DenoSink.retained expiryTimestamp content = Some kd /\
    suffix_of kn kd /\
    ((exists m, In m (markers content) /\ (timestamp_of m > expiryTimestamp)%Z) ->
     kn = kd).
Proof.
  rewrite node_retained_cut, deno_retained_cut. unfold node_cut, deno_cut.
  destruct (find (fresh expiryTimestamp) (markers content)) as [m1|] eqn:Hf;
    eexists; eexists; (split; [reflexivity|split; [reflexivity|]]).
  - split; [apply suffix_of_refl | reflexivity].
  - split; [apply substring_suffix|].
    intros (m & Hin & Hts). apply no_fresh_iff in Hf.
    rewrite Forall_forall in Hf. specialize (Hf _ Hin). lia.
Qed.

(** * The formatter, further *)

Lemma split_lines_nonempty (s : str) : Stringify.split_lines s <> [].
Proof.
  destruct s as [|c s]; cbn [Stringify.split_lines]; [discriminate|].
  destruct (Ascii.eqb c "010"%char); [discriminate|].
  destruct (Stringify.split_lines s); discriminate.
Qed.

(** Joining the lines a string was split into gives the string back. *)
Lemma join_split_lines (s : str) :
  Stringify.join_lines (Stringify.split_lines s) = s.
Proof.
  induction s as [|c s IH]; [reflexivity|].
  cbn [Stringify.split_lines].
  pose proof (split_lines_nonempty s) as Hne.
  destruct (Ascii.eqb_spec c "010"%char) as [->|_].
  - destruct (Stringify.split_lines s) as [|l ls] eqn:E; [congruence|].
    cbn [Stringify.join_lines app]. cbn [Stringify.join_lines] in IH.
    rewrite IH. reflexivity.
  - destruct (Stringify.split_lines s) as [|l ls]; [congruence|].
    destruct ls as [|l' ls]; cbn [Stringify.join_lines app] in *;
      rewrite <- IH; reflexivity.
Qed.

(** A string without a newline is one line. *)
Lemma split_lines_single (s : str) :
  forallb (fun c => negb (Ascii.eqb c "010"%char)) s = true ->
  Stringify.split_lines s = [s].
Proof.
  induction s as [|c s IH]; [reflexivity|].
  cbn [forallb Stringify.split_lines]. intros H.
  apply andb_true_iff in H as [Hc Hs].
  destruct (Ascii.eqb c "010"%char); [discriminate Hc|].
  rewrite (IH Hs). reflexivity.
Qed.

Section FormatterFurther.

Variable util_format : list Stringify.value -> str.
Variable toISOString : Z -> str.

(** X18. With nothing to add (no static prefix or the empty one, a call-time
    prefix that is [null] or empty, no timestamp mode) the formatter returns
    [util.format(...args)] as it is and does not read the clock, with
    [forEachLine] as without it: splitting at the newlines and joining
    again changes nothing. *)
Theorem formatter_adds_nothing (forEachLine : bool) (options : Stringify.Options)
    (prefix : option str) (args : list Stringify.value) (c : Clock) :
  Stringify.truthy_str (Stringify.addPrefix options) = false ->
  Stringify.truthy_str prefix = false ->
  Stringify.addTs options = None ->
  Stringify.createStringifyLogger util_format toISOString forEachLine options
    prefix args c
  = (util_format args, c).
Proof.
  intros Ha Hp Hts. unfold Stringify.createStringifyLogger.
  rewrite Ha, Hp, Hts. cbn [hd].
  destruct forEachLine; [rewrite join_split_lines|]; reflexivity.
Qed.

(** X19. When the base string [util.format(...args)] holds no newline,
    [forEachLine] makes no difference, whatever the options, the prefix and
    the clock. *)
Theorem forEachLine_irrelevant_on_one_line (options : Stringify.Options)
    (prefix : option str) (args : list Stringify.value) (c : Clock) :
  forallb (fun ch => negb (Ascii.eqb ch "010"%char)) (util_format args) = true ->
  Stringify.createStringifyLogger util_format toISOString true options prefix args c
  = Stringify.createStringifyLogger util_format toISOString false options prefix args c.
Proof.
  intros H. unfold Stringify.createStringifyLogger. cbn [hd].
  rewrite (split_lines_single _ H). reflexivity.
Qed.

End FormatterFurther.

Lemma formatter_adds_nothing_witness :
  Stringify.createStringifyLogger plain_format plain_iso true
    (Stringify.mkOptions (Some []) None) None
    [Stringify.VString (lit "a"); Stringify.VNumber 1] (still_clock 0)
  = (plain_format [Stringify.VString (lit "a"); Stringify.VNumber 1], still_clock 0).
Proof.
  apply (formatter_adds_nothing plain_format plain_iso true
           (Stringify.mkOptions (Some []) None) None
           [Stringify.VString (lit "a"); Stringify.VNumber 1] (still_clock 0));
    reflexivity.
Defined.

Lemma forEachLine_irrelevant_on_one_line_witness :
  Stringify.createStringifyLogger plain_format plain_iso true
    (Stringify.mkOptions (Some (lit "PFX")) (Some Stringify.epoch)) (Some (lit "CTX"))
    [Stringify.VString (lit "msg")] (still_clock 1700000000000)
  = Stringify.createStringifyLogger plain_format plain_iso false
      (Stringify.mkOptions (Some (lit "PFX")) (Some Stringify.epoch)) (Some (lit "CTX"))
      [Stringify.VString (lit "msg")] (still_clock 1700000000000).
Proof.
  apply (forEachLine_irrelevant_on_one_line plain_format plain_iso
           (Stringify.mkOptions (Some (lit "PFX")) (Some Stringify.epoch))
           (Some (lit "CTX")) [Stringify.VString (lit "msg")]
           (still_clock 1700000000000)).
  reflexivity.
Defined.
(** * Every cycle keeps its marker *)

Lemma last_app_nonempty (a s : str) (d d' : ascii) :
  s <> [] -> last (a ++ s) d = last s d'.
Proof.
  intros Hne. destruct (exists_last Hne) as (s' & x & ->).
  rewrite app_assoc, !last_last. reflexivity.
Qed.

Lemma ends_clean_app (a s : str) :
  s <> [] -> ends_clean s = true -> ends_clean (a ++ s) = true.
Proof.
  intros Hne H. unfold ends_clean in *.
  rewrite (last_app_nonempty a s _ " "%char Hne). exact H.
Qed.

(** One Deno cycle in good conditions: what it leaves ends with the
    separator and holds the marker of the cycle. *)
Lemma deno_good_cycle (ttl : Z) (separator : str) (w : DenoSink.World)
    (f : DenoSink.File) :
  DenoSink.file w = Some f ->
  DenoSink.writer_open w = true ->
  ends_clean (DenoSink.content f) = true ->
  (0 <= first_reading (DenoSink.clock w))%Z ->
  (second_reading (DenoSink.clock w)
   < first_reading (DenoSink.clock w) + ttl * 1000)%Z ->
  exists body,
    DenoSink.onInterval (Some ttl) separator w =
    DenoSink.mkWorld (advance 2 (DenoSink.clock w))
      (Some (DenoSink.mkFile (body ++ separator) (DenoSink.info f)))
      true (DenoSink.handle_open w) (DenoSink.intervals w) (DenoSink.next_interval w) /\
    exists m', In m' (markers (body ++ separator)) /\
               matched m' = marker_text (first_reading (DenoSink.clock w)) /\
               timestamp_of m' = first_reading (DenoSink.clock w).
Proof.
  intros Hf Ho Hclean H0 Ht.
  set (ct := first_reading (DenoSink.clock w)) in *.
  assert (Hlast : is_digit (last (DenoSink.content f) " "%char) = false).
  { unfold ends_clean in Hclean. destruct (is_digit _); [discriminate Hclean|reflexivity]. }
  pose proof (own_marker_enumerated _ separator _ H0 Hlast) as Hin.
  pose proof (own_marker_timestamp _ _ _ Hin) as Hown.
  set (e := expiry (second_reading (DenoSink.clock w)) (Some ttl)).
  assert (Hfresh : (timestamp_of (own_marker (length (DenoSink.content f)) ct) > e)%Z)
    by (rewrite Hown; unfold e; rewrite expiry_Some; lia).
  destruct (fresh_marker_kept e _ _ Hin Hfresh) as (cut & Hle & _ & Hd & Hk).
  cbn [own_marker index matched group1] in Hle, Hk.
  assert (Hsplit : substring (DenoSink.content f ++ marker_line ct ++ separator) cut
                   = skipn cut (DenoSink.content f ++ marker_line ct) ++ separator).
  { unfold substring. rewrite app_assoc. apply skipn_app_le.
    rewrite length_app, marker_line_text. cbn [length]. lia. }
  exists (skipn cut (DenoSink.content f ++ marker_line ct)).
  rewrite (deno_onInterval_open _ _ _ _ Hf Ho). fold ct e.
  rewrite Hd, Hsplit. split; [reflexivity|].
  rewrite <- Hsplit. eexists. split; [exact Hk|]. split; [reflexivity|exact Hown].
Qed.

(** The state a Deno logger keeps through logs and cycles in good
    conditions. *)
Lemma deno_run_invariant (ttl : Z) (separator : str) (r : nat -> Z) (from : nat)
    (events : list deno_event) :
  separator <> [] ->
  ends_clean separator = true ->
  cycles_timely ttl (mkClock r from) from ->
  forall w f j,
    DenoSink.file w = Some f ->
    DenoSink.writer_open w = true ->
    ends_clean (DenoSink.content f) = true ->
    DenoSink.clock w = mkClock r (from + 2 * j) ->
    exists f' j',
      DenoSink.file (deno_run (Some ttl) separator events w) = Some f' /\
      DenoSink.writer_open (deno_run (Some ttl) separator events w) = true /\
      ends_clean (DenoSink.content f') = true /\
      DenoSink.clock (deno_run (Some ttl) separator events w) = mkClock r (from + 2 * j') /\
      DenoSink.intervals (deno_run (Some ttl) separator events w) = DenoSink.intervals w.
Proof.
  intros Hne Hsep Htimely.
  induction events as [|ev events IH]; intros w f j Hf Ho Hclean Hclock.
  - exists f, j. repeat split; assumption.
  - unfold deno_run in *. cbn [fold_left].
    assert (Hstep : exists f1 j1,
      DenoSink.file (deno_step (Some ttl) separator w ev) = Some f1 /\
      DenoSink.writer_open (deno_step (Some ttl) separator w ev) = true /\
      ends_clean (DenoSink.content f1) = true /\
      DenoSink.clock (deno_step (Some ttl) separator w ev) = mkClock r (from + 2 * j1) /\
      DenoSink.intervals (deno_step (Some ttl) separator w ev) = DenoSink.intervals w).
    { destruct ev as [log|id]; cbn [deno_step].
      - unfold DenoSink.appendLog. rewrite Ho, Hf.
        eexists; exists j. unfold DenoSink.set_file.
        cbn [DenoSink.file DenoSink.writer_open DenoSink.clock DenoSink.intervals
             DenoSink.content].
        split; [reflexivity|]. split; [exact Ho|]. split; [|split; [exact Hclock|reflexivity]].
        rewrite app_assoc. apply ends_clean_app; assumption.
      - unfold DenoSink.tick. destruct (existsb _ _).
        + destruct (Htimely j) as [H0 Ht].
          destruct (deno_good_cycle ttl separator w f Hf Ho Hclean) as (body & Hrun & _).
          * unfold first_reading. rewrite Hclock. exact H0.
          * unfold first_reading, second_reading. rewrite Hclock. exact Ht.
          * rewrite Hrun. eexists; exists (S j).
            cbn [DenoSink.file DenoSink.writer_open DenoSink.clock DenoSink.intervals
                 DenoSink.content].
            split; [reflexivity|]. split; [reflexivity|].
            split; [apply ends_clean_app; assumption|].
            split; [|reflexivity].
            rewrite Hclock. unfold advance. cbn [readings calls]. f_equal. lia.
        + exists f, j. repeat split; assumption. }
    destruct Hstep as (f1 & j1 & Hf1 & Ho1 & Hc1 & Hk1 & Hi1).
    destruct (IH _ f1 j1 Hf1 Ho1 Hc1 Hk1) as (f' & j' & H1 & H2 & H3 & H4 & H5).
    exists f', j'. repeat split; try assumption. rewrite H5. exact Hi1.
Qed.

(** X20. In the Deno implementation, with a separator that is not empty and
    does not end in a digit (the default is a newline), on a file that is
    empty or does not end in a digit, and with a clock that for every cycle
    shows a time that is not negative and a second reading less than
    [ttl * 1000] later: after any sequence of calls of the logger and of
    cycles, the cycle the armed timer runs next leaves a file that holds the
    marker of that cycle, with its timestamp. *)
Theorem deno_every_cycle_keeps_its_marker (ttl : Z) (separator : str)
    (w : DenoSink.World) (f : DenoSink.File) (events : list deno_event)
    (id : positive) :
  DenoSink.file w = Some f ->
  DenoSink.writer_open w = true ->
  ends_clean (DenoSink.content f) = true ->
  separator <> [] ->
  ends_clean separator = true ->
  cycles_timely ttl (DenoSink.clock w) (calls (DenoSink.clock w)) ->
  In id (DenoSink.intervals w) ->
  let before := deno_run (Some ttl) separator events w in
  let currentTime := first_reading (DenoSink.clock before) in
  exists f',
    DenoSink.file (DenoSink.tick (Some ttl) separator id before) = Some f' /\
    exists m', In m' (markers (DenoSink.content f')) /\
               matched m' = marker_text currentTime /\
               timestamp_of m' = currentTime.
Proof.
  intros Hf Ho Hclean Hne Hsep Htimely Hid before currentTime.
  destruct (DenoSink.clock w) as [r from] eqn:Hclock. cbn [calls] in Htimely.
  destruct (deno_run_invariant ttl separator r from events Hne Hsep Htimely w f 0
              Hf Ho Hclean ltac:(rewrite Hclock; f_equal; lia))
    as (f1 & j1 & Hf1 & Ho1 & Hc1 & Hk1 & Hi1).
  fold before in Hf1, Ho1, Hk1, Hi1.
  unfold DenoSink.tick.
  assert (Harmed : existsb (Pos.eqb id) (DenoSink.intervals before) = true).
  { apply existsb_exists. exists id. rewrite Hi1.
    split; [exact Hid | apply Pos.eqb_refl]. }
  rewrite Harmed.
  destruct (Htimely j1) as [H0 Ht].
  destruct (deno_good_cycle ttl separator before f1 Hf1 Ho1 Hc1) as (body & Hrun & Hm).
  - unfold first_reading. rewrite Hk1. exact H0.
  - unfold first_reading, second_reading. rewrite Hk1. exact Ht.
  - rewrite Hrun. cbn [DenoSink.file]. eexists. split; [reflexivity|].
    cbn [DenoSink.content]. exact Hm.
Qed.

Lemma deno_every_cycle_keeps_its_marker_witness :
  let w := DenoSink.mkWorld (still_clock 1700000000000)
             (Some (DenoSink.mkFile (lit "old line") (created_at 0)))
             true true [1%positive] 2 in
  let before := deno_run (Some 1%Z) newline [Log (lit "a"); Due 1%positive; Log (lit "b7")] w in
  exists f',
    DenoSink.file (DenoSink.tick (Some 1%Z) newline 1%positive before) = Some f' /\
    exists m', In m' (markers (DenoSink.content f')) /\
               matched m' = marker_text (first_reading (DenoSink.clock before)) /\
               timestamp_of m' = first_reading (DenoSink.clock before).
Proof.
  apply (deno_every_cycle_keeps_its_marker 1 newline
           (DenoSink.mkWorld (still_clock 1700000000000)
              (Some (DenoSink.mkFile (lit "old line") (created_at 0)))
              true true [1%positive] 2)
           (DenoSink.mkFile (lit "old line") (created_at 0))
           [Log (lit "a"); Due 1%positive; Log (lit "b7")] 1%positive).
  - reflexivity.
  - reflexivity.
  - reflexivity.
  - discriminate.
  - reflexivity.
  - intros j. cbn [DenoSink.clock still_clock readings calls]. lia.
  - left. reflexivity.
Defined.
(** ** How the rewritten file starts *)

Lemma cut_head_marker (e : Z) (content : str) (m1 : RegExpMatch) :
  find (fresh e) (markers content) = Some m1 ->
  exists m rest,
    markers (substring content (index m1)) = m :: rest /\
    index m = 0 /\ (timestamp_of m > e)%Z.
Proof.
  intros Hf. apply cut_at_fresh in Hf as (old & rest & _ & _ & Hts & Hk).
  destruct (markers (substring content (index m1))) as [|m ms]; [discriminate Hk|].
  cbn [map] in Hk. injection Hk as Hm _.
  exists m, ms. split; [reflexivity|].
  pose proof (f_equal index Hm) as Hi. unfold shift in Hi; cbn [index] in Hi.
  split; [lia|]. rewrite <- (timestamp_shift (index m1) m), Hm. exact Hts.
Qed.

(** X21. With no assumption on the order of the markers: what the Node loop
    hands to the rewrite either holds no Age Marker at all or starts with
    an Age Marker newer than the cut-off; what the Deno loop hands to the
    rewrite either is the whole content, none of whose Age Markers is newer
    than the cut-off, or starts with an Age Marker newer than the
    cut-off. *)
Theorem kept_starts_with_fresh_marker (expiryTimestamp : Z) (content : str) :
  (exists kept,
     NodeSink.retained expiryTimestamp content = Some kept /\
     (markers kept = [] \/
      exists m rest, markers kept = m :: rest /\ index m = 0 /\
                     (timestamp_of m > expiryTimestamp)%Z)) /\
  (exists kept,
     DenoSink.retained expiryTimestamp content = Some kept /\
     ((kept = content /\
       Forall (fun m => (timestamp_of m <= expiryTimestamp)%Z) (markers content)) \/
      exists m rest, markers kept = m :: rest /\ index m = 0 /\
                     (timestamp_of m > expiryTimestamp)%Z)).
Proof.
  rewrite node_retained_cut, deno_retained_cut.
  destruct (find (fresh expiryTimestamp) (markers content)) as [m1|] eqn:Hf.
  - pose proof (cut_head_marker _ _ _ Hf) as Hhead.
    unfold node_cut, deno_cut. rewrite Hf.
    split; eexists; (split; [reflexivity|]); right; exact Hhead.
  - split; eexists; (split; [reflexivity|]); left.
    + apply node_cut_stale. exact Hf.
    + unfold deno_cut. rewrite Hf. split; [reflexivity|].
      apply no_fresh_iff. exact Hf.
Qed.

Lemma node_keeps_suffix_of_deno_witness :
  exists kn kd,
    NodeSink.retained 100 stale_with_tail = Some kn /\
    DenoSink.retained 100 stale_with_tail = Some kd /\
    suffix_of kn kd /\
    ((exists m, In m (markers stale_with_tail) /\ (timestamp_of m > 100)%Z) ->
     kn = kd).
Proof. exact (node_keeps_suffix_of_deno 100 stale_with_tail). Defined.
(** ** Runs on sample inputs *)

Example parseInt_leading_zeros : parseInt (lit "0012") = 12%Z.
Proof. reflexivity. Qed.

Example Number_toString_now : Number_toString 1700000000123 = lit "1700000000123".
Proof. vm_compute. reflexivity. Qed.

Example markers_two : map index (markers two_markers) = [2; 38].
Proof. vm_compute. reflexivity. Qed.

Example node_retained_two :
  NodeSink.retained 6 two_markers = Some (lit "---------- TIMESTAMP: 77 ---------- c").
Proof. vm_compute. reflexivity. Qed.

Example deno_retained_two :
  DenoSink.retained 6 two_markers = Some (lit "---------- TIMESTAMP: 77 ---------- c").
Proof. vm_compute. reflexivity. Qed.
